(** * Deepfake-analysis pipeline: job store, model selection, dispatch, report

    A shallow embedding of [server/storage.ts] (class [MemStorage]) and of the
    analysis pipeline of [server/routes.ts] ([processMedia] and the selection
    of models in the upload route), followed by the properties of the
    specification checked against it.

    Conventions of the embedding.
    - A JavaScript [Map] keeps its entries in insertion order and
      [Array.from(map.values())] exposes that order ([analysisResults[0]] in
      [getCompleteAnalysis] depends on it), so a [Map<number, V>] is an
      association list in insertion order.
    - Integers of the program (ids, sizes, scores, timestamps) are [Z].
      Where the program computes with numbers (the sum and the mean of the
      scores, the simulated score) a number is an IEEE 754 double: a finite
      double is the rational it denotes, and every operation is the exact
      operation followed by the rounding [Js.double] to the nearest double.
      Numbers read from a text ([parseInt], [JSON.parse]) keep their exact
      value, and so does the simulated delay.
    - [undefined] results are [option]; a thrown exception is the [Throw]
      completion of the monad [M], in which the state survives the throw.
    - An [async] function is run to completion: awaits are sequencing. *)

From Stdlib Require Import ZArith QArith Qround Qabs Qpower String Ascii List Bool Lia Lqa.
From Stdlib Require Import Sorted Permutation Qminmax.
Import ListNotations.

Local Open Scope string_scope.
Local Open Scope Z_scope.
Set Warnings "-register-all".

(** ** Host language: the built-ins the program relies on *)

Module Js.

(** [Map<number, V>]: insertion-ordered, one entry per key. *)
Definition Map (V : Type) : Type := list (Z * V).

Fixpoint get {V} (k : Z) (m : Map V) : option V :=
  match m with
  | [] => None
  | (k', v) :: rest => if k =? k' then Some v else get k rest
  end.

(** [map.set(k, v)]: an existing key keeps its position, a new key is
    appended. *)
Fixpoint set {V} (k : Z) (v : V) (m : Map V) : Map V :=
  match m with
  | [] => [(k, v)]
  | (k', v') :: rest =>
      if k =? k' then (k, v) :: rest else (k', v') :: set k v rest
  end.

Definition values {V} (m : Map V) : list V := map snd m.

Definition keys {V} (m : Map V) : list Z := map fst m.

(** [Math.round]: the nearest integer, ties towards plus infinity. *)
Definition Math_round (x : Q) : Z := Qfloor (x + (1 # 2))%Q.

Definition Math_floor (x : Q) : Z := Qfloor x.

(** Numbers are IEEE 754 doubles (binary64).  [exponent x] is the integer
    [e] with [2 ^ e <= |x| < 2 ^ (e + 1)], for [x] other than 0.  The doubles
    around [x] are the multiples of [ulp x]: 53 significant bits, and a fixed
    spacing of [2 ^ (-1074)] below [2 ^ (-1022)].  [double x] is the double
    nearest to [x]; of two doubles equally near, the one with the even
    multiple.  Infinities are not represented: [double] is the rounding of
    the language for values below [2 ^ 1024] in magnitude. *)
Definition exponent (x : Q) : Z :=
  let e := Z.log2 (Z.abs (Qnum x)) - Z.log2 (Zpos (Qden x)) in
  if Qle_bool (2 ^ e) (Qabs x) then e else e - 1.

Definition ulp (x : Q) : Q := (2 ^ (Z.max (exponent x) (-1022) - 52))%Q.

Definition round_half_even (m : Q) : Z :=
  let below := Qfloor m in
  match (m - inject_Z below ?= 1 # 2)%Q with
  | Lt => below
  | Gt => below + 1
  | Eq => if Z.even below then below else below + 1
  end.

Definition double (x : Q) : Q :=
  if Qeq_bool x 0 then 0%Q
  else Qred (inject_Z (round_half_even (x / ulp x)) * ulp x).

(** [a + b], [a * b] and [a / b] on numbers. *)
Definition add (a b : Q) : Q := double (a + b).

Definition mul (a b : Q) : Q := double (a * b).

Definition div (a b : Q) : Q := double (a / b).

(** [hay.startsWith(needle)] and [hay.includes(needle)]. *)
Definition startsWith (hay needle : string) : bool := String.prefix needle hay.

Fixpoint includes (hay needle : string) : bool :=
  String.prefix needle hay
  || match hay with
     | EmptyString => false
     | String _ rest => includes rest needle
     end.

(** [Array.from(new Set(xs))] for an array of objects: the first occurrence
    of every element, where two elements are the same when [same] holds
    (for objects, reference identity). *)
Fixpoint Set_of {A} (same : A -> A -> bool) (seen xs : list A) : list A :=
  match xs with
  | [] => []
  | x :: rest =>
      if existsb (same x) seen then Set_of same seen rest
      else x :: Set_of same (x :: seen) rest
  end.

(** [xs.sort(cmp)]: the sort is stable; [cmp a b > 0] puts [a] after [b]. *)
Fixpoint sort_insert {A} (cmp : A -> A -> Z) (x : A) (sorted : list A) : list A :=
  match sorted with
  | [] => [x]
  | y :: rest =>
      if 0 <? cmp x y then y :: sort_insert cmp x rest else x :: y :: rest
  end.

Definition sort {A} (cmp : A -> A -> Z) (xs : list A) : list A :=
  fold_right (sort_insert cmp) [] xs.

(** [x || dflt] on a possibly undefined object. *)
Definition or_else {A} (x : option A) (dflt : A) : A :=
  match x with Some a => a | None => dflt end.

(** [(s as string) || undefined]: the empty string is falsy. *)
Definition truthy_string (s : option string) : option string :=
  match s with
  | Some EmptyString => None
  | other => other
  end.

(** Run-time values as they occur in [selectedModels]: what [JSON.parse]
    returns, and [NaN] from [parseInt].  A number is its exact value. *)
Inductive value : Type :=
| Null
| Boolean (b : bool)
| Number (q : Q)
| NaN
| Str (s : string)
| Arr (items : list value)
| Obj (members : list (string * value)).

Definition of_Z (z : Z) : value := Number (inject_Z z).

(** [xs.includes(id)] for a number [id] that is an integer: SameValueZero
    holds with the numbers of the same value only. *)
Definition same_number (id : Z) (v : value) : bool :=
  match v with
  | Number q => Qeq_bool q (inject_Z id)
  | _ => false
  end.

Definition Array_includes (xs : list value) (id : Z) : bool :=
  existsb (same_number id) xs.

(** What an exception carries. *)
Inductive Error : Type :=
| SyntaxError
| TypeError
| Raised (message : string).

Inductive Completion (A : Type) : Type :=
| Normal (a : A)
| Throw (e : Error).
Arguments Normal {A} a.
Arguments Throw {A} e.

Definition code (c : ascii) : Z := Z.of_N (N_of_ascii c).

Definition digit (c : ascii) : option Z :=
  let n := code c in
  if (48 <=? n) && (n <=? 57) then Some (n - 48) else None.

Definition hex_digit (c : ascii) : option Z :=
  let n := code c in
  if (48 <=? n) && (n <=? 57) then Some (n - 48)
  else if (97 <=? n) && (n <=? 102) then Some (n - 87)
  else if (65 <=? n) && (n <=? 70) then Some (n - 55)
  else None.

(** The longest prefix of digits in base [radix]: its value on top of [acc],
    how many digits it has, and what follows it. *)
Fixpoint digits (radix acc : Z) (count : nat) (s : string) : Z * nat * string :=
  match s with
  | EmptyString => (acc, count, s)
  | String c rest =>
      match hex_digit c with
      | Some d => if d <? radix then digits radix (acc * radix + d) (S count) rest
                  else (acc, count, s)
      | None => (acc, count, s)
      end
  end.

(** [parseInt(s)] with no radix: leading white space, a sign, [0x] or [0X]
    for base 16, then the longest prefix of digits; [NaN] when there is none.
    White space is the ASCII part of the set of the language. *)
Definition is_space (c : ascii) : bool :=
  let n := code c in
  (n =? 32) || ((9 <=? n) && (n <=? 13)).

Fixpoint trim_start (s : string) : string :=
  match s with
  | String c rest => if is_space c then trim_start rest else s
  | EmptyString => s
  end.

Definition parseInt (s : string) : value :=
  let s1 := trim_start s in
  let '(negative, s2) :=
    match s1 with
    | String "-" rest => (true, rest)
    | String "+" rest => (false, rest)
    | _ => (false, s1)
    end in
  let '(radix, s3) :=
    match s2 with
    | String "0" (String "x" rest) => (16, rest)
    | String "0" (String "X" rest) => (16, rest)
    | _ => (10, s2)
    end in
  let '(n, count, _) := digits radix 0 0 s3 in
  match count with
  | O => NaN
  | S _ => of_Z (if negative then - n else n)
  end.

End Js.

(** ** [JSON.parse]

    The grammar of ECMA-404 over the bytes of the text.  A number is kept as
    its exact decimal value; a [\u] escape yields the code unit when it is
    ASCII and the byte [?] otherwise (only digits, signs and ASCII white space
    of a string matter to [parseInt]). *)

Module JSON.

Import Js.

Definition is_ws (c : ascii) : bool :=
  let n := code c in
  (n =? 32) || (n =? 9) || (n =? 10) || (n =? 13).

Fixpoint skip_ws (s : string) : string :=
  match s with
  | String c rest => if is_ws c then skip_ws rest else s
  | EmptyString => s
  end.

(** The characters of a string literal after its opening quote. *)
Fixpoint string_body (s : string) : option (string * string) :=
  match s with
  | EmptyString => None
  | String c rest =>
      if Ascii.eqb c "034" then Some (EmptyString, rest)
      else if Ascii.eqb c "\" then
        match rest with
        | String e rest2 =>
            let simple (ch : ascii) :=
              match string_body rest2 with
              | Some (body, after) => Some (String ch body, after)
              | None => None
              end in
            if Ascii.eqb e "034" then simple "034"%char
            else if Ascii.eqb e "\" then simple "\"%char
            else if Ascii.eqb e "/" then simple "/"%char
            else if Ascii.eqb e "b" then simple (ascii_of_nat 8)
            else if Ascii.eqb e "f" then simple (ascii_of_nat 12)
            else if Ascii.eqb e "n" then simple (ascii_of_nat 10)
            else if Ascii.eqb e "r" then simple (ascii_of_nat 13)
            else if Ascii.eqb e "t" then simple (ascii_of_nat 9)
            else if Ascii.eqb e "u" then
              match rest2 with
              | String h1 (String h2 (String h3 (String h4 rest3))) =>
                  match hex_digit h1, hex_digit h2, hex_digit h3, hex_digit h4 with
                  | Some d1, Some d2, Some d3, Some d4 =>
                      let unit := ((d1 * 16 + d2) * 16 + d3) * 16 + d4 in
                      let ch := if unit <? 128 then ascii_of_N (Z.to_N unit) else "?"%char in
                      match string_body rest3 with
                      | Some (body, after) => Some (String ch body, after)
                      | None => None
                      end
                  | _, _, _, _ => None
                  end
              | _ => None
              end
            else None
        | EmptyString => None
        end
      else if code c <? 32 then None
      else
        match string_body rest with
        | Some (body, after) => Some (String c body, after)
        | None => None
        end
  end.

(** [m * 10 ^ e] *)
Definition scale (m e : Z) : Q :=
  if 0 <=? e then inject_Z (m * 10 ^ e) else Qmake m (Z.to_pos (10 ^ (- e))).

(** A number literal: an optional minus sign; zero, or digits that do not
    start with zero; an optional fraction (a dot and digits); an optional
    exponent (e or E, an optional sign, digits). *)
Definition number (s : string) : option (Q * string) :=
  let '(negative, s1) :=
    match s with
    | String "-" rest => (true, rest)
    | _ => (false, s)
    end in
  let int_part :=
    match s1 with
    | String "0" rest => Some (0, rest)
    | _ => let '(n, count, rest) := digits 10 0 0 s1 in
           match count with O => None | S _ => Some (n, rest) end
    end in
  match int_part with
  | None => None
  | Some (n, s2) =>
      let frac_part :=
        match s2 with
        | String "." rest =>
            let '(m, count, rest') := digits 10 n 0 rest in
            match count with O => None | S _ => Some (m, Z.of_nat count, rest') end
        | _ => Some (n, 0, s2)
        end in
      match frac_part with
      | None => None
      | Some (m, places, s3) =>
          let exp_part :=
            match s3 with
            | String c rest =>
                if Ascii.eqb c "e" || Ascii.eqb c "E" then
                  let '(minus, rest1) :=
                    match rest with
                    | String "-" r => (true, r)
                    | String "+" r => (false, r)
                    | _ => (false, rest)
                    end in
                  let '(e, count, rest2) := digits 10 0 0 rest1 in
                  match count with
                  | O => None
                  | S _ => Some (if minus then - e else e, rest2)
                  end
                else Some (0, s3)
            | EmptyString => Some (0, s3)
            end in
          match exp_part with
          | None => None
          | Some (e, s4) =>
              Some (scale (if negative then - m else m) (e - places), s4)
          end
      end
  end.

(** A value, the elements of an array from the first one on, the members of
    an object from the first one on.  The recursion is bounded by [fuel]: two
    nested calls read at least one character between them, and [parse] gives
    twice the length of the text plus two. *)
Fixpoint parse_value (fuel : nat) (s : string) : option (value * string) :=
  match fuel with
  | O => None
  | S fuel' =>
      match skip_ws s with
      | String "n" (String "u" (String "l" (String "l" rest))) => Some (Null, rest)
      | String "t" (String "r" (String "u" (String "e" rest))) => Some (Boolean true, rest)
      | String "f" (String "a" (String "l" (String "s" (String "e" rest)))) =>
          Some (Boolean false, rest)
      | String "034" rest =>
          match string_body rest with
          | Some (body, after) => Some (Str body, after)
          | None => None
          end
      | String "[" rest =>
          match skip_ws rest with
          | String "]" after => Some (Arr [], after)
          | _ =>
              match parse_elements fuel' rest with
              | Some (items, after) => Some (Arr items, after)
              | None => None
              end
          end
      | String "{" rest =>
          match skip_ws rest with
          | String "}" after => Some (Obj [], after)
          | _ =>
              match parse_members fuel' rest with
              | Some (members, after) => Some (Obj members, after)
              | None => None
              end
          end
      | other =>
          match number other with
          | Some (q, after) => Some (Number q, after)
          | None => None
          end
      end
  end
with parse_elements (fuel : nat) (s : string) : option (list value * string) :=
  match fuel with
  | O => None
  | S fuel' =>
      match parse_value fuel' s with
      | None => None
      | Some (item, after) =>
          match skip_ws after with
          | String "]" rest => Some ([item], rest)
          | String "," rest =>
              match parse_elements fuel' rest with
              | Some (items, rest') => Some (item :: items, rest')
              | None => None
              end
          | _ => None
          end
      end
  end
with parse_members (fuel : nat) (s : string) : option (list (string * value) * string) :=
  match fuel with
  | O => None
  | S fuel' =>
      match skip_ws s with
      | String "034" rest =>
          match string_body rest with
          | None => None
          | Some (key, after_key) =>
              match skip_ws after_key with
              | String ":" rest1 =>
                  match parse_value fuel' rest1 with
                  | None => None
                  | Some (item, after) =>
                      match skip_ws after with
                      | String "}" rest2 => Some ([(key, item)], rest2)
                      | String "," rest2 =>
                          match parse_members fuel' rest2 with
                          | Some (members, rest3) => Some ((key, item) :: members, rest3)
                          | None => None
                          end
                      | _ => None
                      end
                  end
              | _ => None
              end
          end
      | _ => None
      end
  end.

Definition parse (text : string) : Completion value :=
  match parse_value (2 * String.length text + 2) text with
  | Some (v, rest) =>
      match skip_ws rest with
      | EmptyString => Normal v
      | String _ _ => Throw SyntaxError
      end
  | None => Throw SyntaxError
  end.

End JSON.

(** ** Data model (the types of [@shared/schema] as the code uses them) *)

Module User.
Record t := mk { id : Z; username : string; password : string }.
End User.

Module InsertMediaUpload.
Record t := mk {
  filename : string;
  filesize : Z;
  filetype : string;
  userId : option Z
}.
End InsertMediaUpload.

Module MediaUpload.
Record t := mk {
  id : Z;
  filename : string;
  filesize : Z;
  filetype : string;
  userId : option Z;
  uploadedAt : Z;
  status : string
}.

(** [{ ...mediaUpload, status }] *)
Definition with_status (m : t) (s : string) : t :=
  mk (id m) (filename m) (filesize m) (filetype m) (userId m) (uploadedAt m) s.
End MediaUpload.

Module InsertDetectionModel.
Record t := mk {
  name : string;
  description : string;
  type : string;
  isActive : bool
}.
End InsertDetectionModel.

Module DetectionModel.
Record t := mk {
  id : Z;
  name : string;
  description : string;
  type : string;
  isActive : bool
}.
End DetectionModel.

Module Anomaly.
Record t := mk { type : string; description : string; severity : string }.
End Anomaly.

(** An entry [{ type, confidence }] of a [manipulationTypes] array.  It is a
    JavaScript object, and [new Set(...)] in [getCompleteAnalysis] compares
    objects by reference: [ref] is the identity of the object, given to it
    when its literal is evaluated. *)
Module ManipulationType.
Record t := mk { ref : nat; type : string; confidence : Z }.

Definition same_object (a b : t) : bool := Nat.eqb (ref a) (ref b).

(** The content of the object, as serialised in the response. *)
Definition content (a : t) : string * Z := (type a, confidence a).
End ManipulationType.

Module TechnicalAnalysis.
Record t := mk {
  compressionLevel : string;
  compressionSuspicious : bool;
  encodingFormat : string;
  noisePattern : string;
  noisePatternSuspicious : bool;
  metadataConsistency : string;
  metadataModified : bool
}.
End TechnicalAnalysis.

Module Metadata.
Record t := mk { duration : option string; resolution : option string }.
End Metadata.

Module DetailsData.
Record t := mk {
  heatmapData : option string;
  faceRegions : list (string * Z);
  timelineData : list (string * Z)
}.
Definition empty : t := mk None [] [].
End DetailsData.

Module ResultDetails.
Record t := mk {
  anomalies : option (list Anomaly.t);
  manipulationTypes : option (list ManipulationType.t);
  detailsData : option DetailsData.t;
  metadata : option Metadata.t;
  technicalAnalysis : option TechnicalAnalysis.t
}.
End ResultDetails.

Module InsertAnalysisResult.
Record t := mk {
  mediaId : Z;
  modelId : Z;
  confidenceScore : Z;
  resultDetails : ResultDetails.t
}.
End InsertAnalysisResult.

Module AnalysisResult.
Record t := mk {
  id : Z;
  mediaId : Z;
  modelId : Z;
  confidenceScore : Z;
  resultDetails : ResultDetails.t;
  analyzedAt : Z
}.
End AnalysisResult.

Module ModelResult.
Record t := mk {
  modelId : Z;
  modelName : string;
  modelDescription : string;
  confidenceScore : Z;
  anomalies : list Anomaly.t;
  detailsData : DetailsData.t
}.
End ModelResult.

Module FileInfo.
Record t := mk {
  filename : string;
  filesize : Z;
  filetype : string;
  duration : option string;
  resolution : option string
}.
End FileInfo.

Module AnalysisResponse.
Record t := mk {
  mediaId : Z;
  filename : string;
  filetype : string;
  status : string;
  overallConfidence : Z;
  isDeepfake : bool;
  detectionTime : Z;
  manipulationTypes : list ManipulationType.t;
  modelResults : list ModelResult.t;
  fileInfo : FileInfo.t;
  technicalAnalysis : TechnicalAnalysis.t
}.
End AnalysisResponse.

(** ** [MemStorage] *)

Record MemStorage := mkStorage {
  users : Js.Map User.t;
  mediaUploads : Js.Map MediaUpload.t;
  detectionModels : Js.Map DetectionModel.t;
  analysisResults : Js.Map AnalysisResult.t;
  currentUserId : Z;
  currentMediaId : Z;
  currentModelId : Z;
  currentAnalysisId : Z
}.

Definition set_mediaUploads (st : MemStorage) (m : Js.Map MediaUpload.t) (next : Z) :=
  mkStorage (users st) m (detectionModels st) (analysisResults st)
            (currentUserId st) next (currentModelId st) (currentAnalysisId st).

Definition set_detectionModels (st : MemStorage) (m : Js.Map DetectionModel.t) (next : Z) :=
  mkStorage (users st) (mediaUploads st) m (analysisResults st)
            (currentUserId st) (currentMediaId st) next (currentAnalysisId st).

Definition set_analysisResults (st : MemStorage) (m : Js.Map AnalysisResult.t) (next : Z) :=
  mkStorage (users st) (mediaUploads st) (detectionModels st) m
            (currentUserId st) (currentMediaId st) (currentModelId st) next.

Definition getMediaUpload (id : Z) (st : MemStorage) : option MediaUpload.t :=
  Js.get id (mediaUploads st).

(** [new Date()] is the argument [now]. *)
Definition createMediaUpload (now : Z) (upload : InsertMediaUpload.t) (st : MemStorage)
  : MediaUpload.t * MemStorage :=
  let id := currentMediaId st in
  let mediaUpload :=
    MediaUpload.mk id (InsertMediaUpload.filename upload) (InsertMediaUpload.filesize upload)
                   (InsertMediaUpload.filetype upload) (InsertMediaUpload.userId upload)
                   now "pending" in
  (mediaUpload, set_mediaUploads st (Js.set id mediaUpload (mediaUploads st)) (id + 1)).

Definition updateMediaStatus (id : Z) (status : string) (st : MemStorage)
  : option MediaUpload.t * MemStorage :=
  match getMediaUpload id st with
  | None => (None, st)
  | Some mediaUpload =>
      let updatedUpload := MediaUpload.with_status mediaUpload status in
      (Some updatedUpload,
       set_mediaUploads st (Js.set id updatedUpload (mediaUploads st)) (currentMediaId st))
  end.

Definition getDetectionModels (st : MemStorage) : list DetectionModel.t :=
  Js.values (detectionModels st).

Definition getDetectionModel (id : Z) (st : MemStorage) : option DetectionModel.t :=
  Js.get id (detectionModels st).

Definition createDetectionModel (model : InsertDetectionModel.t) (st : MemStorage)
  : DetectionModel.t * MemStorage :=
  let id := currentModelId st in
  let detectionModel :=
    DetectionModel.mk id (InsertDetectionModel.name model)
                      (InsertDetectionModel.description model)
                      (InsertDetectionModel.type model)
                      (InsertDetectionModel.isActive model) in
  (detectionModel,
   set_detectionModels st (Js.set id detectionModel (detectionModels st)) (id + 1)).

Definition createAnalysisResult (now : Z) (result : InsertAnalysisResult.t) (st : MemStorage)
  : AnalysisResult.t * MemStorage :=
  let id := currentAnalysisId st in
  let analysisResult :=
    AnalysisResult.mk id (InsertAnalysisResult.mediaId result)
                      (InsertAnalysisResult.modelId result)
                      (InsertAnalysisResult.confidenceScore result)
                      (InsertAnalysisResult.resultDetails result) now in
  (analysisResult,
   set_analysisResults st (Js.set id analysisResult (analysisResults st)) (id + 1)).

Definition getAnalysisResultsByMediaId (mediaId : Z) (st : MemStorage)
  : list AnalysisResult.t :=
  filter (fun result => AnalysisResult.mediaId result =? mediaId)
         (Js.values (analysisResults st)).

Definition getAnalysisById (id : Z) (st : MemStorage) : option AnalysisResult.t :=
  Js.get id (analysisResults st).

(** The constructor: empty maps, counters at 1, then the four default
    models. *)
Definition defaultModels : list InsertDetectionModel.t :=
  [ InsertDetectionModel.mk "FaceForensics++"
      "Specialized in facial manipulation detection" "both" true;
    InsertDetectionModel.mk "DeepFake Detection Challenge"
      "Facebook's DFDC model for video analysis" "video" true;
    InsertDetectionModel.mk "CNN-LSTM"
      "Temporal inconsistency detection" "video" true;
    InsertDetectionModel.mk "EfficientNet-B4"
      "High-accuracy image classification" "image" true ].

Definition emptyStorage : MemStorage := mkStorage [] [] [] [] 1 1 1 1.

Definition newMemStorage : MemStorage :=
  fold_left (fun st model => snd (createDetectionModel model st)) defaultModels emptyStorage.

(** ** The aggregator: [getCompleteAnalysis] *)

Definition defaultTechnicalAnalysis : TechnicalAnalysis.t :=
  TechnicalAnalysis.mk "Medium" false "Unknown" "Regular" false "Consistent" false.

(** [analysisResults.reduce((sum, result) => sum + result.confidenceScore, 0)] *)
Definition sumConfidence (results : list AnalysisResult.t) : Q :=
  fold_left (fun sum result => Js.add sum (inject_Z (AnalysisResult.confidenceScore result)))
            results 0%Q.

Definition modelResultOf (st : MemStorage) (result : AnalysisResult.t) : ModelResult.t :=
  let model := getDetectionModel (AnalysisResult.modelId result) st in
  let details := AnalysisResult.resultDetails result in
  ModelResult.mk
    (AnalysisResult.modelId result)
    (match model with
     | Some m => if String.eqb (DetectionModel.name m) EmptyString then "Unknown Model"
                 else DetectionModel.name m
     | None => "Unknown Model"
     end)
    (match model with Some m => DetectionModel.description m | None => EmptyString end)
    (AnalysisResult.confidenceScore result)
    (Js.or_else (ResultDetails.anomalies details) [])
    (Js.or_else (ResultDetails.detailsData details) DetailsData.empty).

Definition collectManipulationTypes (results : list AnalysisResult.t)
  : list ManipulationType.t :=
  Js.sort
    (fun a b => ManipulationType.confidence b - ManipulationType.confidence a)
    (Js.Set_of ManipulationType.same_object []
       (flat_map
          (fun result =>
             Js.or_else (ResultDetails.manipulationTypes (AnalysisResult.resultDetails result)) [])
          results)).

Definition metadataField (result : AnalysisResult.t)
           (field : Metadata.t -> option string) : option string :=
  Js.truthy_string
    (match ResultDetails.metadata (AnalysisResult.resultDetails result) with
     | Some md => field md
     | None => None
     end).

Definition getCompleteAnalysis (mediaId : Z) (st : MemStorage) : option AnalysisResponse.t :=
  match getMediaUpload mediaId st with
  | None => None
  | Some mediaUpload =>
      let analysisResults := getAnalysisResultsByMediaId mediaId st in
      match analysisResults with
      | [] => None
      | first :: _ =>
          let overallConfidence :=
            Js.Math_round
              (Js.div (sumConfidence analysisResults)
                      (inject_Z (Z.of_nat (length analysisResults)))) in
          Some (AnalysisResponse.mk
                  mediaId
                  (MediaUpload.filename mediaUpload)
                  (MediaUpload.filetype mediaUpload)
                  (MediaUpload.status mediaUpload)
                  overallConfidence
                  (60 <? overallConfidence)
                  (AnalysisResult.analyzedAt first)
                  (collectManipulationTypes analysisResults)
                  (map (modelResultOf st) analysisResults)
                  (FileInfo.mk
                     (MediaUpload.filename mediaUpload)
                     (MediaUpload.filesize mediaUpload)
                     (MediaUpload.filetype mediaUpload)
                     (metadataField first Metadata.duration)
                     (metadataField first Metadata.resolution))
                  (Js.or_else
                     (ResultDetails.technicalAnalysis (AnalysisResult.resultDetails first))
                     defaultTechnicalAnalysis))
      end
  end.


(** ** The world around the store, and the monad of the pipeline

    Besides the store, the pipeline reads the clock ([new Date()]), draws
    random numbers ([Math.random()]) and creates objects.  [clock w k] is
    what the [k]-th next reading of the clock returns, [randoms w k] the
    [k]-th next random number, [heapNext w] the identity of the next object
    whose identity the model tracks. *)

Record World := mkWorld {
  storage : MemStorage;
  heapNext : nat;
  clock : nat -> Z;
  randoms : nat -> Q
}.

Definition M (A : Type) : Type := World -> Js.Completion A * World.

Definition ret {A} (a : A) : M A := fun w => (Js.Normal a, w).

Definition throw {A} (e : Js.Error) : M A := fun w => (Js.Throw e, w).

Definition bind {A B} (m : M A) (k : A -> M B) : M B :=
  fun w =>
    match m w with
    | (Js.Normal a, w') => k a w'
    | (Js.Throw e, w') => (Js.Throw e, w')
    end.

(** [m.catch(handler)] *)
Definition catch {A} (m : M A) (handler : Js.Error -> M A) : M A :=
  fun w =>
    match m w with
    | (Js.Normal a, w') => (Js.Normal a, w')
    | (Js.Throw e, w') => handler e w'
    end.

Declare Scope pipeline_scope.
Delimit Scope pipeline_scope with pipeline.
Notation "x <- m ;; k" := (bind m (fun x => k))
  (at level 61, m at next level, right associativity) : pipeline_scope.
Notation "m ;; k" := (bind m (fun _ => k))
  (at level 61, right associativity) : pipeline_scope.
Local Open Scope pipeline_scope.

Definition with_storage (w : World) (st : MemStorage) : World :=
  mkWorld st (heapNext w) (clock w) (randoms w).

(** A call of a method of [storage] that may change it, and one that only
    reads it. *)
Definition call {A} (method : MemStorage -> A * MemStorage) : M A :=
  fun w => let (a, st) := method (storage w) in (Js.Normal a, with_storage w st).

Definition read {A} (method : MemStorage -> A) : M A :=
  fun w => (Js.Normal (method (storage w)), w).

Definition new_Date : M Z :=
  fun w => (Js.Normal (clock w O),
            mkWorld (storage w) (heapNext w) (fun k => clock w (S k)) (randoms w)).

Definition Math_random : M Q :=
  fun w => (Js.Normal (randoms w O),
            mkWorld (storage w) (heapNext w) (clock w) (fun k => randoms w (S k))).

(** The evaluation of an object literal [{ type, confidence }]. *)
Definition new_ManipulationType (type : string) (confidence : Z) : M ManipulationType.t :=
  fun w => (Js.Normal (ManipulationType.mk (heapNext w) type confidence),
            mkWorld (storage w) (S (heapNext w)) (clock w) (randoms w)).

(** [for (const x of xs) { body }] *)
Fixpoint for_of {A} (xs : list A) (body : A -> M unit) : M unit :=
  match xs with
  | [] => ret tt
  | x :: rest => body x ;; for_of rest body
  end.

(** [storage.createMediaUpload] and [storage.createAnalysisResult] read the
    clock themselves. *)
Definition storage_createMediaUpload (upload : InsertMediaUpload.t) : M MediaUpload.t :=
  now <- new_Date ;; call (createMediaUpload now upload).

Definition storage_createAnalysisResult (result : InsertAnalysisResult.t) : M AnalysisResult.t :=
  now <- new_Date ;; call (createAnalysisResult now result).

(** ** [processMedia] *)

(** The models a job is analysed with: [modelsToUse]. *)
Definition compatible (isVideo : bool) (model : DetectionModel.t) : bool :=
  String.eqb (DetectionModel.type model) "both"
  || (if isVideo then String.eqb (DetectionModel.type model) "video"
      else String.eqb (DetectionModel.type model) "image").

Definition modelsToUse (availableModels : list DetectionModel.t)
           (selectedModels : list Js.value) (isVideo : bool) : list DetectionModel.t :=
  if (0 <? Z.of_nat (length selectedModels))
  then filter (fun model =>
                 Js.Array_includes selectedModels (DetectionModel.id model)
                 && compatible isVideo model)
              availableModels
  else filter (fun model => DetectionModel.isActive model && compatible isVideo model)
              availableModels.

(** What the body of the loop computes for one model before it stores the
    result: a confidence score and the details.  The source writes this part
    inline, as the simulated analysis [simulatedAnalysis] below, which never
    throws; the loop is written over any producer, so that what it does when
    an iteration throws (the case the [catch] of the routes is there for) can
    be stated.  [processMedia] is the loop with the producer of the source. *)
Definition Producer : Type := bool -> DetectionModel.t -> M (Z * ResultDetails.t).

Definition anomaliesFor (name : string) : list Anomaly.t :=
  if Js.includes name "FaceForensics" then
    [ Anomaly.mk "visual"
        "Inconsistent facial texture patterns detected around eyes and mouth regions" "high";
      Anomaly.mk "visual"
        "Unnatural blending boundaries identified on facial periphery" "high";
      Anomaly.mk "lighting"
        "Lighting inconsistencies between facial features" "medium" ]
  else if Js.includes name "CNN-LSTM" then
    [ Anomaly.mk "temporal"
        "Unnatural eye blink patterns detected at 00:12-00:15" "high";
      Anomaly.mk "motion"
        "Motion inconsistencies between face and body movements" "high";
      Anomaly.mk "sync"
        "Audio-visual synchronization issues at multiple timestamps" "medium" ]
  else if Js.includes name "EfficientNet" then
    [ Anomaly.mk "pattern"
        "Unusual pixel patterns detected in background areas" "high";
      Anomaly.mk "artifacts"
        "Compression artifacts inconsistent with claimed source" "medium" ]
  else
    [ Anomaly.mk "general" "Multiple manipulation indicators detected" "high" ].

Definition detailsDataFor (name : string) : DetailsData.t :=
  DetailsData.mk
    (if Js.includes name "FaceForensics" then Some "heatmap_data_url_here" else None)
    (if Js.includes name "FaceForensics"
     then [("eyes", 96); ("mouth", 91); ("skin", 84)] else [])
    (if Js.includes name "CNN-LSTM"
     then [("00:05", 76); ("00:12", 98); ("00:24", 85)] else []).

(** The producer of the source: the simulated analysis. *)
Definition simulatedAnalysis : Producer :=
  fun isVideo model =>
    r <- Math_random ;;
    let name := DetectionModel.name model in
    let confidenceScore :=
      Js.Math_floor (Js.add (Js.mul r (inject_Z (95 - 60))) (inject_Z 60)) in
    let confidenceScore := if Js.includes name "FaceForensics" then 92 else confidenceScore in
    let confidenceScore := if Js.includes name "CNN-LSTM" then 86 else confidenceScore in
    let anomalies := anomaliesFor name in
    m1 <- new_ManipulationType "Face Swap" 95 ;;
    m2 <- new_ManipulationType "Expression Manipulation" 82 ;;
    m3 <- new_ManipulationType "Voice Synthesis" 56 ;;
    let manipulationTypes := [m1; m2; m3] in
    ret (confidenceScore,
         ResultDetails.mk
           (Some anomalies)
           (Some manipulationTypes)
           (Some (detailsDataFor name))
           (Some (Metadata.mk (if isVideo then Some "00:42" else None) (Some "1920x1080")))
           (Some (TechnicalAnalysis.mk "High" true (if isVideo then "H.264" else "JPEG")
                    "Irregular" true "Modified" true))).

(** The loop of [processMedia]: one result is stored as soon as it is
    produced. *)
Definition analyseWith (produce : Producer) (mediaId : Z) (isVideo : bool)
           (model : DetectionModel.t) : M unit :=
  produced <- produce isVideo model ;;
  storage_createAnalysisResult
    (InsertAnalysisResult.mk mediaId (DetectionModel.id model) (fst produced) (snd produced)) ;;
  ret tt.

Definition processMediaWith (produce : Producer) (mediaId : Z)
           (selectedModels : list Js.value) : M unit :=
  call (updateMediaStatus mediaId "processing") ;;
  mediaUpload <- read (getMediaUpload mediaId) ;;
  match mediaUpload with
  | None => ret tt
  | Some mediaUpload =>
      let isVideo := Js.startsWith (MediaUpload.filetype mediaUpload) "video/" in
      availableModels <- read getDetectionModels ;;
      for_of (modelsToUse availableModels selectedModels isVideo)
             (analyseWith produce mediaId isVideo) ;;
      call (updateMediaStatus mediaId "completed") ;;
      ret tt
  end.

Definition processMedia : Z -> list Js.value -> M unit :=
  processMediaWith simulatedAnalysis.

(** [processMedia(id, selectedModels).catch(err => { ...;
    storage.updateMediaStatus(id, "failed") })] *)
Definition dispatchWith (produce : Producer) (mediaId : Z)
           (selectedModels : list Js.value) : M unit :=
  catch (processMediaWith produce mediaId selectedModels)
        (fun _ => call (updateMediaStatus mediaId "failed") ;; ret tt).

Definition dispatch : Z -> list Js.value -> M unit := dispatchWith simulatedAnalysis.

(** ** The upload route: which models the caller selected *)

(** [JSON.parse(text).map(id => typeof id === 'string' ? parseInt(id) : id)];
    a value that is not an array has no [map]. *)
Definition parseSelectedModels (text : string) : Js.Completion (list Js.value) :=
  match JSON.parse text with
  | Js.Throw e => Js.Throw e
  | Js.Normal (Js.Arr ids) =>
      Js.Normal (map (fun id => match id with Js.Str s => Js.parseInt s | _ => id end) ids)
  | Js.Normal _ => Js.Throw Js.TypeError
  end.

(** The [try]/[catch] around the extraction; the field [selectedModels] of
    the body is a string or is missing, and the empty string is falsy. *)
Definition extractSelectedModels (body_selectedModels : option string) : M (list Js.value) :=
  match body_selectedModels with
  | Some (String c rest) =>
      match parseSelectedModels (String c rest) with
      | Js.Normal selectedModels => ret selectedModels
      | Js.Throw _ => ret [Js.of_Z 1; Js.of_Z 2]
      end
  | _ =>
      allModels <- read getDetectionModels ;;
      ret (map (fun model => Js.of_Z (DetectionModel.id model)) allModels)
  end.

(** [POST /api/upload] once the file is accepted and validated. *)
Definition uploadWith (produce : Producer) (file : InsertMediaUpload.t)
           (body_selectedModels : option string) : M Z :=
  mediaUpload <- storage_createMediaUpload file ;;
  selectedModels <- extractSelectedModels body_selectedModels ;;
  dispatchWith produce (MediaUpload.id mediaUpload) selectedModels ;;
  ret (MediaUpload.id mediaUpload).

Definition upload : InsertMediaUpload.t -> option string -> M Z :=
  uploadWith simulatedAnalysis.

(** A world to run examples in: the store as constructed, the clock at a
    fixed time, random numbers all [1/2]. *)
Definition initialWorld : World :=
  mkWorld newMemStorage O (fun _ => 1700000000000) (fun _ => 1 # 2).

Definition run {A} (m : M A) (w : World) : World := snd (m w).


Definition statusOf (id : Z) (st : MemStorage) : option string :=
  option_map MediaUpload.status (getMediaUpload id st).

(** ** Specification-side definitions *)

(** The media-type compatibility of a model with a job, as the
    specification words it. *)
Definition mediaCompatMatches (isVideo : bool) (mediaCompat : string) : Prop :=
  mediaCompat = "both"
  \/ (isVideo = true /\ mediaCompat = "video")
  \/ (isVideo = false /\ mediaCompat = "image").

Definition jobIsVideo (job : MediaUpload.t) : bool :=
  Js.startsWith (MediaUpload.filetype job) "video/".

(** The arithmetic mean of the confidence scores of a list of results. *)
Definition meanConfidence (results : list AnalysisResult.t) : Q :=
  let total := fold_right Z.add 0 (map AnalysisResult.confidenceScore results) in
  (inject_Z total / inject_Z (Z.of_nat (length results)))%Q.

(** The scores of a list of results are within what the numbers of the
    language add and divide without a visible loss: their magnitudes add up
    to less than [2 ^ 52], and there are fewer than [2 ^ 32] of them, as in
    every array.  Scores from 0 to 100 are within it. *)
Definition sumOfMagnitudes (results : list AnalysisResult.t) : Z :=
  fold_right Z.add 0 (map (fun result => Z.abs (AnalysisResult.confidenceScore result)) results).

Definition scoresWithinDoubles (results : list AnalysisResult.t) : Prop :=
  sumOfMagnitudes results < 2 ^ 52 /\ Z.of_nat (length results) < 2 ^ 32.

(** [c] is [x] rounded to the nearest integer, a half being rounded up. *)
Definition roundsHalfUp (x : Q) (c : Z) : Prop :=
  (x - (1 # 2) < inject_Z c)%Q /\ (inject_Z c <= x + (1 # 2))%Q.

(** The first of the results [first :: rest] when they are ordered by
    ([analyzedAt] ascending, [modelId] ascending), as the specification
    chooses the representative result. *)
Definition precedes (a b : AnalysisResult.t) : bool :=
  (AnalysisResult.analyzedAt a <? AnalysisResult.analyzedAt b)
  || ((AnalysisResult.analyzedAt a =? AnalysisResult.analyzedAt b)
      && (AnalysisResult.modelId a <=? AnalysisResult.modelId b)).

Fixpoint firstByTimeThenModel (first : AnalysisResult.t) (rest : list AnalysisResult.t)
  : AnalysisResult.t :=
  match rest with
  | [] => first
  | r :: rest' => firstByTimeThenModel (if precedes first r then first else r) rest'
  end.

(** ** Invariants and side conditions *)

(** The ids of the stored results are below the counter that names the next
    one: what the constructor establishes and every method keeps. *)
Definition fresh_result_ids (st : MemStorage) : Prop :=
  forall k, In k (Js.keys (analysisResults st)) -> k < currentAnalysisId st.

(** A producer computes a score and findings; it does not write the store. *)
Definition store_preserving (produce : Producer) : Prop :=
  forall isVideo model w, storage (snd (produce isVideo model w)) = storage w.

Definition resultModelIds (mediaId : Z) (st : MemStorage) : list Z :=
  map AnalysisResult.modelId (getAnalysisResultsByMediaId mediaId st).

(** ** Inputs of the examples *)

Definition videoFile : InsertMediaUpload.t :=
  InsertMediaUpload.mk "clip.mp4" 5000 "video/mp4" None.

(** A producer that raises an error for the model [CNN-LSTM] and is the
    simulated analysis for every other model. *)
Definition failingOnCnnLstm : Producer :=
  fun isVideo model =>
    if Js.includes (DetectionModel.name model) "CNN-LSTM"
    then throw (Js.Raised "model backend unavailable")
    else simulatedAnalysis isVideo model.

(** Two results of one job with the same [analyzedAt], given to
    [createAnalysisResult] in both orders. *)
Definition technicalOf (encodingFormat : string) : TechnicalAnalysis.t :=
  TechnicalAnalysis.mk "High" true encodingFormat "Irregular" true "Modified" true.

Definition resultOfModel (modelId score : Z) (encodingFormat : string) : InsertAnalysisResult.t :=
  InsertAnalysisResult.mk 1 modelId score
    (ResultDetails.mk None None None None (Some (technicalOf encodingFormat))).

Definition storeWithJob : MemStorage :=
  snd (createMediaUpload 1000 videoFile newMemStorage).

Definition storeModel3First : MemStorage :=
  snd (createAnalysisResult 2000 (resultOfModel 1 92 "H.264")
         (snd (createAnalysisResult 2000 (resultOfModel 3 86 "HEVC") storeWithJob))).

Definition storeModel1First : MemStorage :=
  snd (createAnalysisResult 2000 (resultOfModel 3 86 "HEVC")
         (snd (createAnalysisResult 2000 (resultOfModel 1 92 "H.264") storeWithJob))).

(** The world in which the job of [videoFile] has just been created. *)
Definition worldWithJob : World := run (storage_createMediaUpload videoFile) initialWorld.

(** ** The rest of [MemStorage]: users and the uploads of a user *)

Module InsertUser.
Record t := mk { username : string; password : string }.
End InsertUser.

Definition set_users (st : MemStorage) (m : Js.Map User.t) (next : Z) :=
  mkStorage m (mediaUploads st) (detectionModels st) (analysisResults st)
            next (currentMediaId st) (currentModelId st) (currentAnalysisId st).

Definition getUser (id : Z) (st : MemStorage) : option User.t :=
  Js.get id (users st).

(** [Array.from(this.users.values()).find(user => user.username === username)] *)
Definition getUserByUsername (username : string) (st : MemStorage) : option User.t :=
  find (fun user => String.eqb (User.username user) username) (Js.values (users st)).

Definition createUser (insertUser : InsertUser.t) (st : MemStorage) : User.t * MemStorage :=
  let id := currentUserId st in
  let user := User.mk id (InsertUser.username insertUser) (InsertUser.password insertUser) in
  (user, set_users st (Js.set id user (users st)) (id + 1)).

(** [if (userId)] is false for a missing [userId] and for [0]; an upload
    matches when its [userId] is that number. *)
Definition getMediaUploadsByUser (userId : option Z) (st : MemStorage) : list MediaUpload.t :=
  match userId with
  | Some u =>
      if u =? 0 then Js.values (mediaUploads st)
      else filter (fun upload =>
                     match MediaUpload.userId upload with
                     | Some owner => owner =? u
                     | None => false
                     end)
                  (Js.values (mediaUploads st))
  | None => Js.values (mediaUploads st)
  end.

(** ** The invariant of the store

    Every map holds each key once, in increasing order; a key is at least 1
    and below the counter of its map, and the entry stored under it carries
    it as [id]. *)

Definition keyed {V : Type} (idOf : V -> Z) (next : Z) (m : Js.Map V) : Prop :=
  1 <= next
  /\ NoDup (Js.keys m)
  /\ StronglySorted Z.lt (Js.keys m)
  /\ Forall (fun entry => 1 <= fst entry < next /\ idOf (snd entry) = fst entry) m.

Definition store_ok (st : MemStorage) : Prop :=
  keyed User.id (currentUserId st) (users st)
  /\ keyed MediaUpload.id (currentMediaId st) (mediaUploads st)
  /\ keyed DetectionModel.id (currentModelId st) (detectionModels st)
  /\ keyed AnalysisResult.id (currentAnalysisId st) (analysisResults st).

(** ** The simulated analysis, in parts

    The confidence score [simulatedAnalysis] gives to a model, from the name
    of the model and the random number drawn, and the three manipulation
    candidates it creates, from the identity of the first of them. *)

Definition simulatedScore (name : string) (r : Q) : Z :=
  let confidenceScore :=
    Js.Math_floor (Js.add (Js.mul r (inject_Z (95 - 60))) (inject_Z 60)) in
  let confidenceScore := if Js.includes name "FaceForensics" then 92 else confidenceScore in
  if Js.includes name "CNN-LSTM" then 86 else confidenceScore.

Definition simulatedCandidates (first : nat) : list ManipulationType.t :=
  [ ManipulationType.mk first "Face Swap" 95;
    ManipulationType.mk (S first) "Expression Manipulation" 82;
    ManipulationType.mk (S (S first)) "Voice Synthesis" 56 ].

(** The candidates of a list of results, as [getCompleteAnalysis] collects
    them. *)
Definition candidatesOf (results : list AnalysisResult.t) : list ManipulationType.t :=
  flat_map (fun result =>
              Js.or_else (ResultDetails.manipulationTypes
                            (AnalysisResult.resultDetails result)) [])
           results.

(** [Math.random()] returns a number from 0 (included) to 1 (excluded). *)
Definition randoms_in_range (w : World) : Prop :=
  forall k, (0 <= randoms w k)%Q /\ (randoms w k < 1)%Q.

(** The world in which the loop of the dispatch of a job starts, and the one
    in which it ends. *)
Definition loopStart (mediaId : Z) (w : World) : World :=
  with_storage w (snd (updateMediaStatus mediaId "processing" (storage w))).

Definition loopEnd (produce : Producer) (mediaId : Z) (selectedModels : list Js.value)
           (w : World) (job : MediaUpload.t) : World :=
  snd (for_of (modelsToUse (getDetectionModels (storage w)) selectedModels (jobIsVideo job))
              (analyseWith produce mediaId (jobIsVideo job)) (loopStart mediaId w)).

(** What the loop of [processMedia] keeps true of the results of a job when
    the producer is the simulated analysis: the scores are from 60 to 95; the
    candidates of the results are different objects, older than the next
    object, and every result has the same three candidates. *)
Definition threePairs : list (string * Z) :=
  [("Face Swap", 95); ("Expression Manipulation", 82); ("Voice Synthesis", 56)].

Definition scores_in_range (mediaId : Z) (w : World) : Prop :=
  randoms_in_range w
  /\ fresh_result_ids (storage w)
  /\ Forall (fun result => 60 <= AnalysisResult.confidenceScore result <= 95)
            (getAnalysisResultsByMediaId mediaId (storage w)).

Definition candidates_distinct (mediaId : Z) (w : World) : Prop :=
  let results := getAnalysisResultsByMediaId mediaId (storage w) in
  fresh_result_ids (storage w)
  /\ NoDup (map ManipulationType.ref (candidatesOf results))
  /\ Forall (fun m => (ManipulationType.ref m < heapNext w)%nat) (candidatesOf results)
  /\ map ManipulationType.content (candidatesOf results)
     = flat_map (fun _ => threePairs) results.

(** ** The routes

    A response is its status code and its JSON body ([res.json] alone answers
    200). *)

Inductive Body : Type :=
| Message (message : string)
| Started (message : string) (mediaId : Z)
| StatusOnly (status : string)
| Report (analysis : AnalysisResponse.t)
| Models (models : list DetectionModel.t).

Record Response := mkResponse { statusCode : Z; body : Body }.

(** The decimal text of a number that is an integer, as a template literal
    or [String(n)] gives it (below 10^21). *)
Definition digitChar (d : Z) : ascii := ascii_of_N (Z.to_N (48 + d)).

Fixpoint decimalDigits (fuel : nat) (n : Z) (tail : string) : string :=
  match fuel with
  | O => tail
  | S fuel' =>
      if n <? 10 then String (digitChar n) tail
      else decimalDigits fuel' (n / 10) (String (digitChar (n mod 10)) tail)
  end.

Definition Number_toString (n : Z) : string :=
  if n <? 0 then String "-" (decimalDigits (S (Z.to_nat (Z.log2 (- n)))) (- n) EmptyString)
  else decimalDigits (S (Z.to_nat (Z.log2 n))) n EmptyString.

(** The id a route reads from its path: [parseInt(req.params.mediaId)],
    with [isNaN] as the test. *)
Definition paramId (param : string) : option Z :=
  match Js.parseInt param with
  | Js.Number q => Some (Qfloor q)
  | _ => None
  end.

(** [GET /api/models] *)
Definition getModels (st : MemStorage) : Response :=
  mkResponse 200 (Models (getDetectionModels st)).

(** [GET /api/analysis/:mediaId/status] *)
Definition getAnalysisStatus (param : string) (st : MemStorage) : Response :=
  match paramId param with
  | None => mkResponse 400 (Message "Invalid media ID")
  | Some mediaId =>
      match getMediaUpload mediaId st with
      | None => mkResponse 404 (Message "Media not found")
      | Some mediaUpload => mkResponse 200 (StatusOnly (MediaUpload.status mediaUpload))
      end
  end.

(** [GET /api/analysis/:mediaId] *)
Definition getAnalysis (param : string) (st : MemStorage) : Response :=
  match paramId param with
  | None => mkResponse 400 (Message "Invalid media ID")
  | Some mediaId =>
      match getCompleteAnalysis mediaId st with
      | None => mkResponse 404 (Message "Analysis not found")
      | Some analysis => mkResponse 200 (Report analysis)
      end
  end.

(** The file filter of the upload: [allowedTypes.includes(file.mimetype)]. *)
Definition allowedTypes : list string :=
  ["image/jpeg"; "image/png"; "video/mp4"; "video/quicktime"].

Definition fileFilter (mimetype : string) : bool :=
  existsb (String.eqb mimetype) allowedTypes.

(** [POST /api/analyze-url]: the file type from the extension of the file
    name (already in lower case); [fileExtension.substring(1)] drops the
    dot. *)
Definition substring_from_1 (s : string) : string :=
  match s with
  | EmptyString => EmptyString
  | String _ rest => rest
  end.

Definition filetypeOfExtension (fileExtension : string) : option string :=
  if existsb (String.eqb fileExtension) [".jpg"; ".jpeg"; ".png"]
  then Some ("image/" ++ substring_from_1 fileExtension)
  else if String.eqb fileExtension ".mp4" then Some "video/mp4"
  else if String.eqb fileExtension ".mov" then Some "video/quicktime"
  else None.

(** Whether a value of the JSON body counts as true. *)
Definition truthy (v : Js.value) : bool :=
  match v with
  | Js.Null => false
  | Js.Boolean b => b
  | Js.Number q => negb (Qeq_bool q 0)
  | Js.NaN => false
  | Js.Str s => negb (String.eqb s EmptyString)
  | Js.Arr _ => true
  | Js.Obj _ => true
  end.

(** [selectedModels ? selectedModels.map(id => typeof id === 'string' ?
    parseInt(id) : id) : []]; only an array has [map]. *)
Definition urlModelIds (selectedModels : option Js.value) : Js.Completion (list Js.value) :=
  match selectedModels with
  | None => Js.Normal []
  | Some v =>
      if truthy v then
        match v with
        | Js.Arr ids =>
            Js.Normal (map (fun id => match id with Js.Str s => Js.parseInt s | _ => id end) ids)
        | _ => Js.Throw Js.TypeError
        end
      else Js.Normal []
  end.

(** The handler of [POST /api/analyze-url].  The body carries [url] (a text
    or missing) and [selectedModels] (any JSON value or missing).  What the
    host computes from the text of the URL is given: [matches] is the outcome
    of the test against the regular expression, [parsed] the outcome of
    [new URL(url)] followed by [path.basename] of the path and the lower-case
    [path.extname] of that name. *)
Definition analyzeUrlWith (produce : Producer) (url : option string) (matches : bool)
           (parsed : Js.Completion (string * string)) (selectedModels : option Js.value)
  : M Response :=
  match url with
  | None => ret (mkResponse 400 (Message "No URL provided"))
  | Some EmptyString => ret (mkResponse 400 (Message "No URL provided"))
  | Some _ =>
      if negb matches
      then ret (mkResponse 400 (Message "Invalid URL format or unsupported file type"))
      else
        match parsed with
        | Js.Throw _ => ret (mkResponse 500 (Message "Failed to analyze URL"))
        | Js.Normal (filename, fileExtension) =>
            match filetypeOfExtension fileExtension with
            | None => ret (mkResponse 400 (Message "Unsupported file type"))
            | Some filetype =>
                mediaUpload <- storage_createMediaUpload
                                 (InsertMediaUpload.mk filename 0 filetype None) ;;
                match urlModelIds selectedModels with
                | Js.Throw _ => ret (mkResponse 500 (Message "Failed to analyze URL"))
                | Js.Normal modelIds =>
                    dispatchWith produce (MediaUpload.id mediaUpload) modelIds ;;
                    ret (mkResponse 201 (Started "URL analysis started"
                                                 (MediaUpload.id mediaUpload)))
                end
            end
        end
  end.

Definition analyzeUrl : option string -> bool -> Js.Completion (string * string) ->
                        option Js.value -> M Response :=
  analyzeUrlWith simulatedAnalysis.


(** A text made of decimal digits only. *)
Fixpoint all_decimal (s : string) : bool :=
  match s with
  | EmptyString => true
  | String c rest =>
      match Js.digit c with
      | Some _ => all_decimal rest
      | None => false
      end
  end.

(** ** The client: recommended actions and the selection of models *)

(** The cards [RecommendedActions] shows, from top to bottom. *)
Inductive Card : Type :=
| TreatAsMisleading
| VerifyFromSources
| RequestExpertAnalysis
| AppearsAuthentic.

Definition recommendedActions (isDeepfake : bool) (confidence : Z) : list Card :=
  ((if isDeepfake then [TreatAsMisleading] else [])
   ++ [VerifyFromSources]
   ++ (if 60 <? confidence then [RequestExpertAnalysis] else [])
   ++ (if negb isDeepfake && (confidence <? 40) then [AppearsAuthentic] else []))%list.

(** A model in the state of [ModelSelection]: the model as the server lists
    it, and whether it is selected. *)
Module ModelInfo.
Record t := mk { model : DetectionModel.t; isSelected : bool }.
Definition id (m : t) : Z := DetectionModel.id (model m).
Definition name (m : t) : string := DetectionModel.name (model m).
End ModelInfo.

(** A handler gives the new state ([setModels]) and the selection it reports
    to the parent ([onChange]). *)
Definition selectedOf (models : list ModelInfo.t) : list ModelInfo.t :=
  filter ModelInfo.isSelected models.

(** The effect that runs when [availableModels] changes; it does nothing for
    an empty list. *)
Definition initializeModels (availableModels : list DetectionModel.t)
  : option (list ModelInfo.t * list ModelInfo.t) :=
  if (0 <? Z.of_nat (length availableModels)) then
    let initialModels :=
      map (fun model =>
             ModelInfo.mk model
               (String.eqb (DetectionModel.name model) "FaceForensics++"
                || String.eqb (DetectionModel.name model) "CNN-LSTM"))
          availableModels in
    Some (initialModels, filter ModelInfo.isSelected initialModels)
  else None.

Definition handleModelClick (id : Z) (models : list ModelInfo.t)
  : list ModelInfo.t * list ModelInfo.t :=
  let updatedModels :=
    map (fun model =>
           if ModelInfo.id model =? id
           then ModelInfo.mk (ModelInfo.model model) (negb (ModelInfo.isSelected model))
           else model)
        models in
  (updatedModels, filter ModelInfo.isSelected updatedModels).

Definition handleSelectAll (models : list ModelInfo.t)
  : list ModelInfo.t * list ModelInfo.t :=
  let allSelected := forallb ModelInfo.isSelected models in
  let updatedModels :=
    map (fun model => ModelInfo.mk (ModelInfo.model model) (negb allSelected)) models in
  (updatedModels, if allSelected then [] else updatedModels).

(** [JSON.stringify] of an array of numbers that are integers, as the page
    sends the ids of the selected models: the decimal texts, separated by
    commas, in brackets. *)
Fixpoint stringify_rest (ids : list Z) : string :=
  match ids with
  | [] => "]"
  | id :: rest => "," ++ Number_toString id ++ stringify_rest rest
  end.

Definition JSON_stringify_ids (ids : list Z) : string :=
  match ids with
  | [] => "[]"
  | id :: rest => "[" ++ Number_toString id ++ stringify_rest rest
  end.

(** [handleFileUpload] of the page: the field [selectedModels] of the form. *)
Definition selectedModelsField (selectedModels : list ModelInfo.t) : string :=
  JSON_stringify_ids (map ModelInfo.id selectedModels).

(** ** Facts about [Map] *)

Section MapFacts.

Context {V : Type}.
Implicit Types (m : Js.Map V) (k : Z) (v : V).

Lemma get_set_same k v m : Js.get k (Js.set k v m) = Some v.
Proof.
  induction m as [| [k' v'] rest IH]; simpl.
  - now rewrite Z.eqb_refl.
  - destruct (k =? k') eqn:E; simpl; rewrite ?Z.eqb_refl, ?E; auto.
Qed.

Lemma get_set_other k k' v m : k' <> k -> Js.get k' (Js.set k v m) = Js.get k' m.
Proof.
  intros Hne. induction m as [| [k0 v0] rest IH]; simpl.
  - apply Z.eqb_neq in Hne. now rewrite Hne.
  - destruct (k =? k0) eqn:E; simpl.
    + apply Z.eqb_eq in E; subst k0.
      apply Z.eqb_neq in Hne. now rewrite Hne.
    + now rewrite IH.
Qed.

Lemma get_none_not_key k m : Js.get k m = None <-> ~ In k (Js.keys m).
Proof.
  induction m as [| [k' v'] rest IH]; simpl.
  - tauto.
  - destruct (Z.eqb_spec k k') as [-> | Hne].
    + split; [discriminate | intros H; exfalso; apply H; now left].
    + rewrite IH. split; intros H; [intros [? | ?]; [congruence | tauto] | tauto].
Qed.

(** Setting a key that is present keeps the keys and their order. *)
Lemma set_present_keys k v v0 m :
  Js.get k m = Some v0 -> Js.keys (Js.set k v m) = Js.keys m.
Proof.
  induction m as [| [k' v'] rest IH]; simpl; [discriminate |].
  destruct (Z.eqb_spec k k') as [-> | Hne]; simpl; intros H.
  - reflexivity.
  - now rewrite IH.
Qed.

(** Setting a key that is absent appends the entry. *)
Lemma set_absent k v m : Js.get k m = None -> Js.set k v m = (m ++ [(k, v)])%list.
Proof.
  induction m as [| [k' v'] rest IH]; simpl; [reflexivity |].
  destruct (k =? k'); [discriminate |].
  intros H. now rewrite IH.
Qed.

End MapFacts.

(** ** Facts about numbers

    What the rounding to a double keeps: it does not cross a multiple of the
    unit in the last place, so that an integer below [2 ^ 53] is a double, a
    number between two integers stays between them, and the quotient of an
    integer below [2 ^ 52] stays on its side of every half-integer. *)

Section NumberFacts.

Local Open Scope Q_scope.

Lemma two_power_pos (e : Z) : 0 < 2 ^ e.
Proof. apply Qpower_0_lt. reflexivity. Qed.

Lemma two_power_Z (e : Z) : (0 <= e)%Z -> 2 ^ e == inject_Z (2 ^ e).
Proof. intros He. now rewrite Zpower_Qpower. Qed.

Lemma two_power_split (a b : Z) : 2 ^ (a + b) == 2 ^ a * 2 ^ b.
Proof. apply Qpower_plus. discriminate. Qed.

Lemma Qabs_fraction (x : Q) : Qabs x = (Z.abs (Qnum x) # Qden x).
Proof. destruct x as [n d]. reflexivity. Qed.

Lemma exponent_le (x : Q) : ~ x == 0 -> 2 ^ Js.exponent x <= Qabs x.
Proof.
  intros Hx. unfold Js.exponent.
  set (n := Z.abs (Qnum x)). set (d := Zpos (Qden x)).
  destruct (Qle_bool (2 ^ (Z.log2 n - Z.log2 d)) (Qabs x)) eqn:Hle.
  - now apply Qle_bool_iff.
  - assert (Hn : (0 < n)%Z).
    { subst n. destruct x as [[| p | p] den]; cbn; try lia. exfalso. apply Hx. reflexivity. }
    assert (Hd : (0 < d)%Z) by (subst d; lia).
    pose proof (Z.log2_spec n Hn) as [Hnlo _].
    pose proof (Z.log2_spec d Hd) as [_ Hdhi].
    pose proof (Z.log2_nonneg n) as Hln. pose proof (Z.log2_nonneg d) as Hld.
    replace (Z.log2 n - Z.log2 d - 1)%Z with (Z.log2 n + - (Z.succ (Z.log2 d)))%Z by lia.
    rewrite two_power_split, Qpower_opp, !two_power_Z by lia.
    rewrite Qabs_fraction. fold n.
    set (A := (2 ^ Z.log2 n)%Z) in *. set (B := (2 ^ Z.succ (Z.log2 d))%Z) in *.
    assert (HB : (0 < B)%Z) by lia.
    apply Qle_shift_div_r; [rewrite <- (Zlt_Qlt 0); exact HB |].
    unfold Qle. cbn. fold d.
    rewrite !Z.mul_1_r. nia.
Qed.

Lemma exponent_below (x : Q) (e : Z) : ~ x == 0 -> Qabs x < 2 ^ e -> (Js.exponent x < e)%Z.
Proof.
  intros Hx Hlt. apply (Qpower_lt_compat_l_inv 2); [| reflexivity].
  eapply Qle_lt_trans; [apply exponent_le, Hx | exact Hlt].
Qed.

Lemma ulp_pos (x : Q) : 0 < Js.ulp x.
Proof. apply two_power_pos. Qed.

(** Below [2 ^ (53 - t)] the doubles are at most [2 ^ (- t)] apart: a
    multiple of [2 ^ (- t)] is a multiple of the unit in the last place. *)
Lemma ulp_divides (x : Q) (t c : Z) :
  ~ x == 0 -> (0 <= t <= 1074)%Z -> Qabs x < 2 ^ (53 - t) ->
  exists N : Z, inject_Z c * 2 ^ (- t) == inject_Z N * Js.ulp x.
Proof.
  intros Hx Ht Hlt. pose proof (exponent_below x _ Hx Hlt) as He.
  unfold Js.ulp. set (j := (Z.max (Js.exponent x) (-1022) - 52)%Z).
  assert (Hj : (j <= - t)%Z) by (subst j; lia).
  exists (c * 2 ^ (- t - j))%Z.
  rewrite inject_Z_mult, <- two_power_Z by lia.
  rewrite <- Qmult_assoc, <- two_power_split.
  replace (- t - j + j)%Z with (- t)%Z by lia. reflexivity.
Qed.

Lemma floor_unique (x : Q) (k : Z) : inject_Z k <= x -> x < inject_Z (k + 1) -> Qfloor x = k.
Proof.
  intros Hlo Hhi.
  pose proof (Qfloor_le x) as Hle. pose proof (Qlt_floor x) as Hlt.
  assert (H1 : inject_Z k < inject_Z (Qfloor x + 1)) by (eapply Qle_lt_trans; eassumption).
  assert (H2 : inject_Z (Qfloor x) < inject_Z (k + 1)) by (eapply Qle_lt_trans; eassumption).
  rewrite <- Zlt_Qlt in H1, H2. lia.
Qed.

Lemma round_half_even_cases (m : Q) :
  (Js.round_half_even m = Qfloor m /\ m - inject_Z (Qfloor m) <= 1 # 2)
  \/ (Js.round_half_even m = (Qfloor m + 1)%Z /\ 1 # 2 <= m - inject_Z (Qfloor m)).
Proof.
  unfold Js.round_half_even.
  destruct (Qcompare_spec (m - inject_Z (Qfloor m)) (1 # 2)) as [Heq | Hlt | Hgt].
  - destruct (Z.even (Qfloor m)); [left | right]; split; try reflexivity; rewrite Heq; apply Qle_refl.
  - left. split; [reflexivity | now apply Qlt_le_weak].
  - right. split; [reflexivity | now apply Qlt_le_weak].
Qed.

Lemma round_half_even_le (m : Q) (N : Z) : m <= inject_Z N -> (Js.round_half_even m <= N)%Z.
Proof.
  intros Hle. pose proof (Qfloor_le m) as Hfloor.
  destruct (round_half_even_cases m) as [[-> _] | [-> Hhalf]].
  - rewrite Zle_Qle. lra.
  - assert (H : inject_Z (Qfloor m) < inject_Z N) by lra.
    rewrite <- Zlt_Qlt in H. lia.
Qed.

Lemma round_half_even_ge (m : Q) (N : Z) : inject_Z N <= m -> (N <= Js.round_half_even m)%Z.
Proof.
  intros Hle. pose proof (Qlt_floor m) as Hfloor.
  assert (H : inject_Z N < inject_Z (Qfloor m + 1)) by lra.
  rewrite <- Zlt_Qlt in H.
  destruct (round_half_even_cases m) as [[-> _] | [-> _]]; lia.
Qed.

Lemma round_half_even_lt (m : Q) (N : Z) :
  m + (1 # 2) < inject_Z N -> (Js.round_half_even m < N)%Z.
Proof.
  intros Hlt. pose proof (Qfloor_le m) as Hfloor.
  destruct (round_half_even_cases m) as [[-> _] | [-> Hhalf]].
  - rewrite Zlt_Qlt. lra.
  - rewrite Zlt_Qlt, inject_Z_plus. change (inject_Z 1) with 1. lra.
Qed.

Lemma double_zero (x : Q) : x == 0 -> Js.double x = 0.
Proof. intros Hx. unfold Js.double. apply Qeq_bool_iff in Hx. now rewrite Hx. Qed.

Lemma double_nonzero (x : Q) :
  ~ x == 0 -> Js.double x == inject_Z (Js.round_half_even (x / Js.ulp x)) * Js.ulp x.
Proof.
  intros Hx. unfold Js.double.
  destruct (Qeq_bool x 0) eqn:Hzero; [apply Qeq_bool_iff in Hzero; contradiction |].
  apply Qred_correct.
Qed.

(** Rounding to a double does not cross a multiple of the unit in the last
    place. *)
Lemma double_le (x : Q) (N : Z) :
  ~ x == 0 -> x <= inject_Z N * Js.ulp x -> Js.double x <= inject_Z N * Js.ulp x.
Proof.
  intros Hx Hle. rewrite (double_nonzero x Hx).
  pose proof (ulp_pos x) as Hu.
  apply Qmult_le_compat_r; [| now apply Qlt_le_weak].
  rewrite <- Zle_Qle. apply round_half_even_le.
  apply Qle_shift_div_r; assumption.
Qed.

Lemma double_ge (x : Q) (N : Z) :
  ~ x == 0 -> inject_Z N * Js.ulp x <= x -> inject_Z N * Js.ulp x <= Js.double x.
Proof.
  intros Hx Hle. rewrite (double_nonzero x Hx).
  pose proof (ulp_pos x) as Hu.
  apply Qmult_le_compat_r; [| now apply Qlt_le_weak].
  rewrite <- Zle_Qle. apply round_half_even_ge.
  apply Qle_shift_div_l; assumption.
Qed.

Lemma double_lt (x : Q) (N : Z) :
  ~ x == 0 -> x + Js.ulp x * (1 # 2) < inject_Z N * Js.ulp x ->
  Js.double x < inject_Z N * Js.ulp x.
Proof.
  intros Hx Hlt. rewrite (double_nonzero x Hx).
  pose proof (ulp_pos x) as Hu.
  apply Qmult_lt_compat_r; [assumption |].
  rewrite <- Zlt_Qlt. apply round_half_even_lt.
  apply Qlt_shift_div_r in Hlt; [| assumption].
  setoid_replace (x / Js.ulp x + (1 # 2)) with ((x + Js.ulp x * (1 # 2)) / Js.ulp x); [assumption |].
  field. intros H0. rewrite H0 in Hu. discriminate.
Qed.

Lemma Qeq_dec_zero (x : Q) : x == 0 \/ ~ x == 0.
Proof. destruct (Qeq_dec x 0); [now left | now right]. Qed.

(** A number below [2 ^ 53] in magnitude is not rounded across an integer. *)
Lemma double_integer_le (x : Q) (c : Z) :
  Qabs x < 2 ^ 53 -> x <= inject_Z c -> Js.double x <= inject_Z c.
Proof.
  intros Hsmall Hle. destruct (Qeq_dec_zero x) as [Hx | Hx].
  - rewrite (double_zero x Hx). now rewrite <- Hx.
  - destruct (ulp_divides x 0 c Hx ltac:(lia) Hsmall) as [N HN].
    change (2 ^ (- 0)) with 1 in HN. rewrite Qmult_1_r in HN.
    rewrite HN in Hle |- *. now apply double_le.
Qed.

Lemma double_integer_ge (x : Q) (c : Z) :
  Qabs x < 2 ^ 53 -> inject_Z c <= x -> inject_Z c <= Js.double x.
Proof.
  intros Hsmall Hle. destruct (Qeq_dec_zero x) as [Hx | Hx].
  - rewrite (double_zero x Hx). now rewrite <- Hx.
  - destruct (ulp_divides x 0 c Hx ltac:(lia) Hsmall) as [N HN].
    change (2 ^ (- 0)) with 1 in HN. rewrite Qmult_1_r in HN.
    rewrite HN in Hle |- *. now apply double_ge.
Qed.

Lemma Qabs_small (x : Q) (z bound : Z) :
  x == inject_Z z -> (Z.abs z < bound)%Z -> Qabs x < inject_Z bound.
Proof.
  intros Hx Hz. rewrite Hx. apply Qabs_Qlt_condition.
  rewrite <- inject_Z_opp, <- !Zlt_Qlt. lia.
Qed.

(** An integer below [2 ^ 53] in magnitude is a double. *)
Lemma double_integer (x : Q) (z : Z) :
  x == inject_Z z -> (Z.abs z < 2 ^ 53)%Z -> Js.double x == inject_Z z.
Proof.
  intros Hx Hz.
  assert (Hsmall : Qabs x < 2 ^ 53) by (rewrite two_power_Z by lia; now apply (Qabs_small x z)).
  apply Qle_antisym.
  - apply double_integer_le; [assumption | rewrite Hx; apply Qle_refl].
  - apply double_integer_ge; [assumption | rewrite Hx; apply Qle_refl].
Qed.

(** The unit in the last place of a quotient [s / n] of integers, times [n],
    is below 1 as long as [s] is below [2 ^ 52] and [n] below [2 ^ 53]. *)
Lemma ulp_of_quotient (x : Q) (s n : Z) :
  ~ x == 0 -> x * inject_Z n == inject_Z s ->
  (Z.abs s < 2 ^ 52)%Z -> (1 <= n < 2 ^ 53)%Z ->
  Js.ulp x * inject_Z n < 1.
Proof.
  intros Hx Hxn Hs Hn.
  assert (Hn0 : 0 < inject_Z n) by (rewrite <- (Zlt_Qlt 0); lia).
  unfold Js.ulp.
  destruct (Z.max_spec (Js.exponent x) (-1022)) as [[_ ->] | [Hnormal ->]].
  - apply Qlt_trans with (2 ^ (-1022 - 52) * inject_Z (2 ^ 53)); [| reflexivity].
    apply Qmult_lt_l; [apply two_power_pos |]. rewrite <- Zlt_Qlt. lia.
  - replace (Js.exponent x - 52)%Z with (Js.exponent x + - 52)%Z by lia.
    rewrite two_power_split.
    pose proof (exponent_le x Hx) as Hle.
    assert (Habs : Qabs x * inject_Z n == inject_Z (Z.abs s)).
    { rewrite <- (Qabs_pos (inject_Z n)) by now apply Qlt_le_weak.
      rewrite <- Qabs_Qmult, Hxn. destruct s; reflexivity. }
    assert (Hs' : inject_Z (Z.abs s) < inject_Z (2 ^ 52)) by now rewrite <- Zlt_Qlt.
    assert (Hstep : 2 ^ Js.exponent x * inject_Z n <= Qabs x * inject_Z n).
    { apply Qmult_le_compat_r; [assumption | now apply Qlt_le_weak]. }
    setoid_replace (2 ^ Js.exponent x * 2 ^ (- 52) * inject_Z n)
      with (2 ^ Js.exponent x * inject_Z n * 2 ^ (- 52)) by ring.
    apply Qle_lt_trans with (inject_Z (Z.abs s) * 2 ^ (- 52)).
    + apply Qmult_le_compat_r; [rewrite <- Habs; assumption | discriminate].
    + apply Qlt_le_trans with (inject_Z (2 ^ 52) * 2 ^ (- 52)); [| discriminate].
      apply Qmult_lt_compat_r; [reflexivity | assumption].
Qed.

(** [Math.round] of the double nearest to a quotient of integers is
    [Math.round] of the quotient itself, as long as the dividend is below
    [2 ^ 52] in magnitude: the rounding of the division does not reach the
    next half-integer. *)
Lemma Math_round_of_quotient (sum : Q) (s n : Z) :
  sum == inject_Z s -> (Z.abs s < 2 ^ 52)%Z -> (1 <= n < 2 ^ 53)%Z ->
  Js.Math_round (Js.div sum (inject_Z n)) = Js.Math_round (inject_Z s / inject_Z n).
Proof.
  intros Hsum Hs Hn.
  assert (Hn0 : 0 < inject_Z n) by (rewrite <- (Zlt_Qlt 0); lia).
  assert (Hn1 : 1 <= inject_Z n) by (rewrite <- (Zle_Qle 1); lia).
  assert (Hnz : ~ inject_Z n == 0) by (intros H; rewrite H in Hn0; discriminate).
  unfold Js.div, Js.Math_round.
  set (x := sum / inject_Z n).
  assert (Hq : inject_Z s / inject_Z n == x) by (subst x; now rewrite Hsum).
  rewrite Hq.
  assert (Hxn : x * inject_Z n == inject_Z s) by (rewrite <- Hq; field; assumption).
  destruct (Qeq_dec_zero x) as [Hx | Hx]; [now rewrite (double_zero x Hx), Hx |].
  set (k := Qfloor (x + (1 # 2))).
  pose proof (Qfloor_le (x + (1 # 2))) as Hlo. pose proof (Qlt_floor (x + (1 # 2))) as Hhi.
  fold k in Hlo, Hhi. rewrite inject_Z_plus in Hhi. change (inject_Z 1) with 1 in Hhi.
  assert (Hsmall : Qabs x < 2 ^ (53 - 1)).
  { change (2 ^ (53 - 1)) with (inject_Z (2 ^ 52)).
    apply Qle_lt_trans with (inject_Z (Z.abs s)); [| now rewrite <- Zlt_Qlt].
    assert (Habs : Qabs x * inject_Z n == inject_Z (Z.abs s)).
    { rewrite <- (Qabs_pos (inject_Z n)) by now apply Qlt_le_weak.
      rewrite <- Qabs_Qmult, Hxn. destruct s; reflexivity. }
    rewrite <- Habs. pose proof (Qabs_nonneg x) as Hnonneg.
    set (a := Qabs x) in *. clearbody a. nra. }
  destruct (ulp_divides x 1 (2 * k - 1) Hx ltac:(lia) Hsmall) as [N1 HN1].
  destruct (ulp_divides x 1 (2 * k + 1) Hx ltac:(lia) Hsmall) as [N2 HN2].
  assert (Hlow : inject_Z (2 * k - 1) * 2 ^ (- (1)) == inject_Z k - (1 # 2)).
  { unfold Z.sub. rewrite inject_Z_plus, inject_Z_mult. change (2 ^ (- (1))) with (1 # 2).
    change (inject_Z (- (1))) with (- (1)). change (inject_Z 2) with 2. ring. }
  assert (Hhigh : inject_Z (2 * k + 1) * 2 ^ (- (1)) == inject_Z k + (1 # 2)).
  { rewrite inject_Z_plus, inject_Z_mult. change (2 ^ (- (1))) with (1 # 2).
    change (inject_Z 1) with 1. change (inject_Z 2) with 2. ring. }
  rewrite Hlow in HN1. rewrite Hhigh in HN2.
  pose proof (ulp_of_quotient x s n Hx Hxn Hs Hn) as Hulp.
  pose proof (ulp_pos x) as Hu.
  assert (Hge : inject_Z k - (1 # 2) <= Js.double x).
  { rewrite HN1. apply double_ge; [assumption |]. rewrite <- HN1. lra. }
  assert (Hlt : Js.double x < inject_Z k + (1 # 2)).
  { rewrite HN2. apply double_lt; [assumption |]. rewrite <- HN2.
    assert (Hint : (2 * s + 1 <= (2 * k + 1) * n)%Z).
    { assert (H : inject_Z (2 * s) < inject_Z ((2 * k + 1) * n)).
      { rewrite !inject_Z_mult, inject_Z_plus, inject_Z_mult, <- Hxn.
        change (inject_Z 2) with 2. change (inject_Z 1) with 1. nra. }
      rewrite <- Zlt_Qlt in H. lia. }
    rewrite Zle_Qle in Hint.
    rewrite inject_Z_plus, !inject_Z_mult, inject_Z_plus, inject_Z_mult, <- Hxn in Hint.
    change (inject_Z 2) with 2 in Hint. change (inject_Z 1) with 1 in Hint.
    set (u := Js.ulp x) in *. clearbody u.
    set (n' := inject_Z n) in *. clearbody n'. set (k' := inject_Z k) in *. clearbody k'.
    nra. }
  apply floor_unique.
  - fold k. lra.
  - fold k. rewrite inject_Z_plus. change (inject_Z 1) with 1. lra.
Qed.

End NumberFacts.

(** ** The store *)

(** C10.  [updateMediaStatus] on an existing job returns and stores the job
    with the new status and with its id, filename, filesize, filetype, userId
    and uploadedAt as before; the keys of the jobs and every other job, the
    users, the models, the results and the four counters are unchanged.  On
    an id that has no job it returns [undefined] and the store is the same. *)
Theorem updateMediaStatus_frame :
  forall (id : Z) (status : string) (st : MemStorage),
    match getMediaUpload id st with
    | Some job =>
        let (returned, st') := updateMediaStatus id status st in
        returned = Some (MediaUpload.with_status job status)
        /\ getMediaUpload id st' = Some (MediaUpload.with_status job status)
        /\ (forall job', getMediaUpload id st' = Some job' ->
              MediaUpload.status job' = status
              /\ MediaUpload.id job' = MediaUpload.id job
              /\ MediaUpload.filename job' = MediaUpload.filename job
              /\ MediaUpload.filesize job' = MediaUpload.filesize job
              /\ MediaUpload.filetype job' = MediaUpload.filetype job
              /\ MediaUpload.userId job' = MediaUpload.userId job
              /\ MediaUpload.uploadedAt job' = MediaUpload.uploadedAt job)
        /\ (forall other, other <> id -> getMediaUpload other st' = getMediaUpload other st)
        /\ Js.keys (mediaUploads st') = Js.keys (mediaUploads st)
        /\ users st' = users st
        /\ detectionModels st' = detectionModels st
        /\ analysisResults st' = analysisResults st
        /\ currentUserId st' = currentUserId st
        /\ currentMediaId st' = currentMediaId st
        /\ currentModelId st' = currentModelId st
        /\ currentAnalysisId st' = currentAnalysisId st
    | None => updateMediaStatus id status st = (None, st)
    end.
Proof.
  intros id status st. unfold updateMediaStatus.
  destruct (getMediaUpload id st) as [job |] eqn:Hjob; [| reflexivity].
  unfold getMediaUpload in *. cbn [set_mediaUploads mediaUploads users detectionModels
    analysisResults currentUserId currentMediaId currentModelId currentAnalysisId].
  repeat split; try reflexivity.
  - apply get_set_same.
  - rewrite get_set_same in H. now inversion H.
  - rewrite get_set_same in H. now inversion H.
  - rewrite get_set_same in H. now inversion H.
  - rewrite get_set_same in H. now inversion H.
  - rewrite get_set_same in H. now inversion H.
  - rewrite get_set_same in H. now inversion H.
  - rewrite get_set_same in H. now inversion H.
  - intros other Hne. now apply get_set_other.
  - eapply set_present_keys; eassumption.
Qed.

(** ** The aggregator *)

Lemma getCompleteAnalysis_none_iff (mediaId : Z) (st : MemStorage) :
  getCompleteAnalysis mediaId st = None <->
  getMediaUpload mediaId st = None \/ getAnalysisResultsByMediaId mediaId st = [].
Proof.
  unfold getCompleteAnalysis.
  destruct (getMediaUpload mediaId st) as [job |].
  - destruct (getAnalysisResultsByMediaId mediaId st) as [| first rest].
    + split; [intros _; now right | reflexivity].
    + split; [discriminate | intros [H | H]; discriminate].
  - split; [intros _; now left | reflexivity].
Qed.

Lemma sumOfMagnitudes_bounds (results : list AnalysisResult.t) :
  Z.abs (fold_right Z.add 0 (map AnalysisResult.confidenceScore results))
  <= sumOfMagnitudes results.
Proof.
  unfold sumOfMagnitudes. induction results as [| r rest IH]; cbn [map fold_right]; lia.
Qed.

Lemma sumOfMagnitudes_le (bound : Z) (results : list AnalysisResult.t) :
  Forall (fun result => Z.abs (AnalysisResult.confidenceScore result) <= bound) results ->
  sumOfMagnitudes results <= bound * Z.of_nat (length results).
Proof.
  unfold sumOfMagnitudes.
  induction 1 as [| r rest Hr Hrest IH]; cbn [map fold_right length]; [lia |].
  rewrite Nat2Z.inj_succ. lia.
Qed.

(** Scores from 0 to 100, fewer than [2 ^ 32] of them, are within the
    range. *)
Lemma percentages_within_doubles (results : list AnalysisResult.t) :
  Forall (fun result => 0 <= AnalysisResult.confidenceScore result <= 100) results ->
  Z.of_nat (length results) < 2 ^ 32 ->
  scoresWithinDoubles results.
Proof.
  intros Hscores Hlength. split; [| assumption].
  apply Z.le_lt_trans with (100 * Z.of_nat (length results)); [| lia].
  apply sumOfMagnitudes_le. revert Hscores. apply Forall_impl. intros result. lia.
Qed.

(** The sum of the scores is exact as long as the magnitudes add up to less
    than [2 ^ 53]. *)
Lemma sumConfidence_from (results : list AnalysisResult.t) (start : Q) (p : Z) :
  (start == inject_Z p)%Q ->
  Z.abs p + sumOfMagnitudes results < 2 ^ 53 ->
  (fold_left (fun sum result => Js.add sum (inject_Z (AnalysisResult.confidenceScore result)))
             results start
   == inject_Z (p + fold_right Z.add 0%Z (map AnalysisResult.confidenceScore results)))%Q.
Proof.
  revert start p. unfold sumOfMagnitudes.
  induction results as [| r rest IH]; intros start p Hstart Hsmall; cbn [map fold_right fold_left] in *.
  - now rewrite Z.add_0_r.
  - set (tail := fold_right Z.add 0
                   (map (fun result => Z.abs (AnalysisResult.confidenceScore result)) rest)) in *.
    assert (Htail : 0 <= tail).
    { subst tail. clear. induction rest as [| r' rest' IH']; cbn [map fold_right]; lia. }
    rewrite (IH _ (p + AnalysisResult.confidenceScore r)).
    + now rewrite Z.add_assoc.
    + unfold Js.add. apply double_integer; [| lia].
      now rewrite Hstart, inject_Z_plus.
    + fold tail. lia.
Qed.

Lemma sumConfidence_total (results : list AnalysisResult.t) :
  sumOfMagnitudes results < 2 ^ 53 ->
  (sumConfidence results
   == inject_Z (fold_right Z.add 0%Z (map AnalysisResult.confidenceScore results)))%Q.
Proof.
  intros Hsmall. unfold sumConfidence.
  now rewrite (sumConfidence_from results 0%Q 0) by (reflexivity || (cbn; lia)).
Qed.

(** Within [scoresWithinDoubles] the overall confidence is [Math.round] of
    the exact mean. *)
Lemma overallConfidence_exact (results : list AnalysisResult.t) :
  results <> [] ->
  scoresWithinDoubles results ->
  Js.Math_round (Js.div (sumConfidence results) (inject_Z (Z.of_nat (length results))))
  = Js.Math_round (meanConfidence results).
Proof.
  intros Hsome [Hsum Hlength].
  pose proof (sumOfMagnitudes_bounds results) as Hbound.
  apply Math_round_of_quotient.
  - apply sumConfidence_total. lia.
  - lia.
  - destruct results; [contradiction | cbn [length] in *; lia].
Qed.

Lemma Math_round_half_up (x : Q) : roundsHalfUp x (Js.Math_round x).
Proof.
  unfold roundsHalfUp, Js.Math_round.
  pose proof (Qfloor_le (x + (1 # 2))) as Hle.
  pose proof (Qlt_floor (x + (1 # 2))) as Hlt.
  rewrite inject_Z_plus in Hlt.
  change (inject_Z 1) with 1%Q in Hlt.
  split; lra.
Qed.

(** [roundsHalfUp] determines the integer. *)
Lemma roundsHalfUp_unique (x : Q) (c1 c2 : Z) :
  roundsHalfUp x c1 -> roundsHalfUp x c2 -> c1 = c2.
Proof.
  unfold roundsHalfUp. intros [Hlo1 Hhi1] [Hlo2 Hhi2].
  assert (H12 : (inject_Z c1 < inject_Z (c2 + 1))%Q) by (rewrite inject_Z_plus; change (inject_Z 1) with 1%Q; lra).
  assert (H21 : (inject_Z c2 < inject_Z (c1 + 1))%Q) by (rewrite inject_Z_plus; change (inject_Z 1) with 1%Q; lra).
  rewrite <- Zlt_Qlt in H12, H21. lia.
Qed.

(** The report of a job is built from the list of its results. *)
Lemma getCompleteAnalysis_some (mediaId : Z) (st : MemStorage) (report : AnalysisResponse.t) :
  getCompleteAnalysis mediaId st = Some report ->
  exists job first rest,
    getMediaUpload mediaId st = Some job
    /\ getAnalysisResultsByMediaId mediaId st = first :: rest
    /\ AnalysisResponse.overallConfidence report
       = Js.Math_round (Js.div (sumConfidence (first :: rest))
                               (inject_Z (Z.of_nat (length (first :: rest)))))
    /\ AnalysisResponse.isDeepfake report = (60 <? AnalysisResponse.overallConfidence report)
    /\ AnalysisResponse.detectionTime report = AnalysisResult.analyzedAt first
    /\ AnalysisResponse.manipulationTypes report = collectManipulationTypes (first :: rest)
    /\ AnalysisResponse.technicalAnalysis report
       = Js.or_else (ResultDetails.technicalAnalysis (AnalysisResult.resultDetails first))
                    defaultTechnicalAnalysis
    /\ FileInfo.duration (AnalysisResponse.fileInfo report)
       = metadataField first Metadata.duration
    /\ FileInfo.resolution (AnalysisResponse.fileInfo report)
       = metadataField first Metadata.resolution.
Proof.
  unfold getCompleteAnalysis.
  destruct (getMediaUpload mediaId st) as [job |]; [| discriminate].
  destruct (getAnalysisResultsByMediaId mediaId st) as [| first rest]; [discriminate |].
  intros H. inversion H; subst report; clear H. cbn.
  exists job, first, rest. repeat split; reflexivity.
Qed.

(** A job that exists and has a stored result has a report. *)
Lemma report_exists (mediaId : Z) (st : MemStorage) (job : MediaUpload.t) :
  getMediaUpload mediaId st = Some job ->
  getAnalysisResultsByMediaId mediaId st <> [] ->
  exists report, getCompleteAnalysis mediaId st = Some report.
Proof.
  intros Hjob Hresults.
  destruct (getCompleteAnalysis mediaId st) as [report |] eqn:Hreport.
  - now exists report.
  - apply getCompleteAnalysis_none_iff in Hreport as [H | H]; congruence.
Qed.

(** C6.  [getCompleteAnalysis] returns [undefined] exactly when the job does
    not exist or has no stored result; with a job and at least one stored
    result it returns a report. *)
Theorem getCompleteAnalysis_not_found :
  forall (mediaId : Z) (st : MemStorage),
    (getCompleteAnalysis mediaId st = None <->
       getMediaUpload mediaId st = None \/ getAnalysisResultsByMediaId mediaId st = [])
    /\ ((exists job, getMediaUpload mediaId st = Some job)
        /\ getAnalysisResultsByMediaId mediaId st <> [] <->
        exists report, getCompleteAnalysis mediaId st = Some report).
Proof.
  intros mediaId st. split; [apply getCompleteAnalysis_none_iff |]. split.
  - intros [[job Hjob] Hresults]. now apply (report_exists mediaId st job).
  - intros [report Hreport].
    destruct (getCompleteAnalysis_some _ _ _ Hreport)
      as (job & first & rest & Hjob & Hresults & _).
    split; [now exists job | rewrite Hresults; discriminate].
Qed.

(** C3.  For a job with at least one stored result there is a report.  As
    long as the scores are within what the numbers of the language add and
    divide exactly ([scoresWithinDoubles]: magnitudes adding up to less than
    [2 ^ 52], fewer than [2 ^ 32] results; every list of scores from 0 to 100
    is), its [overallConfidence] is the arithmetic mean of the confidence
    scores of the results of the job, rounded to the nearest integer with a
    half rounded up; [isDeepfake] holds exactly when [overallConfidence] is
    above 60; with the two scores 92 and 86 the report has
    [overallConfidence = 89] and [isDeepfake = true]. *)
Theorem overallConfidence_is_rounded_mean :
  forall (mediaId : Z) (st : MemStorage) (job : MediaUpload.t),
    getMediaUpload mediaId st = Some job ->
    getAnalysisResultsByMediaId mediaId st <> [] ->
    let results := getAnalysisResultsByMediaId mediaId st in
    exists report,
      getCompleteAnalysis mediaId st = Some report
      /\ (scoresWithinDoubles results ->
          roundsHalfUp (meanConfidence results) (AnalysisResponse.overallConfidence report))
      /\ (AnalysisResponse.isDeepfake report = true <->
          AnalysisResponse.overallConfidence report > 60)
      /\ (map AnalysisResult.confidenceScore results = [92; 86] ->
          AnalysisResponse.overallConfidence report = 89
          /\ AnalysisResponse.isDeepfake report = true).
Proof.
  intros mediaId st job Hjob Hsome results.
  destruct (report_exists _ _ _ Hjob Hsome) as [report Hreport].
  exists report. split; [exact Hreport |].
  destruct (getCompleteAnalysis_some _ _ _ Hreport)
    as (job' & first & rest & _ & Hresults & Hconf & Hdeep & _).
  fold results in Hresults. rewrite <- Hresults in Hconf.
  split; [| split].
  - intros Hwithin. rewrite Hconf, (overallConfidence_exact results Hsome Hwithin).
    apply Math_round_half_up.
  - rewrite Hdeep. rewrite Z.ltb_lt. lia.
  - intros Hscores.
    assert (Hlen : length results = 2%nat).
    { rewrite <- (length_map AnalysisResult.confidenceScore), Hscores. reflexivity. }
    assert (Hwithin : scoresWithinDoubles results).
    { unfold scoresWithinDoubles, sumOfMagnitudes.
      rewrite <- (map_map AnalysisResult.confidenceScore Z.abs), Hscores, Hlen.
      split; reflexivity. }
    rewrite (overallConfidence_exact results Hsome Hwithin) in Hconf.
    unfold meanConfidence in Hconf. rewrite Hscores, Hlen in Hconf.
    assert (H89 : AnalysisResponse.overallConfidence report = 89).
    { rewrite Hconf. reflexivity. }
    split; [exact H89 |]. rewrite Hdeep, H89. reflexivity.
Qed.

(** Past that range the division of the language rounds visibly.  The
    scores 5629499534213118, 1, 1, 1, 1 add up to 5629499534213122; a fifth
    of it, 1125899906842624.4, lies between two doubles that are a quarter
    apart and becomes 1125899906842624.5, which [Math.round] takes to
    1125899906842625, where the mean rounds to 1125899906842624. *)
Lemma overallConfidence_past_the_doubles :
  let results :=
    map (fun score => AnalysisResult.mk 1 1 1 score (ResultDetails.mk None None None None None) 0)
        [5629499534213118; 1; 1; 1; 1] in
  Js.Math_round (Js.div (sumConfidence results) (inject_Z (Z.of_nat (length results))))
  = 1125899906842625
  /\ Js.Math_round (meanConfidence results) = 1125899906842624
  /\ ~ scoresWithinDoubles results.
Proof.
  split; [vm_compute; reflexivity | split; [vm_compute; reflexivity |]].
  intros [Hsum _]. vm_compute in Hsum. discriminate.
Qed.

(** ** The selection of models *)

Lemma Array_includes_ids (ids : list Z) (id : Z) :
  Js.Array_includes (map Js.of_Z ids) id = true <-> In id ids.
Proof.
  unfold Js.Array_includes. rewrite existsb_exists. split.
  - intros (v & Hin & Hsame). apply in_map_iff in Hin as (z & <- & Hz).
    unfold Js.same_number, Js.of_Z in Hsame.
    apply Qeq_bool_iff in Hsame. unfold Qeq in Hsame. cbn in Hsame.
    assert (z = id) by lia. now subst.
  - intros Hin. exists (Js.of_Z id). split; [now apply in_map |].
    unfold Js.same_number, Js.of_Z. apply Qeq_bool_iff. reflexivity.
Qed.

Lemma compatible_matches (isVideo : bool) (model : DetectionModel.t) :
  compatible isVideo model = true <->
  mediaCompatMatches isVideo (DetectionModel.type model).
Proof.
  unfold compatible, mediaCompatMatches.
  rewrite orb_true_iff, String.eqb_eq.
  destruct isVideo; rewrite String.eqb_eq; split.
  - intros [H | H]; [now left | right; left; now split].
  - intros [H | [[_ H] | [H _]]]; [now left | now right | discriminate].
  - intros [H | H]; [now left | right; right; now split].
  - intros [H | [[H _] | [_ H]]]; [now left | discriminate | now right].
Qed.

(** C7.  With a non-empty list of explicit model ids, the models used for a
    job are exactly the models of the registry whose id is in the list and
    whose type is compatible with the media type of the job, whatever their
    [isActive] flag; with no explicit ids they are exactly the models of the
    registry that are active and compatible. *)
Theorem modelsToUse_selection :
  forall (availableModels : list DetectionModel.t) (job : MediaUpload.t)
         (ids : list Z) (model : DetectionModel.t),
    (ids <> [] ->
     (In model (modelsToUse availableModels (map Js.of_Z ids) (jobIsVideo job)) <->
      In model availableModels
      /\ In (DetectionModel.id model) ids
      /\ mediaCompatMatches (jobIsVideo job) (DetectionModel.type model)))
    /\ (In model (modelsToUse availableModels [] (jobIsVideo job)) <->
        In model availableModels
        /\ DetectionModel.isActive model = true
        /\ mediaCompatMatches (jobIsVideo job) (DetectionModel.type model)).
Proof.
  intros availableModels job ids model. split.
  - intros Hne. unfold modelsToUse.
    destruct ids as [| id0 ids']; [congruence |].
    cbn [map length]. replace (0 <? Z.of_nat (S (length (map Js.of_Z ids')))) with true
      by (symmetry; apply Z.ltb_lt; lia).
    rewrite filter_In, andb_true_iff.
    change (Js.of_Z id0 :: map Js.of_Z ids') with (map Js.of_Z (id0 :: ids')).
    rewrite Array_includes_ids, compatible_matches. tauto.
  - unfold modelsToUse. cbn [length Z.of_nat Z.ltb Z.compare].
    rewrite filter_In, andb_true_iff, compatible_matches. tauto.
Qed.

(** ** The results in the store *)

Lemma constructor_fresh_result_ids : fresh_result_ids newMemStorage.
Proof. intros k H. contradiction H. Qed.

Lemma updateMediaStatus_some (id : Z) (status : string) (st : MemStorage) (job : MediaUpload.t) :
  getMediaUpload id st = Some job ->
  updateMediaStatus id status st
  = (Some (MediaUpload.with_status job status),
     set_mediaUploads st (Js.set id (MediaUpload.with_status job status) (mediaUploads st))
                      (currentMediaId st)).
Proof. unfold updateMediaStatus. now intros ->. Qed.

Lemma updateMediaStatus_results (id : Z) (status : string) (st : MemStorage) :
  analysisResults (snd (updateMediaStatus id status st)) = analysisResults st
  /\ currentAnalysisId (snd (updateMediaStatus id status st)) = currentAnalysisId st
  /\ detectionModels (snd (updateMediaStatus id status st)) = detectionModels st.
Proof.
  unfold updateMediaStatus. destruct (getMediaUpload id st); cbn; auto.
Qed.

Lemma updateMediaStatus_status (id : Z) (status : string) (st : MemStorage) (job : MediaUpload.t) :
  getMediaUpload id st = Some job ->
  statusOf id (snd (updateMediaStatus id status st)) = Some status.
Proof.
  intros Hjob. rewrite (updateMediaStatus_some _ _ _ _ Hjob).
  unfold statusOf, getMediaUpload. cbn. now rewrite get_set_same.
Qed.

Lemma filter_app_one {A} (f : A -> bool) (xs : list A) (x : A) :
  filter f (xs ++ [x])%list = (filter f xs ++ (if f x then [x] else []))%list.
Proof. rewrite filter_app. reflexivity. Qed.

Section CreateAnalysisResult.

Variables (now : Z) (result : InsertAnalysisResult.t) (st : MemStorage).
Hypothesis Hfresh : fresh_result_ids st.

Let stored := fst (createAnalysisResult now result st).
Let st' := snd (createAnalysisResult now result st).

Lemma next_result_id_unused : Js.get (currentAnalysisId st) (analysisResults st) = None.
Proof.
  apply get_none_not_key. intros Hin. apply Hfresh in Hin. lia.
Qed.

Lemma createAnalysisResult_store :
  analysisResults st' = (analysisResults st ++ [(currentAnalysisId st, stored)])%list
  /\ currentAnalysisId st' = currentAnalysisId st + 1
  /\ mediaUploads st' = mediaUploads st
  /\ detectionModels st' = detectionModels st.
Proof.
  subst stored st'. unfold createAnalysisResult. cbn.
  rewrite (set_absent _ _ _ next_result_id_unused). auto.
Qed.

Lemma createAnalysisResult_fresh : fresh_result_ids st'.
Proof.
  destruct createAnalysisResult_store as (Hres & Hnext & _).
  intros k. rewrite Hres, Hnext. unfold Js.keys. rewrite map_app, in_app_iff. cbn.
  intros [Hin | [<- | []]]; [apply Hfresh in Hin |]; lia.
Qed.

Lemma createAnalysisResult_results (mediaId : Z) :
  getAnalysisResultsByMediaId mediaId st'
  = (getAnalysisResultsByMediaId mediaId st
     ++ (if InsertAnalysisResult.mediaId result =? mediaId then [stored] else []))%list.
Proof.
  destruct createAnalysisResult_store as (Hres & _).
  unfold getAnalysisResultsByMediaId, Js.values. rewrite Hres, map_app. cbn [map snd].
  rewrite filter_app_one. reflexivity.
Qed.

Lemma createAnalysisResult_keeps (id : Z) (a : AnalysisResult.t) :
  getAnalysisById id st = Some a -> getAnalysisById id st' = Some a.
Proof.
  unfold getAnalysisById. intros Hget. subst st'. unfold createAnalysisResult. cbn.
  rewrite get_set_other; [assumption |].
  intros ->. rewrite next_result_id_unused in Hget. discriminate.
Qed.

End CreateAnalysisResult.

(** C8, as the store behaves.  [createAnalysisResult] never rejects: in a
    store whose result ids are below the counter, every call stores the given
    result, field by field and with the time of the call, under an id that
    was unused, after the results the job already has and without touching
    the results of the other jobs, also when the job already has a result of
    the same model.  A result that is stored stays as it is: later calls of
    [createAnalysisResult] keep it, and no other writing method touches the
    results. *)
Theorem createAnalysisResult_always_stores :
  forall (now : Z) (result : InsertAnalysisResult.t) (st : MemStorage),
    fresh_result_ids st ->
    let stored := fst (createAnalysisResult now result st) in
    let st' := snd (createAnalysisResult now result st) in
    stored = AnalysisResult.mk (currentAnalysisId st)
                               (InsertAnalysisResult.mediaId result)
                               (InsertAnalysisResult.modelId result)
                               (InsertAnalysisResult.confidenceScore result)
                               (InsertAnalysisResult.resultDetails result)
                               now
    /\ getAnalysisById (AnalysisResult.id stored) st = None
    /\ getAnalysisById (AnalysisResult.id stored) st' = Some stored
    /\ getAnalysisResultsByMediaId (InsertAnalysisResult.mediaId result) st'
       = (getAnalysisResultsByMediaId (InsertAnalysisResult.mediaId result) st ++ [stored])%list
    /\ (forall other, other <> InsertAnalysisResult.mediaId result ->
          getAnalysisResultsByMediaId other st' = getAnalysisResultsByMediaId other st)
    /\ fresh_result_ids st'
    /\ (forall id a, getAnalysisById id st = Some a -> getAnalysisById id st' = Some a)
    /\ (forall id status, analysisResults (snd (updateMediaStatus id status st)) = analysisResults st)
    /\ (forall time upload, analysisResults (snd (createMediaUpload time upload st)) = analysisResults st)
    /\ (forall model, analysisResults (snd (createDetectionModel model st)) = analysisResults st)
    /\ (forall insertUser, analysisResults (snd (createUser insertUser st)) = analysisResults st).
Proof.
  intros now result st Hfresh stored st'.
  repeat match goal with |- _ /\ _ => split end.
  - reflexivity.
  - apply (next_result_id_unused st Hfresh).
  - unfold getAnalysisById. subst stored st'. cbn. apply get_set_same.
  - subst stored st'. rewrite (createAnalysisResult_results now result st Hfresh).
    now rewrite Z.eqb_refl.
  - intros other Hother. subst st'.
    rewrite (createAnalysisResult_results now result st Hfresh).
    destruct (Z.eqb_spec (InsertAnalysisResult.mediaId result) other) as [Heq | _];
      [congruence | apply app_nil_r].
  - apply (createAnalysisResult_fresh now result st Hfresh).
  - apply (createAnalysisResult_keeps now result st Hfresh).
  - intros id status. apply updateMediaStatus_results.
  - reflexivity.
  - reflexivity.
  - reflexivity.
Qed.

Lemma createAnalysisResult_always_stores_witness :
  let st1 := snd (createAnalysisResult 2000 (resultOfModel 1 92 "H.264") storeWithJob) in
  let st2 := snd (createAnalysisResult 3000 (resultOfModel 1 40 "HEVC") st1) in
  fresh_result_ids st1
  /\ map (fun r => (AnalysisResult.id r, AnalysisResult.modelId r,
                    AnalysisResult.confidenceScore r, AnalysisResult.analyzedAt r))
         (getAnalysisResultsByMediaId 1 st2)
     = [(1, 1, 92, 2000); (2, 1, 40, 3000)].
Proof.
  intros st1 st2.
  assert (Hfresh : fresh_result_ids st1).
  { intros k H. cbn in H. destruct H as [<- | []]. reflexivity. }
  split; [exact Hfresh |].
  pose proof (createAnalysisResult_always_stores 3000 (resultOfModel 1 40 "HEVC") st1 Hfresh)
    as H.
  cbv zeta in H. destruct H as (Hstored & _ & _ & Hresults & _).
  change (InsertAnalysisResult.mediaId (resultOfModel 1 40 "HEVC")) with 1 in Hresults.
  subst st2. rewrite Hresults, Hstored. reflexivity.
Defined.

(** C8 as stated fails: a second result for the pair (job 1, model 1) is
    accepted and stored next to the first. *)
Lemma second_result_for_same_pair_is_stored :
  let st1 := snd (createAnalysisResult 2000 (resultOfModel 1 92 "H.264") storeWithJob) in
  let st2 := snd (createAnalysisResult 3000 (resultOfModel 1 40 "HEVC") st1) in
  map (fun r => (AnalysisResult.mediaId r, AnalysisResult.modelId r,
                 AnalysisResult.confidenceScore r))
      (getAnalysisResultsByMediaId 1 st2)
  = [(1, 1, 92); (1, 1, 40)].
Proof. reflexivity. Qed.

(** ** The representative result of a report *)

Lemma firstByTimeThenModel_head (first : AnalysisResult.t) (rest : list AnalysisResult.t) :
  (forall r, In r rest -> precedes first r = true) ->
  firstByTimeThenModel first rest = first.
Proof.
  induction rest as [| r rest' IH]; intros Hall; simpl; [reflexivity |].
  rewrite (Hall r) by now left.
  apply IH. intros r' Hin. apply Hall. now right.
Qed.

(** C5, as the aggregator behaves.  For a job with at least one stored
    result, [detectionTime], [technicalAnalysis] and the [duration] and
    [resolution] of [fileInfo] all come from one result: the first result of
    the job in the order of insertion ([analysisResults[0]]), with the default
    technical analysis when that result has none and an empty [duration] or
    [resolution] left out.  That result is the first one by ([analyzedAt],
    [modelId]) whenever it precedes every later inserted result of the job in
    that order. *)
Theorem representative_is_first_inserted :
  forall (mediaId : Z) (st : MemStorage) (job : MediaUpload.t),
    getMediaUpload mediaId st = Some job ->
    getAnalysisResultsByMediaId mediaId st <> [] ->
    exists report first rest,
      getCompleteAnalysis mediaId st = Some report
      /\ getAnalysisResultsByMediaId mediaId st = first :: rest
      /\ AnalysisResponse.detectionTime report = AnalysisResult.analyzedAt first
      /\ AnalysisResponse.technicalAnalysis report
         = Js.or_else (ResultDetails.technicalAnalysis (AnalysisResult.resultDetails first))
                      defaultTechnicalAnalysis
      /\ FileInfo.duration (AnalysisResponse.fileInfo report)
         = metadataField first Metadata.duration
      /\ FileInfo.resolution (AnalysisResponse.fileInfo report)
         = metadataField first Metadata.resolution
      /\ ((forall r, In r rest -> precedes first r = true) ->
          firstByTimeThenModel first rest = first).
Proof.
  intros mediaId st job Hjob Hsome.
  destruct (report_exists _ _ _ Hjob Hsome) as [report Hreport].
  destruct (getCompleteAnalysis_some _ _ _ Hreport)
    as (job' & first & rest & _ & Hresults & _ & _ & Htime & _ & Htech & Hdur & Hres).
  exists report, first, rest.
  repeat match goal with |- _ /\ _ => split end; try assumption.
  apply firstByTimeThenModel_head.
Qed.

Lemma representative_is_first_inserted_witness :
  exists report,
    getCompleteAnalysis 1 storeModel1First = Some report
    /\ AnalysisResponse.technicalAnalysis report = technicalOf "H.264".
Proof.
  destruct (representative_is_first_inserted 1 storeModel1First
              (MediaUpload.mk 1 "clip.mp4" 5000 "video/mp4" None 1000 "pending"))
    as (report & first & rest & Hreport & Hresults & _ & Htech & _).
  - reflexivity.
  - discriminate.
  - exists report. split; [exact Hreport |].
    rewrite Htech. inversion Hresults. reflexivity.
Defined.

(** C5 as stated fails.  The two stores hold the same two results of job 1,
    both analysed at time 2000, inserted in opposite orders.  By
    ([analyzedAt], [modelId]) the result of model 1 comes first in both; the
    report of the store in which the result of model 3 was inserted first
    takes its technical analysis from the result of model 3, and the two
    reports differ. *)
Lemma representative_depends_on_insertion_order :
  option_map AnalysisResponse.technicalAnalysis (getCompleteAnalysis 1 storeModel3First)
  = Some (technicalOf "HEVC")
  /\ option_map AnalysisResponse.technicalAnalysis (getCompleteAnalysis 1 storeModel1First)
     = Some (technicalOf "H.264")
  /\ match getAnalysisResultsByMediaId 1 storeModel3First with
     | first :: rest =>
         AnalysisResult.modelId (firstByTimeThenModel first rest) = 1
         /\ ResultDetails.technicalAnalysis
              (AnalysisResult.resultDetails (firstByTimeThenModel first rest))
            = Some (technicalOf "H.264")
     | [] => False
     end.
Proof. repeat split. Qed.

(** ** The manipulation types of a report *)

(** C4 fails on the code.  A video is uploaded with the models 1 and 3
    selected; both results carry the same three manipulation candidates.  The
    entries of the two results are different objects, the [Set] keeps them
    all, and the report lists every (type, confidence) pair twice. *)
Theorem manipulationTypes_keep_equal_pairs :
  option_map
    (fun report => map ManipulationType.content (AnalysisResponse.manipulationTypes report))
    (getCompleteAnalysis 1 (storage (run (upload videoFile (Some "[1,3]")) initialWorld)))
  = Some [ ("Face Swap", 95); ("Face Swap", 95);
           ("Expression Manipulation", 82); ("Expression Manipulation", 82);
           ("Voice Synthesis", 56); ("Voice Synthesis", 56) ].
Proof. vm_compute. reflexivity. Qed.

(** ** The selection handed over by the upload route *)

Lemma dispatchWith_returns (produce : Producer) (mediaId : Z)
      (selectedModels : list Js.value) (w : World) :
  fst (dispatchWith produce mediaId selectedModels w) = Js.Normal tt.
Proof.
  unfold dispatchWith, catch.
  destruct (processMediaWith produce mediaId selectedModels w) as [[[] | e] w'].
  - reflexivity.
  - unfold bind, call, ret.
    destruct (updateMediaStatus mediaId "failed" (storage w')). reflexivity.
Qed.

(** C9, as the route behaves.  When the text of [selectedModels] is not
    empty and [JSON.parse] throws on it, the extraction does not throw and
    has no effect; it yields the fixed list of ids 1 and 2, and the upload
    goes on to dispatch the new job with that list and returns the id of the
    job. *)
Theorem malformed_selection_uses_fallback :
  forall (payload : string) (e : Js.Error) (file : InsertMediaUpload.t) (w : World),
    payload <> EmptyString ->
    JSON.parse payload = Js.Throw e ->
    extractSelectedModels (Some payload) w = (Js.Normal [Js.of_Z 1; Js.of_Z 2], w)
    /\ upload file (Some payload) w
       = (let (job, w1) := storage_createMediaUpload file w in
          match job with
          | Js.Normal mediaUpload =>
              (Js.Normal (MediaUpload.id mediaUpload),
               run (dispatch (MediaUpload.id mediaUpload) [Js.of_Z 1; Js.of_Z 2]) w1)
          | Js.Throw e' => (Js.Throw e', w1)
          end)
    /\ fst (upload file (Some payload) w) = Js.Normal (currentMediaId (storage w)).
Proof.
  intros payload e file w Hne Hparse.
  assert (Hextract : forall w0,
             extractSelectedModels (Some payload) w0 = (Js.Normal [Js.of_Z 1; Js.of_Z 2], w0)).
  { intros w0. unfold extractSelectedModels.
    destruct payload as [| c rest]; [congruence |].
    unfold parseSelectedModels. rewrite Hparse. reflexivity. }
  split; [apply Hextract |].
  assert (Hupload : upload file (Some payload) w
       = (let (job, w1) := storage_createMediaUpload file w in
          match job with
          | Js.Normal mediaUpload =>
              (Js.Normal (MediaUpload.id mediaUpload),
               run (dispatch (MediaUpload.id mediaUpload) [Js.of_Z 1; Js.of_Z 2]) w1)
          | Js.Throw e' => (Js.Throw e', w1)
          end)).
  { unfold upload, uploadWith, bind at 1.
    destruct (storage_createMediaUpload file w) as [[mediaUpload | e'] w1]; [| reflexivity].
    unfold bind at 1. rewrite Hextract. unfold bind, ret, run, dispatch.
    pose proof (dispatchWith_returns simulatedAnalysis (MediaUpload.id mediaUpload)
                  [Js.of_Z 1; Js.of_Z 2] w1) as Hret.
    destruct (dispatchWith simulatedAnalysis (MediaUpload.id mediaUpload)
                [Js.of_Z 1; Js.of_Z 2] w1) as [[[] | e'] w2]; [reflexivity | discriminate]. }
  split; [exact Hupload |].
  rewrite Hupload. reflexivity.
Qed.

Lemma malformed_selection_uses_fallback_witness :
  "[3," <> EmptyString
  /\ JSON.parse "[3," = Js.Throw Js.SyntaxError
  /\ extractSelectedModels (Some "[3,") initialWorld
     = (Js.Normal [Js.of_Z 1; Js.of_Z 2], initialWorld).
Proof.
  assert (Hne : "[3," <> EmptyString) by discriminate.
  assert (Hparse : JSON.parse "[3," = Js.Throw Js.SyntaxError) by reflexivity.
  split; [exact Hne |]. split; [exact Hparse |].
  exact (proj1 (malformed_selection_uses_fallback "[3," Js.SyntaxError videoFile
                  initialWorld Hne Hparse)).
Defined.

(** C9 as stated fails.  The text [[3,] does not parse; the route hands the
    ids 1 and 2 to [processMedia], which is neither the caller's selection
    nor an empty selection, and the job is analysed with the models 1 and
    2. *)
Lemma malformed_selection_gets_models_1_and_2 :
  JSON.parse "[3," = Js.Throw Js.SyntaxError
  /\ fst (extractSelectedModels (Some "[3,") initialWorld)
     = Js.Normal [Js.of_Z 1; Js.of_Z 2]
  /\ resultModelIds 1 (storage (run (upload videoFile (Some "[3,")) initialWorld)) = [1; 2].
Proof. vm_compute. repeat split. Qed.

(** ** The dispatch of a job *)

Section Dispatch.

Variable produce : Producer.
Hypothesis Hpure : store_preserving produce.

Variables (mediaId : Z) (isVideo : bool).

(** One iteration of the loop: either the result of the model is appended
    to the results of the job, or the producer threw and nothing was
    written. *)
Lemma analyseWith_step (model : DetectionModel.t) (w : World) :
  fresh_result_ids (storage w) ->
  match analyseWith produce mediaId isVideo model w with
  | (Js.Normal _, w') =>
      fresh_result_ids (storage w')
      /\ mediaUploads (storage w') = mediaUploads (storage w)
      /\ detectionModels (storage w') = detectionModels (storage w)
      /\ resultModelIds mediaId (storage w')
         = (resultModelIds mediaId (storage w) ++ [DetectionModel.id model])%list
  | (Js.Throw e, w') =>
      storage w' = storage w /\ fst (produce isVideo model w) = Js.Throw e
  end.
Proof.
  intros Hfresh. unfold analyseWith, bind at 1.
  pose proof (Hpure isVideo model w) as Hsame.
  destruct (produce isVideo model w) as [[produced | e] w1]; cbn [snd fst] in *.
  - unfold bind, storage_createAnalysisResult, bind, new_Date, call, ret.
    cbn [storage with_storage heapNext clock randoms].
    set (now := clock w1 O).
    set (result := InsertAnalysisResult.mk mediaId (DetectionModel.id model)
                     (fst produced) (snd produced)).
    rewrite Hsame.
    destruct (createAnalysisResult now result (storage w)) as [stored st'] eqn:Hcreate.
    cbn [storage].
    pose proof (createAnalysisResult_store now result (storage w) Hfresh) as (_ & _ & Hjobs & Hmodels).
    pose proof (createAnalysisResult_fresh now result (storage w) Hfresh) as Hfresh'.
    pose proof (createAnalysisResult_results now result (storage w) Hfresh mediaId) as Hresults.
    rewrite Hcreate in Hjobs, Hmodels, Hfresh', Hresults. cbn [fst snd] in *.
    repeat split; try assumption.
    unfold resultModelIds. cbn [storage with_storage]. rewrite Hresults.
    change (InsertAnalysisResult.mediaId result) with mediaId.
    rewrite Z.eqb_refl, map_app. cbn [map]. f_equal.
    apply (f_equal fst) in Hcreate. cbn in Hcreate. subst stored. reflexivity.
  - split; [exact Hsame | reflexivity].
Qed.

(** The loop: the results of the models are appended one after the other,
    up to the first model on which the producer throws. *)
Lemma for_of_models (models : list DetectionModel.t) (w : World) :
  fresh_result_ids (storage w) ->
  let '(completion, w') := for_of models (analyseWith produce mediaId isVideo) w in
  fresh_result_ids (storage w')
  /\ mediaUploads (storage w') = mediaUploads (storage w)
  /\ detectionModels (storage w') = detectionModels (storage w)
  /\ match completion with
     | Js.Normal _ =>
         resultModelIds mediaId (storage w')
         = (resultModelIds mediaId (storage w) ++ map DetectionModel.id models)%list
     | Js.Throw e =>
         exists finished failing later wk,
           models = (finished ++ failing :: later)%list
           /\ fst (produce isVideo failing wk) = Js.Throw e
           /\ resultModelIds mediaId (storage w')
              = (resultModelIds mediaId (storage w) ++ map DetectionModel.id finished)%list
     end.
Proof.
  revert w. induction models as [| model rest IH]; intros w Hfresh.
  - cbn. repeat split; try assumption. now rewrite app_nil_r.
  - cbn [for_of]. unfold bind at 1.
    pose proof (analyseWith_step model w Hfresh) as Hstep.
    destruct (analyseWith produce mediaId isVideo model w) as [[[] | e] w1].
    + destruct Hstep as (Hfresh1 & Hjobs1 & Hmodels1 & Hids1).
      specialize (IH w1 Hfresh1).
      destruct (for_of rest (analyseWith produce mediaId isVideo) w1) as [completion w2].
      destruct IH as (Hfresh2 & Hjobs2 & Hmodels2 & Hids2).
      split; [assumption | split; [congruence | split; [congruence |]]].
      destruct completion as [[] | e].
      * rewrite Hids2, Hids1, <- app_assoc. reflexivity.
      * destruct Hids2 as (finished & failing & later & wk & Hsplit & Hthrow & Hids2).
        exists (model :: finished), failing, later, wk.
        repeat split; [now rewrite Hsplit | assumption |].
        rewrite Hids2, Hids1, <- app_assoc. reflexivity.
    + destruct Hstep as (Hsame & Hthrow).
      rewrite Hsame. split; [assumption | split; [reflexivity | split; [reflexivity |]]].
      exists [], model, rest, w. repeat split; [assumption |].
      cbn. now rewrite app_nil_r.
Qed.

(** The loop does not write the jobs. *)
Lemma for_of_jobs (models : list DetectionModel.t) (w : World) :
  mediaUploads (storage (snd (for_of models (analyseWith produce mediaId isVideo) w)))
  = mediaUploads (storage w).
Proof.
  revert w. induction models as [| model rest IH]; intros w; [reflexivity |].
  cbn [for_of]. unfold bind at 1.
  assert (Hstep : mediaUploads (storage (snd (analyseWith produce mediaId isVideo model w)))
                  = mediaUploads (storage w)).
  { unfold analyseWith, bind at 1.
    pose proof (Hpure isVideo model w) as Hsame.
    destruct (produce isVideo model w) as [[produced | e] w1]; cbn [snd] in *.
    - cbn. now rewrite Hsame.
    - now rewrite Hsame. }
  destruct (analyseWith produce mediaId isVideo model w) as [[[] | e] w1]; cbn [snd] in *.
  - now rewrite IH.
  - assumption.
Qed.

End Dispatch.

Section ProcessMedia.

Variable produce : Producer.
Hypothesis Hpure : store_preserving produce.

Variables (mediaId : Z) (selectedModels : list Js.value) (w : World) (job : MediaUpload.t).
Hypothesis Hjob : getMediaUpload mediaId (storage w) = Some job.

Let processing : World :=
  with_storage w (snd (updateMediaStatus mediaId "processing" (storage w))).

Let models : list DetectionModel.t :=
  modelsToUse (getDetectionModels (storage w)) selectedModels (jobIsVideo job).

(** [processMedia] on a job that exists: the status is set to [processing],
    the loop runs, and the status is set to [completed] when the loop ends
    without an exception. *)
Lemma processMediaWith_existing :
  processMediaWith produce mediaId selectedModels w
  = match for_of models (analyseWith produce mediaId (jobIsVideo job)) processing with
    | (Js.Normal _, w2) =>
        (Js.Normal tt,
         with_storage w2 (snd (updateMediaStatus mediaId "completed" (storage w2))))
    | (Js.Throw e, w2) => (Js.Throw e, w2)
    end.
Proof.
  subst processing models.
  unfold processMediaWith, bind at 1, call.
  rewrite (updateMediaStatus_some _ _ _ _ Hjob). cbn [snd].
  unfold bind at 1, read. cbn [storage with_storage].
  unfold getMediaUpload at 1. cbn [mediaUploads set_mediaUploads].
  rewrite get_set_same.
  unfold bind at 1, read.
  unfold bind at 1.
  change (Js.startsWith (MediaUpload.filetype (MediaUpload.with_status job "processing")) "video/")
    with (jobIsVideo job).
  unfold getDetectionModels. cbn [storage with_storage detectionModels set_mediaUploads].
  match goal with
  | |- context [for_of ?ms ?body ?w0] => destruct (for_of ms body w0) as [[[] | e] w2]
  end.
  - unfold bind, call, ret.
    destruct (updateMediaStatus mediaId "completed" (storage w2)). reflexivity.
  - reflexivity.
Qed.

Lemma processing_job :
  getMediaUpload mediaId (storage processing)
  = Some (MediaUpload.with_status job "processing").
Proof.
  subst processing. cbn [storage with_storage].
  rewrite (updateMediaStatus_some _ _ _ _ Hjob). cbn [snd].
  unfold getMediaUpload. cbn [mediaUploads set_mediaUploads]. apply get_set_same.
Qed.

(** The job is still there, in status [processing], when the loop ends. *)
Lemma job_after_loop :
  getMediaUpload mediaId
    (storage (snd (for_of models (analyseWith produce mediaId (jobIsVideo job)) processing)))
  = Some (MediaUpload.with_status job "processing").
Proof.
  unfold getMediaUpload. rewrite (for_of_jobs produce Hpure).
  apply processing_job.
Qed.

(** The status at the end of a dispatch. *)
Lemma dispatchWith_status :
  statusOf mediaId (storage (run (dispatchWith produce mediaId selectedModels) w))
  = Some (match fst (processMediaWith produce mediaId selectedModels w) with
          | Js.Normal _ => "completed"
          | Js.Throw _ => "failed"
          end).
Proof.
  unfold run, dispatchWith, catch. rewrite processMediaWith_existing.
  pose proof job_after_loop as Hafter.
  destruct (for_of models (analyseWith produce mediaId (jobIsVideo job)) processing)
    as [[[] | e] w2]; cbn [snd fst] in *.
  - cbn [storage with_storage]. eapply updateMediaStatus_status; eassumption.
  - unfold bind, call, ret.
    pose proof (updateMediaStatus_status mediaId "failed" (storage w2) _ Hafter) as Hfailed.
    destruct (updateMediaStatus mediaId "failed" (storage w2)) as [returned st'].
    exact Hfailed.
Qed.

(** With a producer that never throws, [processMedia] returns and every
    selected model has its result. *)
Lemma processMediaWith_completes :
  fresh_result_ids (storage w) ->
  (forall isVideo model w0, exists produced, fst (produce isVideo model w0) = Js.Normal produced) ->
  fst (processMediaWith produce mediaId selectedModels w) = Js.Normal tt
  /\ resultModelIds mediaId (storage (run (dispatchWith produce mediaId selectedModels) w))
     = (resultModelIds mediaId (storage w) ++ map DetectionModel.id models)%list.
Proof.
  intros Hfresh Htotal.
  assert (Hfresh1 : fresh_result_ids (storage processing)).
  { subst processing. cbn [storage with_storage]. intros k.
    destruct (updateMediaStatus_results mediaId "processing" (storage w)) as (-> & -> & _).
    apply Hfresh. }
  assert (Hids1 : resultModelIds mediaId (storage processing)
                  = resultModelIds mediaId (storage w)).
  { subst processing. cbn [storage with_storage].
    unfold resultModelIds, getAnalysisResultsByMediaId.
    now destruct (updateMediaStatus_results mediaId "processing" (storage w)) as (-> & _). }
  pose proof (for_of_models produce Hpure mediaId (jobIsVideo job) models processing Hfresh1)
    as Hloop.
  unfold run, dispatchWith, catch.
  rewrite processMediaWith_existing.
  destruct (for_of models (analyseWith produce mediaId (jobIsVideo job)) processing)
    as [[[] | e] w2].
  - destruct Hloop as (_ & _ & _ & Hids).
    split; [reflexivity |]. cbn [snd storage with_storage].
    destruct (updateMediaStatus_results mediaId "completed" (storage w2)) as (Hsame & _).
    unfold resultModelIds, getAnalysisResultsByMediaId in *.
    rewrite Hsame, Hids, Hids1. reflexivity.
  - destruct Hloop as (_ & _ & _ & finished & failing & later & wk & _ & Hraise & _).
    destruct (Htotal (jobIsVideo job) failing wk) as [produced Hproduced].
    congruence.
Qed.

End ProcessMedia.

Lemma simulatedAnalysis_store_preserving : store_preserving simulatedAnalysis.
Proof. intros isVideo model w. reflexivity. Qed.

(** The simulated analysis of the source never throws: with it, the loop of
    [processMedia] cannot fail. *)
Lemma simulatedAnalysis_returns (isVideo : bool) (model : DetectionModel.t) (w : World) :
  exists produced, fst (simulatedAnalysis isVideo model w) = Js.Normal produced.
Proof. eexists. reflexivity. Qed.

Lemma processMedia_completes (mediaId : Z) (selectedModels : list Js.value)
      (w : World) (job : MediaUpload.t) :
  getMediaUpload mediaId (storage w) = Some job ->
  fresh_result_ids (storage w) ->
  fst (processMedia mediaId selectedModels w) = Js.Normal tt
  /\ statusOf mediaId (storage (run (dispatch mediaId selectedModels) w)) = Some "completed"
  /\ resultModelIds mediaId (storage (run (dispatch mediaId selectedModels) w))
     = (resultModelIds mediaId (storage w)
        ++ map DetectionModel.id
             (modelsToUse (getDetectionModels (storage w)) selectedModels (jobIsVideo job)))%list.
Proof.
  intros Hjob Hfresh.
  destruct (processMediaWith_completes simulatedAnalysis simulatedAnalysis_store_preserving
              mediaId selectedModels w job Hjob Hfresh simulatedAnalysis_returns)
    as (Hreturns & Hids).
  split; [exact Hreturns | split; [| exact Hids]].
  unfold dispatch.
  rewrite (dispatchWith_status simulatedAnalysis simulatedAnalysis_store_preserving
             mediaId selectedModels w job Hjob).
  now rewrite Hreturns.
Qed.

Lemma failingOnCnnLstm_store_preserving : store_preserving failingOnCnnLstm.
Proof.
  intros isVideo model w. unfold failingOnCnnLstm.
  destruct (Js.includes (DetectionModel.name model) "CNN-LSTM"); reflexivity.
Qed.





(** ** Witnesses at the stores of the examples *)

Lemma overallConfidence_is_rounded_mean_witness :
  scoresWithinDoubles (getAnalysisResultsByMediaId 1 storeModel1First)
  /\ exists report,
       getCompleteAnalysis 1 storeModel1First = Some report
       /\ roundsHalfUp (meanConfidence (getAnalysisResultsByMediaId 1 storeModel1First))
                       (AnalysisResponse.overallConfidence report)
       /\ AnalysisResponse.overallConfidence report = 89
       /\ AnalysisResponse.isDeepfake report = true.
Proof.
  assert (Hwithin : scoresWithinDoubles (getAnalysisResultsByMediaId 1 storeModel1First))
    by (split; reflexivity).
  split; [exact Hwithin |].
  destruct (overallConfidence_is_rounded_mean 1 storeModel1First
              (MediaUpload.mk 1 "clip.mp4" 5000 "video/mp4" None 1000 "pending"))
    as (report & Hreport & Hmean & _ & Hexample).
  - reflexivity.
  - discriminate.
  - exists report. split; [exact Hreport | split; [exact (Hmean Hwithin) |]].
    apply Hexample. reflexivity.
Defined.

Lemma modelsToUse_selection_witness :
  [3; 1] <> []
  /\ (In (DetectionModel.mk 3 "CNN-LSTM" "Temporal inconsistency detection" "video" true)
         (modelsToUse (getDetectionModels newMemStorage) (map Js.of_Z [3; 1])
                      (jobIsVideo (MediaUpload.mk 1 "clip.mp4" 5000 "video/mp4" None 1000
                                                  "pending")))).
Proof.
  assert (Hne : [3; 1] <> []) by discriminate.
  split; [exact Hne |].
  apply (proj1 (modelsToUse_selection (getDetectionModels newMemStorage)
                  (MediaUpload.mk 1 "clip.mp4" 5000 "video/mp4" None 1000 "pending")
                  [3; 1]
                  (DetectionModel.mk 3 "CNN-LSTM" "Temporal inconsistency detection"
                                     "video" true))
               Hne).
  split; [| split].
  - cbn. tauto.
  - cbn. tauto.
  - right. left. split; reflexivity.
Defined.

(** * Further properties of the store, the aggregator and the pipeline *)

(** ** Keyed maps *)

Section KeyedFacts.

Context {V : Type}.
Variable idOf : V -> Z.
Implicit Types (m : Js.Map V) (k next : Z) (v : V).

Lemma keyed_empty : keyed idOf 1 [].
Proof. split; [lia | split; [| split]; constructor]. Qed.

Lemma sorted_snoc (l : list Z) (x : Z) :
  StronglySorted Z.lt l -> (forall a, In a l -> a < x) -> StronglySorted Z.lt (l ++ [x]).
Proof.
  induction 1 as [| a l Hsorted IH Hall]; intros Hbelow; cbn.
  - repeat constructor.
  - constructor.
    + apply IH. intros b Hb. apply Hbelow. now right.
    + apply Forall_app. split; [assumption |].
      constructor; [| constructor]. apply Hbelow. now left.
Qed.

Lemma keyed_bound next m k :
  keyed idOf next m -> In k (Js.keys m) -> 1 <= k < next.
Proof.
  intros (_ & _ & _ & Hall) Hin. apply in_map_iff in Hin as ([k' v] & <- & Hin).
  rewrite Forall_forall in Hall. apply (Hall _ Hin).
Qed.

Lemma keyed_next_unused next m : keyed idOf next m -> Js.get next m = None.
Proof.
  intros Hk. apply get_none_not_key. intros Hin.
  pose proof (keyed_bound _ _ _ Hk Hin). lia.
Qed.

(** A new entry under the counter. *)
Lemma keyed_set_next next m v :
  idOf v = next -> keyed idOf next m -> keyed idOf (next + 1) (Js.set next v m).
Proof.
  intros Hid Hk.
  rewrite (set_absent _ _ _ (keyed_next_unused _ _ Hk)).
  pose proof (keyed_next_unused _ _ Hk) as Hnone. apply get_none_not_key in Hnone.
  pose proof (fun k => keyed_bound next m k Hk) as Hbound.
  destruct Hk as (Hpos & Hnodup & Hsorted & Hall).
  split; [lia | split; [| split]].
  - unfold Js.keys. rewrite map_app. cbn.
    apply NoDup_app; [assumption | constructor; [intros [] | constructor] | ].
    intros a Hin [<- | []]. contradiction.
  - unfold Js.keys. rewrite map_app. cbn.
    apply sorted_snoc; [assumption |]. intros a Hin. apply Hbound in Hin. lia.
  - apply Forall_app. split.
    + eapply Forall_impl; [| exact Hall]. cbn. intros entry [Hb He]. split; [lia | assumption].
    + constructor; [| constructor]. cbn. split; [lia | assumption].
Qed.

Lemma Forall_set (P : Z * V -> Prop) k v m :
  Forall P m -> P (k, v) -> Forall P (Js.set k v m).
Proof.
  intros Hall Hp. induction Hall as [| [k' v'] rest Hhead Hrest IH]; cbn.
  - now constructor.
  - destruct (k =? k'); constructor; assumption.
Qed.

Lemma get_some_key k v m : Js.get k m = Some v -> In k (Js.keys m).
Proof.
  intros Hget. destruct (in_dec Z.eq_dec k (Js.keys m)) as [Hin | Hout]; [assumption |].
  apply get_none_not_key in Hout. congruence.
Qed.

(** An entry replaced under a key that is present. *)
Lemma keyed_set_present next m k v v0 :
  Js.get k m = Some v0 -> idOf v = k -> keyed idOf next m -> keyed idOf next (Js.set k v m).
Proof.
  intros Hget Hid Hk. pose proof (keyed_bound _ _ _ Hk (get_some_key _ _ _ Hget)) as Hb.
  destruct Hk as (Hpos & Hnodup & Hsorted & Hall).
  split; [assumption | split; [| split]].
  - now rewrite (set_present_keys _ _ _ _ Hget).
  - now rewrite (set_present_keys _ _ _ _ Hget).
  - apply Forall_set; [assumption |]. cbn. now split.
Qed.

Lemma get_in k v m : Js.get k m = Some v -> In (k, v) m.
Proof.
  induction m as [| [k' v'] rest IH]; cbn; [discriminate |].
  destruct (Z.eqb_spec k k') as [-> | Hne].
  - intros H. inversion H. now left.
  - intros H. right. now apply IH.
Qed.

Lemma in_get k v m : NoDup (Js.keys m) -> In (k, v) m -> Js.get k m = Some v.
Proof.
  induction m as [| [k' v'] rest IH]; cbn; [intros _ [] |].
  intros Hnodup [Heq | Hin].
  - inversion Heq; subst. now rewrite Z.eqb_refl.
  - inversion Hnodup as [| ? ? Hout Hrest]; subst.
    destruct (Z.eqb_spec k k') as [-> | Hne].
    + exfalso. apply Hout. change k' with (fst (k', v)). now apply in_map.
    + now apply IH.
Qed.

Lemma keyed_get_id next m k v : keyed idOf next m -> Js.get k m = Some v -> idOf v = k.
Proof.
  intros (_ & _ & _ & Hall) Hget. apply get_in in Hget.
  rewrite Forall_forall in Hall. apply (Hall _ Hget).
Qed.

End KeyedFacts.

(** ** The invariant of the store is kept *)

Lemma emptyStorage_ok : store_ok emptyStorage.
Proof.
  pose proof (keyed_empty User.id). pose proof (keyed_empty MediaUpload.id).
  pose proof (keyed_empty DetectionModel.id). pose proof (keyed_empty AnalysisResult.id).
  unfold store_ok. cbn. tauto.
Qed.

Lemma createDetectionModel_ok (model : InsertDetectionModel.t) (st : MemStorage) :
  store_ok st -> store_ok (snd (createDetectionModel model st)).
Proof.
  intros (Hu & Hj & Hm & Hr). unfold createDetectionModel. cbn.
  split; [| split; [| split]]; try assumption.
  now apply (keyed_set_next DetectionModel.id).
Qed.

Lemma createUser_ok (insertUser : InsertUser.t) (st : MemStorage) :
  store_ok st -> store_ok (snd (createUser insertUser st)).
Proof.
  intros (Hu & Hj & Hm & Hr). unfold createUser. cbn.
  split; [| split; [| split]]; try assumption.
  now apply (keyed_set_next User.id).
Qed.

Lemma createMediaUpload_ok (now : Z) (upload : InsertMediaUpload.t) (st : MemStorage) :
  store_ok st -> store_ok (snd (createMediaUpload now upload st)).
Proof.
  intros (Hu & Hj & Hm & Hr). unfold createMediaUpload. cbn.
  split; [| split; [| split]]; try assumption.
  now apply (keyed_set_next MediaUpload.id).
Qed.

Lemma createAnalysisResult_ok (now : Z) (result : InsertAnalysisResult.t) (st : MemStorage) :
  store_ok st -> store_ok (snd (createAnalysisResult now result st)).
Proof.
  intros (Hu & Hj & Hm & Hr). unfold createAnalysisResult. cbn.
  split; [| split; [| split]]; try assumption.
  now apply (keyed_set_next AnalysisResult.id).
Qed.

Lemma updateMediaStatus_ok (id : Z) (status : string) (st : MemStorage) :
  store_ok st -> store_ok (snd (updateMediaStatus id status st)).
Proof.
  intros (Hu & Hj & Hm & Hr). unfold updateMediaStatus.
  destruct (getMediaUpload id st) as [job |] eqn:Hjob; cbn;
    [| split; [| split; [| split]]; assumption].
  split; [| split; [| split]]; try assumption.
  apply (keyed_set_present MediaUpload.id _ _ _ _ job); try assumption.
  cbn. apply (keyed_get_id MediaUpload.id _ _ _ _ Hj Hjob).
Qed.

Lemma newMemStorage_ok : store_ok newMemStorage.
Proof.
  unfold newMemStorage.
  assert (H : forall models st, store_ok st ->
             store_ok (fold_left (fun st model => snd (createDetectionModel model st)) models st)).
  { induction models as [| model rest IH]; intros st Hok; cbn; [assumption |].
    apply IH. now apply createDetectionModel_ok. }
  apply H, emptyStorage_ok.
Qed.

Lemma store_ok_fresh_result_ids (st : MemStorage) : store_ok st -> fresh_result_ids st.
Proof.
  intros (_ & _ & _ & Hr) k Hin.
  pose proof (keyed_bound AnalysisResult.id _ _ _ Hr Hin). lia.
Qed.

(** X1.  The constructor establishes the invariant of the store and every
    writing method keeps it: in each of the four maps a key occurs once, is at
    least 1 and below the counter of the map, and is the [id] of the entry
    stored under it. *)
Theorem store_invariant_is_kept :
  store_ok newMemStorage
  /\ forall st : MemStorage,
       store_ok st ->
       (forall insertUser, store_ok (snd (createUser insertUser st)))
       /\ (forall now upload, store_ok (snd (createMediaUpload now upload st)))
       /\ (forall id status, store_ok (snd (updateMediaStatus id status st)))
       /\ (forall model, store_ok (snd (createDetectionModel model st)))
       /\ (forall now result, store_ok (snd (createAnalysisResult now result st))).
Proof.
  split; [apply newMemStorage_ok |].
  intros st Hok. split; [| split; [| split; [| split]]].
  - intros insertUser. now apply createUser_ok.
  - intros now upload. now apply createMediaUpload_ok.
  - intros id status. now apply updateMediaStatus_ok.
  - intros model. now apply createDetectionModel_ok.
  - intros now result. now apply createAnalysisResult_ok.
Qed.

Lemma store_invariant_is_kept_witness :
  store_ok (snd (createMediaUpload 1000 videoFile newMemStorage)).
Proof.
  destruct store_invariant_is_kept as [Hnew Hkept].
  destruct (Hkept newMemStorage Hnew) as (_ & Hupload & _).
  apply Hupload.
Defined.

(** ** Creating and looking up *)

Lemma insert_next {V : Type} (idOf : V -> Z) (next : Z) (m : Js.Map V) (v : V) :
  keyed idOf next m ->
  Js.get next m = None
  /\ Js.get next (Js.set next v m) = Some v
  /\ (forall k old, Js.get k m = Some old ->
        Js.get k (Js.set next v m) = Some old /\ k < next)
  /\ Js.values (Js.set next v m) = (Js.values m ++ [v])%list.
Proof.
  intros Hk. pose proof (keyed_next_unused idOf _ _ Hk) as Hnone.
  split; [assumption | split; [apply get_set_same | split]].
  - intros k old Hget.
    pose proof (keyed_bound idOf _ _ _ Hk (get_some_key _ _ _ Hget)) as Hb.
    split; [| lia]. rewrite get_set_other; [assumption | lia].
  - rewrite (set_absent _ _ _ Hnone). unfold Js.values. now rewrite map_app.
Qed.

Lemma createMediaUpload_round_trip_facts (now : Z) (upload : InsertMediaUpload.t)
      (st : MemStorage) :
  store_ok st ->
  getMediaUpload (currentMediaId st) st = None
  /\ getMediaUpload (currentMediaId st) (snd (createMediaUpload now upload st))
     = Some (fst (createMediaUpload now upload st))
  /\ 1 <= currentMediaId st.
Proof.
  intros (_ & Hj & _).
  destruct (insert_next MediaUpload.id _ _ (fst (createMediaUpload now upload st)) Hj)
    as (Hnone & Hsame & _).
  split; [exact Hnone | split; [exact Hsame | apply Hj]].
Qed.

(** X2.  In a store that satisfies the invariant, [createMediaUpload]
    returns a job in status [pending] with the fields of the upload and the
    time of the call, under an id that was unused and is larger than the id
    of every job created before; the job can be read back under its id, it is
    the last of the uploads, and every job that was there is unchanged. *)
Theorem createMediaUpload_round_trip :
  forall (now : Z) (upload : InsertMediaUpload.t) (st : MemStorage),
    store_ok st ->
    let job := fst (createMediaUpload now upload st) in
    let st' := snd (createMediaUpload now upload st) in
    getMediaUpload (MediaUpload.id job) st = None
    /\ getMediaUpload (MediaUpload.id job) st' = Some job
    /\ MediaUpload.status job = "pending"
    /\ MediaUpload.uploadedAt job = now
    /\ (MediaUpload.filename job, MediaUpload.filesize job,
        MediaUpload.filetype job, MediaUpload.userId job)
       = (InsertMediaUpload.filename upload, InsertMediaUpload.filesize upload,
          InsertMediaUpload.filetype upload, InsertMediaUpload.userId upload)
    /\ (forall id old, getMediaUpload id st = Some old ->
          getMediaUpload id st' = Some old /\ id < MediaUpload.id job)
    /\ Js.values (mediaUploads st') = (Js.values (mediaUploads st) ++ [job])%list
    /\ currentMediaId st' = MediaUpload.id job + 1.
Proof.
  intros now upload st (_ & Hj & _) job st'.
  destruct (insert_next MediaUpload.id _ _ job Hj) as (Hnone & Hsame & Hold & Hvalues).
  subst job st'. unfold getMediaUpload. cbn in *.
  repeat match goal with |- _ /\ _ => split end; try reflexivity; assumption.
Qed.

Lemma createMediaUpload_round_trip_witness :
  getMediaUpload 1 (snd (createMediaUpload 1000 videoFile newMemStorage))
  = Some (fst (createMediaUpload 1000 videoFile newMemStorage)).
Proof.
  exact (proj1 (proj2 (createMediaUpload_round_trip 1000 videoFile newMemStorage
                         newMemStorage_ok))).
Defined.

(** X3.  In a store that satisfies the invariant, [createDetectionModel]
    stores the model under an unused id, larger than the ids of the models
    that are there; [getDetectionModel] returns it under that id,
    [getDetectionModels] lists it after the models that were there, in the
    order of creation, and no model that was there changes. *)
Theorem createDetectionModel_round_trip :
  forall (model : InsertDetectionModel.t) (st : MemStorage),
    store_ok st ->
    let created := fst (createDetectionModel model st) in
    let st' := snd (createDetectionModel model st) in
    getDetectionModel (DetectionModel.id created) st = None
    /\ getDetectionModel (DetectionModel.id created) st' = Some created
    /\ (DetectionModel.name created, DetectionModel.description created,
        DetectionModel.type created, DetectionModel.isActive created)
       = (InsertDetectionModel.name model, InsertDetectionModel.description model,
          InsertDetectionModel.type model, InsertDetectionModel.isActive model)
    /\ (forall id old, getDetectionModel id st = Some old ->
          getDetectionModel id st' = Some old /\ id < DetectionModel.id created)
    /\ getDetectionModels st' = (getDetectionModels st ++ [created])%list.
Proof.
  intros model st (_ & _ & Hm & _) created st'.
  destruct (insert_next DetectionModel.id _ _ created Hm) as (Hnone & Hsame & Hold & Hvalues).
  subst created st'. unfold getDetectionModel, getDetectionModels. cbn in *.
  repeat match goal with |- _ /\ _ => split end; try reflexivity; assumption.
Qed.

Lemma createDetectionModel_round_trip_witness :
  map DetectionModel.id
      (getDetectionModels
         (snd (createDetectionModel
                 (InsertDetectionModel.mk "XceptionNet" "Frame classifier" "both" false)
                 newMemStorage)))
  = [1; 2; 3; 4; 5].
Proof.
  destruct (createDetectionModel_round_trip
              (InsertDetectionModel.mk "XceptionNet" "Frame classifier" "both" false)
              newMemStorage newMemStorage_ok) as (_ & _ & _ & _ & Hmodels).
  rewrite Hmodels. reflexivity.
Defined.

(** ** Users *)

Lemma find_first {A : Type} (f : A -> bool) (l : list A) :
  match find f l with
  | Some x =>
      f x = true
      /\ exists before after,
           l = (before ++ x :: after)%list /\ forall y, In y before -> f y = false
  | None => forall y, In y l -> f y = false
  end.
Proof.
  induction l as [| a rest IH]; cbn.
  - intros y [].
  - destruct (f a) eqn:Ha.
    + split; [assumption |]. exists [], rest. split; [reflexivity | intros y []].
    + destruct (find f rest) as [x |].
      * destruct IH as (Hx & before & after & -> & Hbefore).
        split; [assumption |]. exists (a :: before), after.
        split; [reflexivity |]. intros y [<- | Hin]; auto.
      * intros y [<- | Hin]; auto.
Qed.

Lemma find_app_one {A : Type} (f : A -> bool) (l : list A) (x : A) :
  find f (l ++ [x])%list
  = match find f l with
    | Some y => Some y
    | None => if f x then Some x else None
    end.
Proof.
  induction l as [| a rest IH]; cbn; [reflexivity |].
  destruct (f a); [reflexivity | exact IH].
Qed.

(** X4.  [getUserByUsername] returns the user created first among the users
    with that name, and [undefined] exactly when no user has the name.
    [createUser] does not check the name: in a store that satisfies the
    invariant the new user is stored under a new id and found by [getUser],
    but when the name was taken [getUserByUsername] keeps returning the older
    user. *)
Theorem getUserByUsername_returns_the_oldest :
  forall (username : string) (st : MemStorage),
    match getUserByUsername username st with
    | Some user =>
        User.username user = username
        /\ exists before after,
             Js.values (users st) = (before ++ user :: after)%list
             /\ forall other, In other before -> User.username other <> username
    | None => forall other, In other (Js.values (users st)) -> User.username other <> username
    end
    /\ forall password,
         store_ok st ->
         let created := fst (createUser (InsertUser.mk username password) st) in
         let st' := snd (createUser (InsertUser.mk username password) st) in
         getUser (User.id created) st = None
         /\ getUser (User.id created) st' = Some created
         /\ (forall id old, getUser id st = Some old -> getUser id st' = Some old)
         /\ getUserByUsername username st'
            = match getUserByUsername username st with
              | Some older => Some older
              | None => Some created
              end.
Proof.
  intros username st. split.
  - unfold getUserByUsername.
    pose proof (find_first (fun user => String.eqb (User.username user) username)
                  (Js.values (users st))) as H.
    destruct (find _ (Js.values (users st))) as [user |].
    + destruct H as (Hname & before & after & Hsplit & Hbefore).
      apply String.eqb_eq in Hname. split; [assumption |].
      exists before, after. split; [assumption |].
      intros other Hin. apply String.eqb_neq. now apply Hbefore.
    + intros other Hin. apply String.eqb_neq. now apply H.
  - intros password (Hu & _) created st'.
    destruct (insert_next User.id _ _ created Hu) as (Hnone & Hsame & Hold & Hvalues).
    subst created st'. unfold getUser, getUserByUsername, createUser in *.
    cbn [fst snd users set_users User.id] in *.
    split; [assumption | split; [assumption | split]].
    + intros id old Hget. now apply Hold.
    + rewrite Hvalues, find_app_one. cbn. now rewrite String.eqb_refl.
Qed.

Lemma getUserByUsername_returns_the_oldest_witness :
  let st1 := snd (createUser (InsertUser.mk "ada" "first") newMemStorage) in
  let st2 := snd (createUser (InsertUser.mk "ada" "second") st1) in
  option_map User.password (getUserByUsername "ada" st2) = Some "first"
  /\ option_map User.password (getUser 2 st2) = Some "second".
Proof.
  intros st1 st2.
  assert (Hok1 : store_ok st1) by (apply createUser_ok, newMemStorage_ok).
  destruct (proj2 (getUserByUsername_returns_the_oldest "ada" st1) "second" Hok1)
    as (_ & Hget & _ & Hfind).
  split.
  - fold st2 in Hfind. rewrite Hfind. reflexivity.
  - reflexivity.
Defined.

(** ** The uploads of a user *)

(** X5.  [getMediaUploadsByUser] lists every upload when the user id is
    missing or is 0 (both are falsy); for any other user id it lists exactly
    the uploads whose [userId] is that id, in the order of creation. *)
Theorem getMediaUploadsByUser_selects :
  forall (st : MemStorage),
    getMediaUploadsByUser None st = Js.values (mediaUploads st)
    /\ getMediaUploadsByUser (Some 0) st = Js.values (mediaUploads st)
    /\ forall (u : Z) (upload : MediaUpload.t),
         u <> 0 ->
         (In upload (getMediaUploadsByUser (Some u) st) <->
          In upload (Js.values (mediaUploads st)) /\ MediaUpload.userId upload = Some u)
         /\ exists dropped,
              Permutation (Js.values (mediaUploads st))
                          (getMediaUploadsByUser (Some u) st ++ dropped)
              /\ forall other, In other dropped -> MediaUpload.userId other <> Some u.
Proof.
  intros st. split; [reflexivity | split; [reflexivity |]].
  intros u upload Hu. unfold getMediaUploadsByUser.
  apply Z.eqb_neq in Hu. rewrite Hu. split.
  - rewrite filter_In. split; intros [Hin Howner]; (split; [assumption |]).
    + destruct (MediaUpload.userId upload) as [owner |]; [| discriminate].
      apply Z.eqb_eq in Howner. now subst.
    + rewrite Howner. apply Z.eqb_refl.
  - set (mine := fun upload0 : MediaUpload.t =>
                   match MediaUpload.userId upload0 with
                   | Some owner => owner =? u
                   | None => false
                   end).
    exists (filter (fun upload0 => negb (mine upload0)) (Js.values (mediaUploads st))).
    split.
    + induction (Js.values (mediaUploads st)) as [| a rest IH]; cbn; [constructor |].
      destruct (mine a); cbn.
      * now constructor.
      * now apply Permutation_cons_app.
    + intros other Hin. apply filter_In in Hin as [_ Hnot].
      subst mine. cbn in Hnot. intros Howner. rewrite Howner, Z.eqb_refl in Hnot.
      discriminate.
Qed.

Lemma getMediaUploadsByUser_selects_witness :
  let mine := InsertMediaUpload.mk "a.png" 10 "image/png" (Some 7) in
  let st := snd (createMediaUpload 2 mine (snd (createMediaUpload 1 videoFile newMemStorage))) in
  7 <> 0
  /\ In (fst (createMediaUpload 2 mine (snd (createMediaUpload 1 videoFile newMemStorage))))
        (getMediaUploadsByUser (Some 7) st).
Proof.
  intros mine st. assert (Hne : 7 <> 0) by lia. split; [exact Hne |].
  apply (proj1 (proj2 (proj2 (getMediaUploadsByUser_selects st)) 7 _ Hne)).
  split; [| reflexivity]. cbn. tauto.
Defined.

(** ** Writing the status twice *)

Lemma set_set {V : Type} (k : Z) (v1 v2 : V) (m : Js.Map V) :
  Js.set k v2 (Js.set k v1 m) = Js.set k v2 m.
Proof.
  induction m as [| [k' v'] rest IH]; cbn.
  - now rewrite Z.eqb_refl.
  - destruct (k =? k') eqn:E; cbn; rewrite ?Z.eqb_refl, ?E, ?IH; reflexivity.
Qed.

Lemma set_same {V : Type} (k : Z) (v : V) (m : Js.Map V) :
  Js.get k m = Some v -> Js.set k v m = m.
Proof.
  induction m as [| [k' v'] rest IH]; cbn; [discriminate |].
  destruct (Z.eqb_spec k k') as [-> | Hne]; intros H.
  - now inversion H.
  - now rewrite IH.
Qed.

(** X6.  Of two calls of [updateMediaStatus] on the same id the later one
    wins: the store is the one the second call alone would give.  A call with
    the status the job already has leaves the store exactly as it is. *)
Theorem updateMediaStatus_last_write_wins :
  forall (id : Z) (first second : string) (st : MemStorage),
    snd (updateMediaStatus id second (snd (updateMediaStatus id first st)))
    = snd (updateMediaStatus id second st)
    /\ (statusOf id st = Some first -> snd (updateMediaStatus id first st) = st).
Proof.
  intros id first second st. split.
  - destruct (getMediaUpload id st) as [job |] eqn:Hjob.
    + rewrite (updateMediaStatus_some id first st job Hjob). cbn [snd].
      set (st1 := set_mediaUploads st _ _).
      assert (Hjob1 : getMediaUpload id st1 = Some (MediaUpload.with_status job first)).
      { subst st1. unfold getMediaUpload. cbn. apply get_set_same. }
      rewrite (updateMediaStatus_some id second st1 _ Hjob1).
      rewrite (updateMediaStatus_some id second st job Hjob).
      subst st1. cbn. now rewrite set_set.
    + unfold updateMediaStatus. rewrite Hjob. cbn. now rewrite Hjob.
  - unfold statusOf. destruct (getMediaUpload id st) as [job |] eqn:Hjob; [| discriminate].
    cbn. intros Hstatus. inversion Hstatus as [Hfirst].
    rewrite (updateMediaStatus_some id _ st job Hjob). cbn [snd].
    assert (Hsame : MediaUpload.with_status job (MediaUpload.status job) = job)
      by now destruct job.
    rewrite Hsame. unfold getMediaUpload in Hjob. rewrite (set_same _ _ _ Hjob).
    now destruct st.
Qed.

Lemma updateMediaStatus_last_write_wins_witness :
  statusOf 1 storeWithJob = Some "pending"
  /\ snd (updateMediaStatus 1 "pending" storeWithJob) = storeWithJob.
Proof.
  assert (H : statusOf 1 storeWithJob = Some "pending") by reflexivity.
  split; [exact H |].
  exact (proj2 (updateMediaStatus_last_write_wins 1 "pending" "failed" storeWithJob) H).
Defined.

(** ** The results of a job *)

Lemma sorted_filter_map {A : Type} (key : A -> Z) (f : A -> bool) (l : list A) :
  StronglySorted Z.lt (map key l) -> StronglySorted Z.lt (map key (filter f l)).
Proof.
  induction l as [| a rest IH]; cbn; intros Hsorted; [constructor |].
  inversion Hsorted as [| ? ? Hrest Hall]; subst.
  destruct (f a); cbn; [| now apply IH].
  constructor; [now apply IH |].
  rewrite Forall_forall in *. intros x Hin. apply Hall.
  apply in_map_iff in Hin as (y & <- & Hy). apply filter_In in Hy as [Hy _].
  now apply in_map.
Qed.

Lemma keyed_values_ids {V : Type} (idOf : V -> Z) (next : Z) (m : Js.Map V) :
  keyed idOf next m -> map idOf (Js.values m) = Js.keys m.
Proof.
  intros (_ & _ & _ & Hall). unfold Js.values, Js.keys.
  induction Hall as [| [k v] rest [_ Hid] Hrest IH]; cbn; [reflexivity |].
  cbn in Hid. now rewrite Hid, IH.
Qed.

(** X7.  In a store that satisfies the invariant, the results listed for a
    job are exactly the stored results that carry its id: each of them is
    what [getAnalysisById] returns for its own id.  They are listed by
    increasing result id, which is the order of insertion. *)
Theorem results_of_a_job :
  forall (mediaId : Z) (st : MemStorage),
    store_ok st ->
    (forall result,
        In result (getAnalysisResultsByMediaId mediaId st) <->
        getAnalysisById (AnalysisResult.id result) st = Some result
        /\ AnalysisResult.mediaId result = mediaId)
    /\ StronglySorted Z.lt (map AnalysisResult.id (getAnalysisResultsByMediaId mediaId st)).
Proof.
  intros mediaId st (_ & _ & _ & Hr). split.
  - intros result. unfold getAnalysisResultsByMediaId, getAnalysisById.
    rewrite filter_In, Z.eqb_eq. unfold Js.values. rewrite in_map_iff. split.
    + intros [([k r] & Heq & Hin) Hmedia]. cbn in Heq. subst r.
      split; [| assumption].
      destruct Hr as (_ & Hnodup & _ & Hall).
      rewrite Forall_forall in Hall. destruct (Hall _ Hin) as [_ Hid]. cbn in Hid.
      rewrite Hid. now apply in_get.
    + intros [Hget Hmedia]. split; [| assumption].
      exists (AnalysisResult.id result, result). split; [reflexivity |].
      now apply get_in.
  - unfold getAnalysisResultsByMediaId. apply sorted_filter_map.
    rewrite (keyed_values_ids _ _ _ Hr). apply Hr.
Qed.

Lemma results_of_a_job_witness :
  map AnalysisResult.id (getAnalysisResultsByMediaId 1 storeModel3First) = [1; 2]
  /\ StronglySorted Z.lt (map AnalysisResult.id (getAnalysisResultsByMediaId 1 storeModel3First)).
Proof.
  split; [reflexivity |].
  apply (proj2 (results_of_a_job 1 storeModel3First
                  (createAnalysisResult_ok _ _ _
                     (createAnalysisResult_ok _ _ _
                        (createMediaUpload_ok _ _ _ newMemStorage_ok))))).
Defined.

(** ** The overall confidence lies between the scores *)

Lemma total_between (lo hi : Z) (scores : list Z) :
  Forall (fun s => lo <= s <= hi) scores ->
  lo * Z.of_nat (length scores) <= fold_right Z.add 0 scores <= hi * Z.of_nat (length scores).
Proof.
  induction 1 as [| s rest Hs Hrest IH]; cbn [length fold_right]; [lia |].
  rewrite Nat2Z.inj_succ. lia.
Qed.

Lemma mean_between (lo hi total n : Z) :
  0 < n -> lo * n <= total <= hi * n ->
  (inject_Z lo <= inject_Z total / inject_Z n)%Q
  /\ (inject_Z total / inject_Z n <= inject_Z hi)%Q.
Proof.
  intros Hn [Hlo Hhi].
  assert (Hpos : (0 < inject_Z n)%Q) by (rewrite (Zlt_Qlt 0 n) in Hn; exact Hn).
  split.
  - apply Qle_shift_div_l; [assumption |].
    rewrite <- inject_Z_mult, <- Zle_Qle. assumption.
  - apply Qle_shift_div_r; [assumption |].
    rewrite <- inject_Z_mult, <- Zle_Qle. assumption.
Qed.

Lemma Math_round_between (lo hi : Z) (x : Q) :
  (inject_Z lo <= x)%Q -> (x <= inject_Z hi)%Q -> lo <= Js.Math_round x <= hi.
Proof.
  intros Hlo Hhi. destruct (Math_round_half_up x) as [Hbelow Habove].
  assert (H1 : (inject_Z lo < inject_Z (Js.Math_round x + 1))%Q)
    by (rewrite inject_Z_plus; change (inject_Z 1) with 1%Q; lra).
  assert (H2 : (inject_Z (Js.Math_round x) < inject_Z (hi + 1))%Q)
    by (rewrite inject_Z_plus; change (inject_Z 1) with 1%Q; lra).
  rewrite <- Zlt_Qlt in H1, H2. lia.
Qed.

Lemma overallConfidence_between (mediaId : Z) (st : MemStorage)
      (report : AnalysisResponse.t) (lo hi : Z) :
  getCompleteAnalysis mediaId st = Some report ->
  sumOfMagnitudes (getAnalysisResultsByMediaId mediaId st) < 2 ^ 53 ->
  (forall result, In result (getAnalysisResultsByMediaId mediaId st) ->
                  lo <= AnalysisResult.confidenceScore result <= hi) ->
  lo <= AnalysisResponse.overallConfidence report <= hi.
Proof.
  intros Hreport Hsmall Hscores.
  destruct (getCompleteAnalysis_some _ _ _ Hreport)
    as (job & first & rest & _ & Hresults & Hconf & _).
  rewrite Hresults in Hscores, Hsmall. rewrite Hconf.
  assert (Hall : Forall (fun s => lo <= s <= hi)
                        (map AnalysisResult.confidenceScore (first :: rest))).
  { apply Forall_forall. intros s Hin. apply in_map_iff in Hin as (r & <- & Hr).
    now apply Hscores. }
  pose proof (total_between lo hi _ Hall) as Htotal. rewrite length_map in Htotal.
  pose proof (sumOfMagnitudes_bounds (first :: rest)) as Hbound.
  pose proof (sumConfidence_total (first :: rest) Hsmall) as Hsum.
  set (total := fold_right Z.add 0 (map AnalysisResult.confidenceScore (first :: rest))) in *.
  set (n := Z.of_nat (length (first :: rest))) in *.
  assert (Hn : 1 <= n) by (subst n; cbn [length]; lia).
  destruct (mean_between lo hi total n ltac:(lia) Htotal) as [Hlo Hhi].
  assert (Hquotient : (sumConfidence (first :: rest) / inject_Z n == inject_Z total / inject_Z n)%Q)
    by now rewrite Hsum.
  assert (Hmagnitude : (Qabs (sumConfidence (first :: rest) / inject_Z n) < 2 ^ 53)%Q).
  { rewrite Hquotient. apply Qabs_Qlt_condition.
    assert (Hpos : (0 < inject_Z n)%Q) by (rewrite <- (Zlt_Qlt 0); lia).
    change (2 ^ 53)%Q with (inject_Z (2 ^ 53)). rewrite <- inject_Z_opp. split.
    - apply Qlt_shift_div_l; [assumption |]. rewrite <- inject_Z_mult, <- Zlt_Qlt. nia.
    - apply Qlt_shift_div_r; [assumption |]. rewrite <- inject_Z_mult, <- Zlt_Qlt. nia. }
  apply Math_round_between; unfold Js.div.
  - apply double_integer_ge; [assumption | now rewrite Hquotient].
  - apply double_integer_le; [assumption | now rewrite Hquotient].
Qed.

(** X8.  The [overallConfidence] of a report lies between the smallest and
    the largest confidence score of the results of the job: when every score
    is in a range of integers, so is the overall confidence (with scores from
    0 to 100, it is from 0 to 100), as long as the sum of the scores is one
    the numbers of the language hold exactly (magnitudes adding up to less
    than [2 ^ 53]). *)
Theorem overallConfidence_within_scores :
  forall (mediaId : Z) (st : MemStorage) (report : AnalysisResponse.t) (lo hi : Z),
    getCompleteAnalysis mediaId st = Some report ->
    sumOfMagnitudes (getAnalysisResultsByMediaId mediaId st) < 2 ^ 53 ->
    (forall result, In result (getAnalysisResultsByMediaId mediaId st) ->
                    lo <= AnalysisResult.confidenceScore result <= hi) ->
    lo <= AnalysisResponse.overallConfidence report <= hi.
Proof.
  intros mediaId st report lo hi. apply overallConfidence_between.
Qed.

Lemma overallConfidence_within_scores_witness :
  exists report,
    getCompleteAnalysis 1 storeModel3First = Some report
    /\ 86 <= AnalysisResponse.overallConfidence report <= 92.
Proof.
  destruct (getCompleteAnalysis 1 storeModel3First) as [report |] eqn:Hreport;
    [| discriminate].
  exists report. split; [reflexivity |].
  apply (overallConfidence_within_scores 1 storeModel3First report 86 92 Hreport).
  - reflexivity.
  - intros result Hin. cbn in Hin. destruct Hin as [<- | [<- | []]]; cbn; lia.
Defined.

(** ** The manipulation types of a report are sorted *)

Section SortFacts.

Context {A : Type}.
Variable key : A -> Z.

Lemma sort_insert_perm (x : A) (l : list A) :
  Permutation (Js.sort_insert (fun a b : A => key b - key a) x l) (x :: l).
Proof.
  induction l as [| y rest IH]; cbn; [reflexivity |].
  destruct (0 <? (fun a b : A => key b - key a) x y); [| reflexivity].
  rewrite IH. apply perm_swap.
Qed.

Lemma sort_perm (l : list A) : Permutation (Js.sort (fun a b : A => key b - key a) l) l.
Proof.
  induction l as [| x rest IH]; cbn; [constructor |].
  change (fold_right (Js.sort_insert (fun a b : A => key b - key a)) [] rest) with (Js.sort (fun a b : A => key b - key a) rest).
  rewrite sort_insert_perm. now constructor.
Qed.

Lemma sort_insert_sorted (x : A) (l : list A) :
  StronglySorted (fun a b => key a >= key b) l ->
  StronglySorted (fun a b => key a >= key b) (Js.sort_insert (fun a b : A => key b - key a) x l).
Proof.
  induction 1 as [| y rest Hrest IH Hall]; cbn; [repeat constructor |].
  destruct (Z.ltb_spec 0 (key y - key x)) as [Hlt | Hge].
  - constructor; [assumption |].
    rewrite Forall_forall in *. intros z Hz.
    apply (Permutation_in _ (sort_insert_perm x rest)) in Hz as [<- | Hz]; [lia | auto].
  - constructor; [now constructor |].
    constructor; [lia |].
    rewrite Forall_forall in *. intros z Hz. specialize (Hall z Hz). lia.
Qed.

Lemma sort_sorted (l : list A) :
  StronglySorted (fun a b => key a >= key b) (Js.sort (fun a b : A => key b - key a) l).
Proof.
  induction l as [| x rest IH]; cbn; [constructor |].
  now apply sort_insert_sorted.
Qed.

End SortFacts.

Section SetFacts.

Context {A : Type}.
Variable ident : A -> nat.

Lemma seen_spec (x : A) (seen : list A) :
  existsb ((fun a b : A => Nat.eqb (ident a) (ident b)) x) seen = true <-> In (ident x) (map ident seen).
Proof.
  rewrite existsb_exists, in_map_iff. split.
  - intros (y & Hin & Heq). apply Nat.eqb_eq in Heq. now exists y.
  - intros (y & Heq & Hin). exists y. split; [assumption |]. now apply Nat.eqb_eq.
Qed.

Lemma Set_of_spec (xs seen : list A) :
  (forall x, In x (Js.Set_of (fun a b : A => Nat.eqb (ident a) (ident b)) seen xs) -> In x xs /\ ~ In (ident x) (map ident seen))
  /\ (forall x, In x xs -> ~ In (ident x) (map ident seen) ->
        exists y, In y (Js.Set_of (fun a b : A => Nat.eqb (ident a) (ident b)) seen xs) /\ ident y = ident x)
  /\ NoDup (map ident (Js.Set_of (fun a b : A => Nat.eqb (ident a) (ident b)) seen xs)).
Proof.
  revert seen. induction xs as [| a rest IH]; intros seen; cbn.
  - split; [intros x [] | split; [intros x [] | constructor]].
  - destruct (existsb ((fun a b : A => Nat.eqb (ident a) (ident b)) a) seen) eqn:Hseen.
    + destruct (IH seen) as (Hsub & Hsup & Hnodup).
      apply seen_spec in Hseen.
      split; [| split; [| assumption]].
      * intros x Hin. destruct (Hsub x Hin). tauto.
      * intros x [<- | Hin] Hnew; [contradiction | now apply Hsup].
    + destruct (IH (a :: seen)) as (Hsub & Hsup & Hnodup).
      assert (Hnew : ~ In (ident a) (map ident seen)).
      { intros Hin. apply seen_spec in Hin. congruence. }
      split; [| split].
      * intros x [<- | Hin]; [tauto |].
        destruct (Hsub x Hin) as [Hrest Hout]. cbn in Hout. tauto.
      * intros x [<- | Hin] Hout; [exists a; split; [now left | reflexivity] |].
        destruct (Nat.eq_dec (ident a) (ident x)) as [Heq | Hne].
        -- exists a. split; [now left | assumption].
        -- destruct (Hsup x Hin) as (y & Hy & Hid); [cbn; tauto |].
           exists y. split; [now right | assumption].
      * cbn. constructor; [| assumption].
        intros Hin. apply in_map_iff in Hin as (y & Heq & Hy).
        destruct (Hsub y Hy) as [_ Hout]. apply Hout. cbn. now left.
Qed.

End SetFacts.

(** X9.  The [manipulationTypes] of a report are sorted by decreasing
    confidence; every entry is a candidate of some result of the job, every
    candidate object of a result is in the list, and no object is in the list
    twice. *)
Theorem manipulationTypes_sorted :
  forall (mediaId : Z) (st : MemStorage) (report : AnalysisResponse.t),
    getCompleteAnalysis mediaId st = Some report ->
    let candidates :=
      flat_map (fun result =>
                  Js.or_else (ResultDetails.manipulationTypes
                                (AnalysisResult.resultDetails result)) [])
               (getAnalysisResultsByMediaId mediaId st) in
    StronglySorted
      (fun a b => ManipulationType.confidence a >= ManipulationType.confidence b)
      (AnalysisResponse.manipulationTypes report)
    /\ (forall m, In m (AnalysisResponse.manipulationTypes report) -> In m candidates)
    /\ (forall m, In m candidates ->
          exists m', In m' (AnalysisResponse.manipulationTypes report)
                     /\ ManipulationType.ref m' = ManipulationType.ref m)
    /\ NoDup (map ManipulationType.ref (AnalysisResponse.manipulationTypes report)).
Proof.
  intros mediaId st report Hreport candidates.
  destruct (getCompleteAnalysis_some _ _ _ Hreport)
    as (job & first & rest & _ & Hresults & _ & _ & _ & Htypes & _).
  subst candidates. rewrite Hresults, Htypes. unfold collectManipulationTypes.
  set (candidates := flat_map _ (first :: rest)).
  destruct (Set_of_spec ManipulationType.ref candidates []) as (Hsub & Hsup & Hnodup).
  pose proof (sort_perm ManipulationType.confidence
                (Js.Set_of ManipulationType.same_object [] candidates)) as Hperm.
  split; [apply (sort_sorted ManipulationType.confidence) | split; [| split]].
  - intros m Hin. apply (Permutation_in _ Hperm) in Hin. now apply Hsub.
  - intros m Hin. destruct (Hsup m Hin) as (y & Hy & Hid); [intros [] |].
    exists y. split; [| assumption].
    apply (Permutation_in _ (Permutation_sym Hperm)). exact Hy.
  - apply (Permutation_NoDup (Permutation_map _ (Permutation_sym Hperm))). exact Hnodup.
Qed.

Lemma manipulationTypes_sorted_witness :
  exists report,
    getCompleteAnalysis 1 (storage (run (upload videoFile (Some "[1,3]")) initialWorld))
    = Some report
    /\ NoDup (map ManipulationType.ref (AnalysisResponse.manipulationTypes report)).
Proof.
  assert (Hsome : exists report,
             getCompleteAnalysis 1 (storage (run (upload videoFile (Some "[1,3]")) initialWorld))
             = Some report)
    by (vm_compute; eexists; reflexivity).
  destruct Hsome as [report Hreport].
  exists report. split; [exact Hreport |].
  apply (manipulationTypes_sorted 1 _ report Hreport).
Defined.

(** ** The pipeline: loops and invariants *)

Lemma with_storage_same (w : World) : with_storage w (storage w) = w.
Proof. now destruct w. Qed.

Lemma dispatch_without_job (produce : Producer) (mediaId : Z)
      (selectedModels : list Js.value) (w : World) :
  getMediaUpload mediaId (storage w) = None ->
  processMediaWith produce mediaId selectedModels w = (Js.Normal tt, w)
  /\ dispatchWith produce mediaId selectedModels w = (Js.Normal tt, w).
Proof.
  intros Hnone.
  assert (Hprocess : processMediaWith produce mediaId selectedModels w = (Js.Normal tt, w)).
  { unfold processMediaWith, bind at 1, call, updateMediaStatus. rewrite Hnone.
    rewrite with_storage_same. unfold bind at 1, read. now rewrite Hnone. }
  split; [assumption |]. unfold dispatchWith, catch. now rewrite Hprocess.
Qed.

(** X10.  [processMedia] on an id that has no job does nothing: it returns
    normally and the world is the same; no job and no result is created, and
    the [catch] of the routes has nothing to do. *)
Theorem processMedia_without_job :
  forall (produce : Producer) (mediaId : Z) (selectedModels : list Js.value) (w : World),
    getMediaUpload mediaId (storage w) = None ->
    processMediaWith produce mediaId selectedModels w = (Js.Normal tt, w)
    /\ dispatchWith produce mediaId selectedModels w = (Js.Normal tt, w).
Proof.
  intros produce mediaId selectedModels w. apply dispatch_without_job.
Qed.

Lemma processMedia_without_job_witness :
  dispatchWith simulatedAnalysis 42 [] initialWorld = (Js.Normal tt, initialWorld).
Proof.
  exact (proj2 (processMedia_without_job simulatedAnalysis 42 [] initialWorld eq_refl)).
Defined.

(** What holds before a loop and is kept by every iteration, however the
    iteration ends, holds after the loop. *)
Lemma for_of_invariant {A : Type} (inv : World -> Prop) (body : A -> M unit)
      (xs : list A) (w : World) :
  (forall x w0, inv w0 -> inv (snd (body x w0))) ->
  inv w -> inv (snd (for_of xs body w)).
Proof.
  intros Hbody. revert w. induction xs as [| x rest IH]; intros w Hinv; [assumption |].
  cbn [for_of]. unfold bind at 1.
  pose proof (Hbody x w Hinv) as Hstep.
  destruct (body x w) as [[[] | e] w1]; cbn [snd] in *; [now apply IH | assumption].
Qed.

Section DispatchEnd.

Variable produce : Producer.
Hypothesis Hpure : store_preserving produce.

Variables (mediaId : Z) (selectedModels : list Js.value) (w : World) (job : MediaUpload.t).
Hypothesis Hjob : getMediaUpload mediaId (storage w) = Some job.

Lemma loopStart_results :
  analysisResults (storage (loopStart mediaId w)) = analysisResults (storage w)
  /\ currentAnalysisId (storage (loopStart mediaId w)) = currentAnalysisId (storage w)
  /\ detectionModels (storage (loopStart mediaId w)) = detectionModels (storage w)
  /\ heapNext (loopStart mediaId w) = heapNext w
  /\ randoms (loopStart mediaId w) = randoms w
  /\ clock (loopStart mediaId w) = clock w.
Proof.
  unfold loopStart. cbn [storage with_storage heapNext randoms clock].
  destruct (updateMediaStatus_results mediaId "processing" (storage w)) as (-> & -> & ->).
  repeat split.
Qed.

(** After the loop only the status is written. *)
Lemma dispatch_end_results :
  analysisResults (storage (run (dispatchWith produce mediaId selectedModels) w))
  = analysisResults (storage (loopEnd produce mediaId selectedModels w job))
  /\ detectionModels (storage (run (dispatchWith produce mediaId selectedModels) w))
     = detectionModels (storage (loopEnd produce mediaId selectedModels w job))
  /\ currentAnalysisId (storage (run (dispatchWith produce mediaId selectedModels) w))
     = currentAnalysisId (storage (loopEnd produce mediaId selectedModels w job)).
Proof.
  unfold run, dispatchWith, catch, loopEnd, loopStart.
  rewrite (processMediaWith_existing produce mediaId selectedModels w job Hjob).
  destruct (for_of _ _ _) as [[[] | e] w2]; cbn [snd storage with_storage].
  - destruct (updateMediaStatus_results mediaId "completed" (storage w2)) as (-> & -> & ->).
    repeat split.
  - unfold bind, call, ret.
    destruct (updateMediaStatus_results mediaId "failed" (storage w2)) as (H1 & H2 & H3).
    destruct (updateMediaStatus mediaId "failed" (storage w2)) as [returned st'].
    cbn [snd storage with_storage] in *. now rewrite H1, H2, H3.
Qed.

End DispatchEnd.

Lemma results_by_map (mediaId : Z) (st st' : MemStorage) :
  analysisResults st' = analysisResults st ->
  getAnalysisResultsByMediaId mediaId st' = getAnalysisResultsByMediaId mediaId st.
Proof. unfold getAnalysisResultsByMediaId. now intros ->. Qed.

(** What a report repeats of the job. *)
Lemma getCompleteAnalysis_echo (mediaId : Z) (st : MemStorage) (report : AnalysisResponse.t) :
  getCompleteAnalysis mediaId st = Some report ->
  exists job,
    getMediaUpload mediaId st = Some job
    /\ AnalysisResponse.mediaId report = mediaId
    /\ AnalysisResponse.status report = MediaUpload.status job
    /\ AnalysisResponse.filename report = MediaUpload.filename job
    /\ AnalysisResponse.filetype report = MediaUpload.filetype job
    /\ map ModelResult.modelId (AnalysisResponse.modelResults report)
       = resultModelIds mediaId st.
Proof.
  unfold getCompleteAnalysis, resultModelIds.
  destruct (getMediaUpload mediaId st) as [job |]; [| discriminate].
  destruct (getAnalysisResultsByMediaId mediaId st) as [| first rest]; [discriminate |].
  intros H. inversion H; subst report; clear H. exists job.
  cbn [AnalysisResponse.mediaId AnalysisResponse.status AnalysisResponse.filename
       AnalysisResponse.filetype AnalysisResponse.modelResults].
  repeat split.
  change (modelResultOf st first :: map (modelResultOf st) rest)
    with (map (modelResultOf st) (first :: rest)).
  rewrite map_map. reflexivity.
Qed.

(** X11.  A job for which no model is selected is driven to [completed]
    with no result, and then has no report: when the job has no result before
    the dispatch and [modelsToUse] is empty (for instance an explicit
    selection of ids that are not in the registry), the status ends as
    [completed] and [getCompleteAnalysis] returns [undefined]. *)
Theorem empty_selection_completes_without_report :
  forall (produce : Producer) (mediaId : Z) (selectedModels : list Js.value)
         (w : World) (job : MediaUpload.t),
    getMediaUpload mediaId (storage w) = Some job ->
    getAnalysisResultsByMediaId mediaId (storage w) = [] ->
    modelsToUse (getDetectionModels (storage w)) selectedModels (jobIsVideo job) = [] ->
    let final := storage (run (dispatchWith produce mediaId selectedModels) w) in
    statusOf mediaId final = Some "completed"
    /\ getAnalysisResultsByMediaId mediaId final = []
    /\ getCompleteAnalysis mediaId final = None.
Proof.
  intros produce mediaId selectedModels w job Hjob Hnone Hmodels final.
  assert (Hfinal : final = snd (updateMediaStatus mediaId "completed"
                                  (snd (updateMediaStatus mediaId "processing" (storage w))))).
  { subst final. unfold run, dispatchWith, catch.
    rewrite (processMediaWith_existing produce mediaId selectedModels w job Hjob), Hmodels.
    reflexivity. }
  assert (Hresults : getAnalysisResultsByMediaId mediaId final = []).
  { rewrite Hfinal, <- Hnone. apply results_by_map.
    destruct (updateMediaStatus_results mediaId "completed"
                (snd (updateMediaStatus mediaId "processing" (storage w)))) as (-> & _).
    apply updateMediaStatus_results. }
  split; [| split; [assumption | apply getCompleteAnalysis_none_iff; now right]].
  rewrite Hfinal.
  apply (updateMediaStatus_status mediaId "completed" _ (MediaUpload.with_status job "processing")).
  rewrite (updateMediaStatus_some _ _ _ _ Hjob). unfold getMediaUpload. cbn.
  apply get_set_same.
Qed.

Lemma empty_selection_completes_without_report_witness :
  let final := storage (run (dispatch 1 [Js.of_Z 99]) worldWithJob) in
  statusOf 1 final = Some "completed" /\ getCompleteAnalysis 1 final = None.
Proof.
  destruct (empty_selection_completes_without_report simulatedAnalysis 1 [Js.of_Z 99]
              worldWithJob
              (MediaUpload.mk 1 "clip.mp4" 5000 "video/mp4" None 1700000000000 "pending")
              eq_refl eq_refl eq_refl) as (Hstatus & _ & Hreport).
  split; assumption.
Defined.

Lemma for_of_simulated_returns (mediaId : Z) (isVideo : bool)
      (models : list DetectionModel.t) (w : World) :
  fst (for_of models (analyseWith simulatedAnalysis mediaId isVideo) w) = Js.Normal tt.
Proof.
  revert w. induction models as [| model rest IH]; intros w; [reflexivity |].
  cbn [for_of]. unfold bind at 1.
  assert (Hstep : exists w1,
             analyseWith simulatedAnalysis mediaId isVideo model w = (Js.Normal tt, w1))
    by (eexists; reflexivity).
  destruct Hstep as [w1 ->]. apply IH.
Qed.

Lemma updateMediaStatus_other (id other : Z) (status : string) (st : MemStorage) :
  other <> id ->
  getMediaUpload other (snd (updateMediaStatus id status st)) = getMediaUpload other st.
Proof.
  intros Hother. unfold updateMediaStatus.
  destruct (getMediaUpload id st) as [job |]; [| reflexivity].
  unfold getMediaUpload. cbn. now apply get_set_other.
Qed.

(** X12.  With the analysis of the source the [catch] of the dispatch never
    runs: [processMedia] returns normally in every world, for every id and
    every selection, so that the dispatch does what [processMedia] does.  The
    dispatched job is never in status [failed] afterwards, and no other job
    is touched. *)
Theorem processMedia_never_throws :
  forall (mediaId : Z) (selectedModels : list Js.value) (w : World),
    fst (processMedia mediaId selectedModels w) = Js.Normal tt
    /\ dispatch mediaId selectedModels w = processMedia mediaId selectedModels w
    /\ statusOf mediaId (storage (run (dispatch mediaId selectedModels) w)) <> Some "failed"
    /\ (forall other,
          other <> mediaId ->
          getMediaUpload other (storage (run (dispatch mediaId selectedModels) w))
          = getMediaUpload other (storage w)).
Proof.
  intros mediaId selectedModels w.
  assert (Hreturns : fst (processMedia mediaId selectedModels w) = Js.Normal tt).
  { unfold processMedia.
    destruct (getMediaUpload mediaId (storage w)) as [job |] eqn:Hjob.
    - rewrite (processMediaWith_existing simulatedAnalysis mediaId selectedModels w job Hjob).
      pose proof (for_of_simulated_returns mediaId (jobIsVideo job)
                    (modelsToUse (getDetectionModels (storage w)) selectedModels
                                 (jobIsVideo job))
                    (with_storage w (snd (updateMediaStatus mediaId "processing" (storage w)))))
        as Hloop.
      destruct (for_of _ _ _) as [[[] | e] w2]; [reflexivity | discriminate].
    - now rewrite (proj1 (dispatch_without_job simulatedAnalysis mediaId selectedModels w Hjob)). }
  assert (Hsame : dispatch mediaId selectedModels w = processMedia mediaId selectedModels w).
  { unfold dispatch, dispatchWith, catch. fold processMedia.
    destruct (processMedia mediaId selectedModels w) as [[[] | e] w']; [reflexivity | discriminate]. }
  split; [exact Hreturns | split; [exact Hsame | split]].
  - destruct (getMediaUpload mediaId (storage w)) as [job |] eqn:Hjob.
    + unfold dispatch.
      rewrite (dispatchWith_status simulatedAnalysis simulatedAnalysis_store_preserving
                 mediaId selectedModels w job Hjob).
      fold processMedia. rewrite Hreturns. discriminate.
    + unfold run, dispatch.
      rewrite (proj2 (dispatch_without_job simulatedAnalysis mediaId selectedModels w Hjob)).
      cbn [snd]. unfold statusOf. rewrite Hjob. discriminate.
  - intros other Hother.
    destruct (getMediaUpload mediaId (storage w)) as [job |] eqn:Hjob.
    + unfold run, dispatch, dispatchWith, catch.
      rewrite (processMediaWith_existing simulatedAnalysis mediaId selectedModels w job Hjob).
      pose proof (for_of_jobs simulatedAnalysis simulatedAnalysis_store_preserving mediaId
                    (jobIsVideo job)
                    (modelsToUse (getDetectionModels (storage w)) selectedModels
                                 (jobIsVideo job))
                    (with_storage w (snd (updateMediaStatus mediaId "processing" (storage w)))))
        as Hjobs.
      pose proof (for_of_simulated_returns mediaId (jobIsVideo job)
                    (modelsToUse (getDetectionModels (storage w)) selectedModels
                                 (jobIsVideo job))
                    (with_storage w (snd (updateMediaStatus mediaId "processing" (storage w)))))
        as Hloop.
      destruct (for_of _ _ _) as [[[] | e] w2]; [| discriminate].
      cbn [snd storage with_storage] in *.
      rewrite (updateMediaStatus_other mediaId other "completed" (storage w2) Hother).
      unfold getMediaUpload at 1. rewrite Hjobs.
      apply (updateMediaStatus_other mediaId other "processing" (storage w) Hother).
    + unfold run, dispatch.
      now rewrite (proj2 (dispatch_without_job simulatedAnalysis mediaId selectedModels w Hjob)).
Qed.

(** X13.  An upload without [selectedModels] (missing or empty text) takes
    the ids of all models of the registry as the selection, so that the
    [isActive] flag is not consulted: the job is analysed with every model of
    a compatible type, active or not. *)
Theorem upload_without_selection_ignores_isActive :
  forall (w : World) (isVideo : bool),
    extractSelectedModels None w = extractSelectedModels (Some EmptyString) w
    /\ exists selectedModels,
         extractSelectedModels None w = (Js.Normal selectedModels, w)
         /\ modelsToUse (getDetectionModels (storage w)) selectedModels isVideo
            = filter (compatible isVideo) (getDetectionModels (storage w)).
Proof.
  intros w isVideo. split; [reflexivity |].
  exists (map (fun model => Js.of_Z (DetectionModel.id model)) (getDetectionModels (storage w))).
  split; [reflexivity |].
  unfold modelsToUse. rewrite length_map.
  destruct (getDetectionModels (storage w)) as [| model rest] eqn:Hall; [reflexivity |].
  rewrite <- Hall. replace (0 <? Z.of_nat (length (getDetectionModels (storage w)))) with true
    by (rewrite Hall; cbn [length]; symmetry; apply Z.ltb_lt; lia).
  apply filter_ext_in. intros m Hin.
  rewrite <- map_map.
  rewrite (proj2 (Array_includes_ids _ _) (in_map DetectionModel.id _ _ Hin)).
  reflexivity.
Qed.

(** ** The pipeline keeps the invariant of the store *)

Lemma extractSelectedModels_pure (body_selectedModels : option string) (w : World) :
  exists selectedModels,
    extractSelectedModels body_selectedModels w = (Js.Normal selectedModels, w).
Proof.
  unfold extractSelectedModels.
  destruct body_selectedModels as [[| c rest] |]; try (eexists; reflexivity).
  destruct (parseSelectedModels (String c rest)); eexists; reflexivity.
Qed.

Section PipelineInvariant.

Variable produce : Producer.
Hypothesis Hpure : store_preserving produce.

Lemma analyseWith_ok (mediaId : Z) (isVideo : bool) (model : DetectionModel.t) (w : World) :
  store_ok (storage w) -> store_ok (storage (snd (analyseWith produce mediaId isVideo model w))).
Proof.
  intros Hok. unfold analyseWith, bind at 1.
  pose proof (Hpure isVideo model w) as Hsame.
  destruct (produce isVideo model w) as [[produced | e] w1]; cbn [snd] in *.
  - cbn. rewrite Hsame.
    exact (createAnalysisResult_ok (clock w1 0)
             (InsertAnalysisResult.mk mediaId (DetectionModel.id model)
                                      (fst produced) (snd produced))
             (storage w) Hok).
  - now rewrite Hsame.
Qed.

Lemma dispatchWith_ok (mediaId : Z) (selectedModels : list Js.value) (w : World) :
  store_ok (storage w) ->
  store_ok (storage (run (dispatchWith produce mediaId selectedModels) w)).
Proof.
  intros Hok.
  destruct (getMediaUpload mediaId (storage w)) as [job |] eqn:Hjob.
  - unfold run, dispatchWith, catch.
    rewrite (processMediaWith_existing produce mediaId selectedModels w job Hjob).
    assert (Hloop : store_ok (storage (loopEnd produce mediaId selectedModels w job))).
    { unfold loopEnd.
      apply (for_of_invariant (fun w0 => store_ok (storage w0))).
      - intros model w0. apply analyseWith_ok.
      - unfold loopStart. cbn [storage with_storage]. now apply updateMediaStatus_ok. }
    unfold loopEnd, loopStart in Hloop.
    destruct (for_of _ _ _) as [[[] | e] w2]; cbn [snd storage with_storage] in *.
    + now apply updateMediaStatus_ok.
    + unfold bind, call, ret.
      pose proof (updateMediaStatus_ok mediaId "failed" (storage w2) Hloop) as Hfailed.
      destruct (updateMediaStatus mediaId "failed" (storage w2)). exact Hfailed.
  - unfold run.
    now rewrite (proj2 (dispatch_without_job produce mediaId selectedModels w Hjob)).
Qed.

Lemma uploadWith_ok (file : InsertMediaUpload.t) (body_selectedModels : option string)
      (w : World) :
  store_ok (storage w) ->
  store_ok (storage (run (uploadWith produce file body_selectedModels) w)).
Proof.
  intros Hok. unfold run, uploadWith, bind at 1.
  assert (Hcreated : store_ok (storage (snd (storage_createMediaUpload file w))))
    by (cbn; now apply createMediaUpload_ok).
  destruct (storage_createMediaUpload file w) as [[mediaUpload | e] w1]; cbn [snd] in *;
    [| assumption].
  unfold bind at 1.
  destruct (extractSelectedModels_pure body_selectedModels w1) as [selectedModels ->].
  unfold bind at 1.
  pose proof (dispatchWith_ok (MediaUpload.id mediaUpload) selectedModels w1 Hcreated) as Hend.
  unfold run in Hend.
  destruct (dispatchWith produce (MediaUpload.id mediaUpload) selectedModels w1)
    as [[[] | e] w2]; exact Hend.
Qed.

End PipelineInvariant.

(** X14.  The pipeline keeps the invariant of the store: after an upload
    (creation of the job, selection, dispatch with its [catch]) and after any
    dispatch, with any producer that does not write the store itself, the
    store satisfies the invariant again, whether the analysis completed or
    failed. *)
Theorem pipeline_keeps_store_invariant :
  forall (produce : Producer) (w : World),
    store_preserving produce ->
    store_ok (storage w) ->
    (forall file body_selectedModels,
        store_ok (storage (run (uploadWith produce file body_selectedModels) w)))
    /\ (forall mediaId selectedModels,
           store_ok (storage (run (dispatchWith produce mediaId selectedModels) w))).
Proof.
  intros produce w Hpure Hok. split.
  - intros file body. now apply uploadWith_ok.
  - intros mediaId selectedModels. now apply dispatchWith_ok.
Qed.

Lemma pipeline_keeps_store_invariant_witness :
  store_ok (storage (run (uploadWith failingOnCnnLstm videoFile (Some "[1,3]")) initialWorld)).
Proof.
  apply (proj1 (pipeline_keeps_store_invariant failingOnCnnLstm initialWorld
                  failingOnCnnLstm_store_preserving newMemStorage_ok)).
Defined.

(** ** One result for each selected model *)

Lemma filter_keeps_distinct_keys {V K : Type} (key : V -> K)
      (keep : V -> bool) (values : list V)
      (Hdistinct : NoDup (map key values)) :
  NoDup (map key (filter keep values)).
Proof.
  revert Hdistinct.
  induction values as [| v rest IH]; cbn; intros Hnodup; [constructor |].
  inversion Hnodup as [| ? ? Hout Hrest]; subst.
  destruct (keep v); cbn; [| now apply IH].
  constructor; [| now apply IH].
  intros Hin. apply Hout. apply in_map_iff in Hin as (x & <- & Hx).
  apply filter_In in Hx as [Hx _]. now apply in_map.
Qed.

Lemma modelsToUse_filter (availableModels : list DetectionModel.t)
      (selectedModels : list Js.value) (isVideo : bool) :
  exists keep,
    modelsToUse availableModels selectedModels isVideo = filter keep availableModels
    /\ forall model, keep model = true -> compatible isVideo model = true.
Proof.
  unfold modelsToUse. destruct (0 <? Z.of_nat (length selectedModels)).
  - eexists. split; [reflexivity |]. intros model H. now apply andb_true_iff in H.
  - eexists. split; [reflexivity |]. intros model H. now apply andb_true_iff in H.
Qed.

(** X15.  For a job without results, in a store that satisfies the
    invariant, [processMedia] stores exactly one result for each model of
    [modelsToUse], in the order of the registry: no model gets two results,
    even when its id is listed twice in [selectedModels]; each result refers
    to a model of the registry whose type is compatible with the job; and the
    report, when there is one, has one entry of [modelResults] per selected
    model. *)
Theorem processMedia_one_result_per_model :
  forall (mediaId : Z) (selectedModels : list Js.value) (w : World) (job : MediaUpload.t),
    store_ok (storage w) ->
    getMediaUpload mediaId (storage w) = Some job ->
    getAnalysisResultsByMediaId mediaId (storage w) = [] ->
    let final := storage (run (dispatch mediaId selectedModels) w) in
    let selected :=
      modelsToUse (getDetectionModels (storage w)) selectedModels (jobIsVideo job) in
    statusOf mediaId final = Some "completed"
    /\ resultModelIds mediaId final = map DetectionModel.id selected
    /\ NoDup (resultModelIds mediaId final)
    /\ (forall id, In id (resultModelIds mediaId final) ->
          exists model,
            getDetectionModel id final = Some model
            /\ compatible (jobIsVideo job) model = true)
    /\ (forall report,
          getCompleteAnalysis mediaId final = Some report ->
          map ModelResult.modelId (AnalysisResponse.modelResults report)
          = map DetectionModel.id selected).
Proof.
  intros mediaId selectedModels w job Hok Hjob Hnone final selected.
  pose proof (store_ok_fresh_result_ids _ Hok) as Hfresh.
  destruct (processMedia_completes mediaId selectedModels w job Hjob Hfresh)
    as (_ & Hstatus & Hids).
  fold final in Hstatus, Hids. fold selected in Hids.
  unfold resultModelIds at 2 in Hids. rewrite Hnone in Hids. cbn [map app] in Hids.
  destruct Hok as (_ & _ & Hm & _).
  pose proof (keyed_values_ids DetectionModel.id _ _ Hm) as Hkeys.
  destruct (modelsToUse_filter (getDetectionModels (storage w)) selectedModels (jobIsVideo job))
    as (keep & Hfilter & Hkeep).
  fold selected in Hfilter.
  assert (Hmodels : detectionModels final = detectionModels (storage w)).
  { subst final. unfold dispatch.
    destruct (dispatch_end_results simulatedAnalysis mediaId selectedModels w job Hjob)
      as (_ & -> & _).
    unfold loopEnd.
    pose proof (for_of_models simulatedAnalysis simulatedAnalysis_store_preserving mediaId
                  (jobIsVideo job)
                  (modelsToUse (getDetectionModels (storage w)) selectedModels (jobIsVideo job))
                  (loopStart mediaId w)) as Hloop.
    assert (Hfresh1 : fresh_result_ids (storage (loopStart mediaId w))).
    { intros k. destruct (loopStart_results mediaId w) as (-> & -> & _). apply Hfresh. }
    specialize (Hloop Hfresh1).
    destruct (for_of _ _ (loopStart mediaId w)) as [completion w2].
    destruct Hloop as (_ & _ & Hsame & _). cbn [snd]. rewrite Hsame.
    apply loopStart_results. }
  split; [assumption | split; [assumption | split; [| split]]].
  - rewrite Hids, Hfilter. apply filter_keeps_distinct_keys.
    unfold getDetectionModels. rewrite Hkeys. apply Hm.
  - intros id Hin. rewrite Hids, Hfilter in Hin.
    apply in_map_iff in Hin as (model & <- & Hin). apply filter_In in Hin as [Hin Hkept].
    exists model. split; [| now apply Hkeep].
    unfold getDetectionModel. rewrite Hmodels.
    unfold getDetectionModels, Js.values in Hin.
    apply in_map_iff in Hin as ([k m] & Heq & Hin). cbn in Heq. subst m.
    destruct Hm as (_ & Hnodup & _ & Hall).
    rewrite Forall_forall in Hall. destruct (Hall _ Hin) as [_ Hid]. cbn in Hid.
    rewrite Hid. now apply in_get.
  - intros report Hreport.
    destruct (getCompleteAnalysis_echo _ _ _ Hreport) as (_ & _ & _ & _ & _ & _ & ->).
    exact Hids.
Qed.

Lemma processMedia_one_result_per_model_witness :
  resultModelIds 1 (storage (run (dispatch 1 [Js.of_Z 3; Js.of_Z 1; Js.of_Z 3]) worldWithJob))
  = [1; 3].
Proof.
  assert (Hok : store_ok (storage worldWithJob))
    by (apply createMediaUpload_ok, newMemStorage_ok).
  destruct (processMedia_one_result_per_model 1 [Js.of_Z 3; Js.of_Z 1; Js.of_Z 3]
              worldWithJob
              (MediaUpload.mk 1 "clip.mp4" 5000 "video/mp4" None 1700000000000 "pending")
              Hok eq_refl eq_refl) as (_ & Hids & _).
  rewrite Hids. reflexivity.
Defined.

(** ** What the simulated analysis stores *)

(** One iteration of the loop with the simulated analysis, written out. *)
Lemma analyseWith_simulated (mediaId : Z) (isVideo : bool) (model : DetectionModel.t)
      (w : World) :
  exists details,
    ResultDetails.manipulationTypes details = Some (simulatedCandidates (heapNext w))
    /\ analyseWith simulatedAnalysis mediaId isVideo model w
       = (Js.Normal tt,
          mkWorld
            (snd (createAnalysisResult (clock w O)
                    (InsertAnalysisResult.mk mediaId (DetectionModel.id model)
                       (simulatedScore (DetectionModel.name model) (randoms w O)) details)
                    (storage w)))
            (S (S (S (heapNext w))))
            (fun k => clock w (S k))
            (fun k => randoms w (S k))).
Proof. eexists. split; cycle 1; reflexivity. Qed.

(** The product with 35 and the sum with 60 are rounded to doubles: they
    stay between the integers that bound them, and 95 itself is reached. *)
Lemma simulatedScore_range (name : string) (r : Q) :
  (0 <= r)%Q -> (r < 1)%Q -> 60 <= simulatedScore name r <= 95.
Proof.
  intros Hlo Hhi. unfold simulatedScore.
  destruct (Js.includes name "CNN-LSTM"); [lia |].
  destruct (Js.includes name "FaceForensics"); [lia |].
  unfold Js.Math_floor, Js.add, Js.mul.
  change (inject_Z (95 - 60)) with (inject_Z 35).
  assert (Hproduct : (Qabs (r * inject_Z 35) < 2 ^ 53)%Q).
  { apply Qabs_Qlt_condition. change (inject_Z 35) with 35%Q. split.
    - apply Qlt_le_trans with 0%Q; [reflexivity | lra].
    - apply Qlt_trans with 35%Q; [lra | reflexivity]. }
  assert (H0 : (inject_Z 0 <= Js.double (r * inject_Z 35))%Q).
  { apply double_integer_ge; [assumption |]. change (inject_Z 35) with 35%Q.
    change (inject_Z 0) with 0%Q. lra. }
  assert (H35 : (Js.double (r * inject_Z 35) <= inject_Z 35)%Q).
  { apply double_integer_le; [assumption |]. change (inject_Z 35) with 35%Q. lra. }
  set (product := Js.double (r * inject_Z 35)) in *. clearbody product.
  change (inject_Z 0) with 0%Q in H0. change (inject_Z 35) with 35%Q in H35.
  assert (Hsum : (Qabs (product + inject_Z 60) < 2 ^ 53)%Q).
  { apply Qabs_Qlt_condition. change (inject_Z 60) with 60%Q. split.
    - apply Qlt_le_trans with 0%Q; [reflexivity | lra].
    - apply Qle_lt_trans with 95%Q; [lra | reflexivity]. }
  assert (H60 : (inject_Z 60 <= Js.double (product + inject_Z 60))%Q).
  { apply double_integer_ge; [assumption |]. lra. }
  assert (H95 : (Js.double (product + inject_Z 60) <= inject_Z 95)%Q).
  { apply double_integer_le; [assumption |]. change (inject_Z 60) with 60%Q.
    change (inject_Z 95) with 95%Q. lra. }
  apply Qfloor_resp_le in H60, H95. now rewrite Qfloor_Z in H60, H95.
Qed.

Lemma simulated_step_results (mediaId : Z) (isVideo : bool) (model : DetectionModel.t)
      (w : World) :
  fresh_result_ids (storage w) ->
  exists stored,
    AnalysisResult.confidenceScore stored
    = simulatedScore (DetectionModel.name model) (randoms w O)
    /\ ResultDetails.manipulationTypes (AnalysisResult.resultDetails stored)
       = Some (simulatedCandidates (heapNext w))
    /\ getAnalysisResultsByMediaId mediaId
         (storage (snd (analyseWith simulatedAnalysis mediaId isVideo model w)))
       = (getAnalysisResultsByMediaId mediaId (storage w) ++ [stored])%list
    /\ fresh_result_ids (storage (snd (analyseWith simulatedAnalysis mediaId isVideo model w)))
    /\ heapNext (snd (analyseWith simulatedAnalysis mediaId isVideo model w))
       = S (S (S (heapNext w)))
    /\ randoms (snd (analyseWith simulatedAnalysis mediaId isVideo model w))
       = (fun k => randoms w (S k)).
Proof.
  intros Hfresh.
  destruct (analyseWith_simulated mediaId isVideo model w) as (details & Hdetails & ->).
  cbn [snd storage heapNext randoms].
  set (result := InsertAnalysisResult.mk mediaId (DetectionModel.id model)
                   (simulatedScore (DetectionModel.name model) (randoms w O)) details).
  exists (fst (createAnalysisResult (clock w O) result (storage w))).
  split; [reflexivity | split; [exact Hdetails | split; [| split; [| split]]]];
    try reflexivity.
  - rewrite (createAnalysisResult_results (clock w O) result (storage w) Hfresh mediaId).
    change (InsertAnalysisResult.mediaId result) with mediaId. now rewrite Z.eqb_refl.
  - apply (createAnalysisResult_fresh (clock w O) result (storage w) Hfresh).
Qed.

Lemma simulated_keeps_scores (mediaId : Z) (isVideo : bool) (model : DetectionModel.t)
      (w : World) :
  scores_in_range mediaId w ->
  scores_in_range mediaId (snd (analyseWith simulatedAnalysis mediaId isVideo model w)).
Proof.
  intros (Hrandoms & Hfresh & Hscores).
  destruct (simulated_step_results mediaId isVideo model w Hfresh)
    as (stored & Hscore & _ & Hresults & Hfresh' & _ & Hshift).
  split; [| split; [assumption |]].
  - intros k. rewrite Hshift. apply Hrandoms.
  - rewrite Hresults. apply Forall_app. split; [assumption |].
    constructor; [| constructor]. rewrite Hscore.
    apply simulatedScore_range; apply Hrandoms.
Qed.

(** X16.  With the simulated analysis and random numbers from 0 to 1, every
    result [processMedia] stores has a confidence score from 60 to 95; the
    score 95 is reached, by the rounding of the sum, for a random number just
    below 1.  When the results the job had before are in that range too, so
    is the [overallConfidence] of its report (of fewer than [2 ^ 32] results,
    as every array has), and [isDeepfake] is false only if the overall
    confidence is exactly 60. *)
Theorem pipeline_scores_from_60_to_95 :
  forall (mediaId : Z) (selectedModels : list Js.value) (w : World) (job : MediaUpload.t),
    randoms_in_range w ->
    fresh_result_ids (storage w) ->
    getMediaUpload mediaId (storage w) = Some job ->
    (forall result, In result (getAnalysisResultsByMediaId mediaId (storage w)) ->
                    60 <= AnalysisResult.confidenceScore result <= 95) ->
    let final := storage (run (dispatch mediaId selectedModels) w) in
    (forall result, In result (getAnalysisResultsByMediaId mediaId final) ->
                    60 <= AnalysisResult.confidenceScore result <= 95)
    /\ (forall report,
          getCompleteAnalysis mediaId final = Some report ->
          Z.of_nat (length (getAnalysisResultsByMediaId mediaId final)) < 2 ^ 32 ->
          60 <= AnalysisResponse.overallConfidence report <= 95
          /\ (AnalysisResponse.isDeepfake report = false ->
              AnalysisResponse.overallConfidence report = 60))
    /\ (exists r, (0 <= r)%Q /\ (r < 1)%Q /\ simulatedScore "EfficientNet-B4" r = 95).
Proof.
  intros mediaId selectedModels w job Hrandoms Hfresh Hjob Hbefore final.
  assert (Hstart : scores_in_range mediaId (loopStart mediaId w)).
  { destruct (loopStart_results mediaId w) as (Hresults & Hnext & _ & _ & Hr & _).
    split; [| split].
    - intros k. rewrite Hr. apply Hrandoms.
    - intros k. rewrite Hresults, Hnext. apply Hfresh.
    - rewrite (results_by_map mediaId _ _ Hresults). now apply Forall_forall. }
  assert (Hend : scores_in_range mediaId
                   (loopEnd simulatedAnalysis mediaId selectedModels w job)).
  { unfold loopEnd. apply for_of_invariant; [| assumption].
    intros model w0. apply simulated_keeps_scores. }
  destruct Hend as (_ & _ & Hscores).
  assert (Hfinal : forall result, In result (getAnalysisResultsByMediaId mediaId final) ->
                                  60 <= AnalysisResult.confidenceScore result <= 95).
  { subst final. unfold dispatch.
    destruct (dispatch_end_results simulatedAnalysis mediaId selectedModels w job Hjob)
      as (Hsame & _).
    rewrite (results_by_map mediaId _ _ Hsame). now apply Forall_forall. }
  split; [assumption | split].
  - intros report Hreport Hlength.
    assert (Hsmall : sumOfMagnitudes (getAnalysisResultsByMediaId mediaId final) < 2 ^ 53).
    { apply Z.le_lt_trans
        with (95 * Z.of_nat (length (getAnalysisResultsByMediaId mediaId final))); [| lia].
      apply sumOfMagnitudes_le, Forall_forall. intros result Hin.
      specialize (Hfinal result Hin). lia. }
    pose proof (overallConfidence_between mediaId final report 60 95 Hreport Hsmall Hfinal)
      as Hoverall.
    split; [assumption |].
    destruct (getCompleteAnalysis_some _ _ _ Hreport) as (_ & _ & _ & _ & _ & _ & Hdeep & _).
    rewrite Hdeep. intros Hfalse. apply Z.ltb_ge in Hfalse. lia.
  - exists (1 - (1 # 2 ^ 52))%Q. vm_compute. repeat split; discriminate.
Qed.

Lemma pipeline_scores_from_60_to_95_witness :
  Forall (fun result => 60 <= AnalysisResult.confidenceScore result <= 95)
         (getAnalysisResultsByMediaId 1
            (storage (run (dispatch 1 [Js.of_Z 1; Js.of_Z 2]) worldWithJob)))
  /\ exists report,
       getCompleteAnalysis 1 (storage (run (dispatch 1 [Js.of_Z 1; Js.of_Z 2]) worldWithJob))
       = Some report
       /\ 60 <= AnalysisResponse.overallConfidence report <= 95.
Proof.
  pose proof (pipeline_scores_from_60_to_95 1 [Js.of_Z 1; Js.of_Z 2] worldWithJob
                (MediaUpload.mk 1 "clip.mp4" 5000 "video/mp4" None 1700000000000 "pending"))
    as H.
  destruct H as (Hscores & Hreport & _).
  - intros k. cbn. split; [discriminate | reflexivity].
  - intros k H. contradiction H.
  - reflexivity.
  - intros result H. contradiction H.
  - split; [now apply Forall_forall |].
    assert (Hsome : exists report,
               getCompleteAnalysis 1
                 (storage (run (dispatch 1 [Js.of_Z 1; Js.of_Z 2]) worldWithJob))
               = Some report) by (vm_compute; eexists; reflexivity).
    destruct Hsome as [report Hsome]. exists report. split; [exact Hsome |].
    apply (Hreport report Hsome). vm_compute. reflexivity.
Defined.

(** ** The objects of the manipulation candidates *)

Lemma Set_of_distinct {A : Type} (ident : A -> nat) (xs seen : list A) :
  NoDup (map ident xs) ->
  (forall x, In x xs -> ~ In (ident x) (map ident seen)) ->
  Js.Set_of (fun a b : A => Nat.eqb (ident a) (ident b)) seen xs = xs.
Proof.
  revert seen. induction xs as [| a rest IH]; intros seen Hnodup Hnew; cbn; [reflexivity |].
  inversion Hnodup as [| ? ? Hout Hrest]; subst.
  destruct (existsb (fun b : A => Nat.eqb (ident a) (ident b)) seen) eqn:Hseen.
  - exfalso. apply (Hnew a (or_introl eq_refl)). now apply (seen_spec ident a seen).
  - f_equal. apply IH; [assumption |].
    intros x Hx [Heq | Hin].
    + apply Hout. rewrite Heq. now apply in_map.
    + apply (Hnew x (or_intror Hx) Hin).
Qed.

Lemma candidatesOf_snoc (results : list AnalysisResult.t) (stored : AnalysisResult.t) :
  candidatesOf (results ++ [stored])
  = (candidatesOf results
     ++ Js.or_else (ResultDetails.manipulationTypes (AnalysisResult.resultDetails stored)) [])%list.
Proof. unfold candidatesOf. rewrite flat_map_app. cbn. now rewrite app_nil_r. Qed.

Lemma simulated_keeps_distinct (mediaId : Z) (isVideo : bool) (model : DetectionModel.t)
      (w : World) :
  candidates_distinct mediaId w ->
  candidates_distinct mediaId (snd (analyseWith simulatedAnalysis mediaId isVideo model w)).
Proof.
  unfold candidates_distinct. intros (Hfresh & Hnodup & Hold & Hcontent).
  destruct (simulated_step_results mediaId isVideo model w Hfresh)
    as (stored & _ & Hcands & Hresults & Hfresh' & Hnext & _).
  rewrite Hresults, Hnext, candidatesOf_snoc, Hcands. cbn [Js.or_else].
  rewrite Forall_forall in Hold.
  split; [assumption | split; [| split]].
  - rewrite map_app. apply NoDup_app; [assumption | |].
    + cbn. repeat constructor; cbn; lia.
    + intros r Hin Hnew. apply in_map_iff in Hin as (m & <- & Hm).
      apply Hold in Hm. cbn in Hnew. lia.
  - apply Forall_app. split.
    + apply Forall_forall. intros m Hm. apply Hold in Hm. lia.
    + repeat constructor; cbn; lia.
  - rewrite map_app, flat_map_app, Hcontent. reflexivity.
Qed.

Lemma three_per_result {A : Type} (l : list A) :
  length (flat_map (fun _ => threePairs) l) = (3 * length l)%nat.
Proof. induction l as [| a rest IH]; cbn; [reflexivity | rewrite IH; lia]. Qed.

(** X17.  With the simulated analysis the manipulation types of a report are
    never merged: for a job that had no result before its dispatch, the
    report lists the three candidates once for every result, so that its
    (type, confidence) pairs are the three pairs repeated as many times as
    there are results. *)
Theorem pipeline_never_merges_manipulation_types :
  forall (mediaId : Z) (selectedModels : list Js.value) (w : World) (job : MediaUpload.t)
         (report : AnalysisResponse.t),
    fresh_result_ids (storage w) ->
    getMediaUpload mediaId (storage w) = Some job ->
    getAnalysisResultsByMediaId mediaId (storage w) = [] ->
    let final := storage (run (dispatch mediaId selectedModels) w) in
    getCompleteAnalysis mediaId final = Some report ->
    Permutation (map ManipulationType.content (AnalysisResponse.manipulationTypes report))
                (flat_map (fun _ => threePairs) (getAnalysisResultsByMediaId mediaId final))
    /\ length (AnalysisResponse.manipulationTypes report)
       = (3 * length (AnalysisResponse.modelResults report))%nat.
Proof.
  intros mediaId selectedModels w job report Hfresh Hjob Hnone final Hreport.
  assert (Hstart : candidates_distinct mediaId (loopStart mediaId w)).
  { destruct (loopStart_results mediaId w) as (Hresults & Hnext & _).
    unfold candidates_distinct. rewrite (results_by_map mediaId _ _ Hresults), Hnone.
    split; [| split; [constructor | split; [constructor | reflexivity]]].
    intros k. rewrite Hresults, Hnext. apply Hfresh. }
  assert (Hend : candidates_distinct mediaId
                   (loopEnd simulatedAnalysis mediaId selectedModels w job)).
  { unfold loopEnd. apply for_of_invariant; [| assumption].
    intros model w0. apply simulated_keeps_distinct. }
  destruct (dispatch_end_results simulatedAnalysis mediaId selectedModels w job Hjob)
    as (Hsame & _).
  unfold candidates_distinct in Hend.
  rewrite <- (results_by_map mediaId _ _ Hsame) in Hend.
  fold (dispatch mediaId selectedModels) in Hend. fold final in Hend.
  destruct Hend as (_ & Hnodup & _ & Hcontent).
  destruct (getCompleteAnalysis_some _ _ _ Hreport)
    as (_ & first & rest & _ & Hresults & _ & _ & _ & Htypes & _).
  destruct (getCompleteAnalysis_echo _ _ _ Hreport) as (_ & _ & _ & _ & _ & _ & Hids).
  assert (Hlist : Permutation (AnalysisResponse.manipulationTypes report)
                              (candidatesOf (getAnalysisResultsByMediaId mediaId final))).
  { rewrite Htypes, <- Hresults. unfold collectManipulationTypes.
    fold (candidatesOf (getAnalysisResultsByMediaId mediaId final)).
    rewrite (sort_perm ManipulationType.confidence).
    unfold ManipulationType.same_object.
    rewrite (Set_of_distinct ManipulationType.ref); [reflexivity | assumption |].
    intros x _ []. }
  split.
  - rewrite <- Hcontent. now apply Permutation_map.
  - rewrite (Permutation_length Hlist).
    rewrite <- (length_map ManipulationType.content), Hcontent.
    rewrite <- (length_map ModelResult.modelId), Hids. unfold resultModelIds.
    rewrite length_map. apply three_per_result.
Qed.

Lemma pipeline_never_merges_manipulation_types_witness :
  exists report,
    getCompleteAnalysis 1 (storage (run (dispatch 1 [Js.of_Z 1; Js.of_Z 2; Js.of_Z 3])
                                        worldWithJob)) = Some report
    /\ length (AnalysisResponse.manipulationTypes report) = 9%nat.
Proof.
  assert (Hsome : exists report,
             getCompleteAnalysis 1 (storage (run (dispatch 1 [Js.of_Z 1; Js.of_Z 2; Js.of_Z 3])
                                                 worldWithJob)) = Some report
             /\ length (AnalysisResponse.modelResults report) = 3%nat)
    by (vm_compute; eexists; split; reflexivity).
  destruct Hsome as (report & Hreport & Hthree).
  exists report. split; [exact Hreport |].
  destruct (pipeline_never_merges_manipulation_types 1 [Js.of_Z 1; Js.of_Z 2; Js.of_Z 3]
              worldWithJob
              (MediaUpload.mk 1 "clip.mp4" 5000 "video/mp4" None 1700000000000 "pending")
              report (fun k H => match H with end) eq_refl eq_refl Hreport) as (_ & Hlength).
  rewrite Hlength, Hthree. reflexivity.
Defined.

(** ** Ids in the path of a route *)

Lemma digitChar_digit (d : Z) :
  0 <= d < 10 -> Js.hex_digit (digitChar d) = Some d /\ Js.digit (digitChar d) = Some d.
Proof.
  intros Hd.
  assert (H : d = 0 \/ d = 1 \/ d = 2 \/ d = 3 \/ d = 4 \/ d = 5 \/ d = 6 \/ d = 7
              \/ d = 8 \/ d = 9) by lia.
  repeat (destruct H as [-> | H]; [split; reflexivity |]). subst. split; reflexivity.
Qed.

(** Reading the decimal text of [n] adds its digits to the number read so
    far. *)
Lemma digits_decimalDigits (fuel : nat) :
  forall (n acc : Z) (count : nat),
    (0 < fuel)%nat ->
    0 <= n < 10 ^ Z.of_nat fuel ->
    exists k,
      (0 < k)%nat
      /\ forall tail,
           Js.digits 10 acc count (decimalDigits fuel n tail)
           = Js.digits 10 (acc * 10 ^ Z.of_nat k + n) (count + k) tail.
Proof.
  induction fuel as [| fuel IH]; intros n acc count Hfuel Hn; [lia |].
  cbn [decimalDigits]. destruct (Z.ltb_spec n 10) as [Hsmall | Hbig].
  - exists 1%nat. split; [lia |]. intros tail. cbn [Js.digits].
    destruct (digitChar_digit n ltac:(lia)) as [-> _].
    replace (n <? 10) with true by (symmetry; apply Z.ltb_lt; lia).
    change (10 ^ Z.of_nat 1) with 10. f_equal; lia.
  - assert (Hdiv : 0 <= n / 10 < 10 ^ Z.of_nat fuel).
    { rewrite Nat2Z.inj_succ, Z.pow_succ_r in Hn by lia.
      split; [apply Z.div_pos; lia | apply Z.div_lt_upper_bound; lia]. }
    assert (Hone : 1 <= n / 10) by (apply Z.div_le_lower_bound; lia).
    assert (Hfuel' : (0 < fuel)%nat).
    { destruct fuel; [cbn in Hdiv; lia | lia]. }
    destruct (IH (n / 10) acc count Hfuel' Hdiv) as (k & Hk & Hread).
    exists (S k). split; [lia |]. intros tail. rewrite Hread. cbn [Js.digits].
    destruct (digitChar_digit (n mod 10) ltac:(apply Z.mod_pos_bound; lia)) as [-> _].
    replace (n mod 10 <? 10) with true
      by (symmetry; apply Z.ltb_lt; apply Z.mod_pos_bound; lia).
    rewrite Nat2Z.inj_succ, Z.pow_succ_r by lia.
    pose proof (Z.div_mod n 10 ltac:(lia)) as Hdm.
    f_equal; lia.
Qed.

Lemma decimalDigits_all_decimal (fuel : nat) :
  forall (n : Z) (tail : string),
    0 <= n -> all_decimal tail = true -> all_decimal (decimalDigits fuel n tail) = true.
Proof.
  induction fuel as [| fuel IH]; intros n tail Hn Htail; cbn [decimalDigits]; [assumption |].
  destruct (Z.ltb_spec n 10) as [Hsmall | Hbig].
  - cbn [all_decimal]. now destruct (digitChar_digit n ltac:(lia)) as [_ ->].
  - apply IH; [apply Z.div_pos; lia |]. cbn [all_decimal].
    now destruct (digitChar_digit (n mod 10) ltac:(apply Z.mod_pos_bound; lia)) as [_ ->].
Qed.

Lemma decimalDigits_not_empty (fuel : nat) (n : Z) :
  decimalDigits (S fuel) n EmptyString <> EmptyString.
Proof.
  assert (H : forall f m tail, tail <> EmptyString -> decimalDigits f m tail <> EmptyString).
  { induction f as [| f IH]; intros m tail Htail; cbn [decimalDigits]; [assumption |].
    destruct (m <? 10); [discriminate | apply IH; discriminate]. }
  cbn [decimalDigits]. destruct (n <? 10); [discriminate | apply H; discriminate].
Qed.

Lemma digits_count (radix : Z) (s : string) :
  forall (acc : Z) (count : nat),
    (count <= snd (fst (Js.digits radix acc count s)))%nat.
Proof.
  induction s as [| c rest IH]; intros acc count; cbn [Js.digits]; [cbn; lia |].
  destruct (Js.hex_digit c) as [d |]; [| cbn; lia].
  destruct (d <? radix); [| cbn; lia].
  specialize (IH (acc * radix + d) (S count)). lia.
Qed.

Lemma parseInt_decimal (s : string) :
  all_decimal s = true -> s <> EmptyString ->
  Js.parseInt s = Js.of_Z (fst (fst (Js.digits 10 0 0 s))).
Proof.
  destruct s as [| c rest]; [congruence |]. intros Hall _.
  assert (Hfinish : forall acc read text,
             (0 < read)%nat ->
             (let '(n, count, _) := Js.digits 10 acc read text in
              match count with
              | O => Js.NaN
              | S _ => Js.of_Z n
              end) = Js.of_Z (fst (fst (Js.digits 10 acc read text)))).
  { intros acc read text Hread. pose proof (digits_count 10 text acc read) as Hcount.
    destruct (Js.digits 10 acc read text) as [[n count] r]. cbn in *.
    destruct count; [lia | reflexivity]. }
  destruct c as [[] [] [] [] [] [] [] []]; cbn in Hall; try discriminate Hall;
    try (unfold Js.parseInt; cbn; apply Hfinish; lia).
  destruct rest as [| c2 rest2]; [reflexivity |].
  destruct c2 as [[] [] [] [] [] [] [] []]; cbn in Hall; try discriminate Hall;
    unfold Js.parseInt; cbn; apply Hfinish; lia.
Qed.

(** The id of a route is read back from its decimal text. *)
Lemma paramId_decimal (n : Z) : 0 <= n -> paramId (Number_toString n) = Some n.
Proof.
  intros Hn. unfold paramId, Number_toString.
  replace (n <? 0) with false by (symmetry; apply Z.ltb_ge; lia).
  set (fuel := S (Z.to_nat (Z.log2 n))).
  assert (Hfuel : 0 <= n < 10 ^ Z.of_nat fuel).
  { split; [assumption |]. subst fuel. rewrite Nat2Z.inj_succ.
    destruct (Z.eq_dec n 0) as [-> | Hpos]; [cbn; lia |].
    rewrite Z2Nat.id by apply Z.log2_nonneg.
    pose proof (Z.log2_spec n ltac:(lia)) as [_ Hlt].
    eapply Z.lt_le_trans; [exact Hlt |].
    apply Z.pow_le_mono_l. lia. }
  destruct (digits_decimalDigits fuel n 0 0 ltac:(subst fuel; lia) Hfuel) as (k & Hk & Hread).
  rewrite parseInt_decimal.
  - rewrite Hread. cbn [Js.digits fst]. unfold Js.of_Z.
    replace (0 * 10 ^ Z.of_nat k + n) with n by lia. now rewrite Qfloor_Z.
  - apply decimalDigits_all_decimal; [assumption | reflexivity].
  - apply decimalDigits_not_empty.
Qed.

(** X18.  The two routes that take a job id in their path read the decimal
    text of a non-negative id back to that id: the status route answers 200
    with the status of the job when the job exists and 404 when it does not,
    the analysis route answers 200 with the report of [getCompleteAnalysis]
    and 404 when there is none.  A path whose id [parseInt] cannot read is
    answered 400 by both. *)
Theorem routes_answer_by_id :
  forall (st : MemStorage),
    (forall id,
        0 <= id ->
        getAnalysisStatus (Number_toString id) st
        = match getMediaUpload id st with
          | Some mediaUpload => mkResponse 200 (StatusOnly (MediaUpload.status mediaUpload))
          | None => mkResponse 404 (Message "Media not found")
          end
        /\ getAnalysis (Number_toString id) st
           = match getCompleteAnalysis id st with
             | Some analysis => mkResponse 200 (Report analysis)
             | None => mkResponse 404 (Message "Analysis not found")
             end)
    /\ (forall param,
           Js.parseInt param = Js.NaN ->
           statusCode (getAnalysisStatus param st) = 400
           /\ statusCode (getAnalysis param st) = 400).
Proof.
  intros st. split.
  - intros id Hid. unfold getAnalysisStatus, getAnalysis.
    rewrite (paramId_decimal id Hid).
    split; [destruct (getMediaUpload id st) | destruct (getCompleteAnalysis id st)];
      reflexivity.
  - intros param Hnan. unfold getAnalysisStatus, getAnalysis, paramId.
    rewrite Hnan. split; reflexivity.
Qed.

Lemma routes_answer_by_id_witness :
  getAnalysisStatus (Number_toString 1) storeWithJob = mkResponse 200 (StatusOnly "pending")
  /\ statusCode (getAnalysisStatus "latest" storeWithJob) = 400.
Proof.
  destruct (routes_answer_by_id storeWithJob) as [Hid Hnan].
  split.
  - rewrite (proj1 (Hid 1 ltac:(lia))). reflexivity.
  - exact (proj1 (Hnan "latest" eq_refl)).
Defined.

(** The steps of an upload: the job is created under the next id, the
    selection is extracted without effect, the job is dispatched. *)
Lemma upload_steps (file : InsertMediaUpload.t) (body_selectedModels : option string)
      (w : World) :
  let created := storage_createMediaUpload file w in
  let id := currentMediaId (storage w) in
  exists selectedModels,
    extractSelectedModels body_selectedModels (snd created)
    = (Js.Normal selectedModels, snd created)
    /\ upload file body_selectedModels w
       = (Js.Normal id, run (dispatch id selectedModels) (snd created)).
Proof.
  intros created id.
  destruct (extractSelectedModels_pure body_selectedModels (snd created))
    as [selectedModels Hextract].
  exists selectedModels. split; [assumption |].
  unfold upload, uploadWith, bind at 1.
  change (storage_createMediaUpload file w)
    with (Js.Normal (fst (createMediaUpload (clock w O) file (storage w))), snd created).
  cbv iota. unfold bind at 1. rewrite Hextract. unfold bind at 1, run, dispatch.
  pose proof (dispatchWith_returns simulatedAnalysis id selectedModels (snd created)) as Hret.
  change (MediaUpload.id (fst (createMediaUpload (clock w O) file (storage w)))) with id.
  destruct (dispatchWith simulatedAnalysis id selectedModels (snd created))
    as [[[] | e] w2]; [reflexivity | discriminate].
Qed.

(** X19.  An upload into a store that satisfies the invariant returns the id
    of the job it created, and the status route, asked with the decimal text
    of that id, then answers 200 with the status [completed]: with the
    simulated analysis an uploaded job never ends in [failed] or stays in
    [processing]. *)
Theorem upload_then_status_completed :
  forall (file : InsertMediaUpload.t) (body_selectedModels : option string) (w : World),
    store_ok (storage w) ->
    exists id,
      fst (upload file body_selectedModels w) = Js.Normal id
      /\ 1 <= id
      /\ getMediaUpload id (storage w) = None
      /\ getAnalysisStatus (Number_toString id)
           (storage (run (upload file body_selectedModels) w))
         = mkResponse 200 (StatusOnly "completed").
Proof.
  intros file body w Hok.
  destruct (upload_steps file body w) as (selectedModels & _ & Hupload).
  set (id := currentMediaId (storage w)) in *.
  set (w1 := snd (storage_createMediaUpload file w)) in *.
  exists id. unfold run. rewrite Hupload. cbn [fst snd].
  destruct (createMediaUpload_round_trip_facts (clock w O) file (storage w) Hok)
    as (Hunused & Hjob & Hpos).
  split; [reflexivity | split; [exact Hpos | split; [exact Hunused |]]].
  assert (Hok1 : store_ok (storage w1)) by (apply createMediaUpload_ok; exact Hok).
  destruct (processMedia_completes id selectedModels w1 _ Hjob
              (store_ok_fresh_result_ids _ Hok1)) as (_ & Hstatus & _).
  unfold getAnalysisStatus. rewrite (paramId_decimal id) by lia.
  unfold statusOf in Hstatus.
  destruct (getMediaUpload id (storage (run (dispatch id selectedModels) w1)))
    as [job |]; [| discriminate].
  cbn in Hstatus. inversion Hstatus. reflexivity.
Qed.

Lemma upload_then_status_completed_witness :
  getAnalysisStatus (Number_toString 1) (storage (run (upload videoFile None) initialWorld))
  = mkResponse 200 (StatusOnly "completed").
Proof.
  destruct (upload_then_status_completed videoFile None initialWorld newMemStorage_ok)
    as (id & Hid & _ & _ & Hstatus).
  assert (Hone : fst (upload videoFile None initialWorld) = Js.Normal 1)
    by (vm_compute; reflexivity).
  rewrite Hone in Hid. inversion Hid; subst id. exact Hstatus.
Defined.

(** ** The route for a URL *)

Lemma filetypeOfExtension_cases (fileExtension filetype : string) :
  filetypeOfExtension fileExtension = Some filetype ->
  (fileExtension, filetype) = (".jpg", "image/jpg")
  \/ (fileExtension, filetype) = (".jpeg", "image/jpeg")
  \/ (fileExtension, filetype) = (".png", "image/png")
  \/ (fileExtension, filetype) = (".mp4", "video/mp4")
  \/ (fileExtension, filetype) = (".mov", "video/quicktime").
Proof.
  unfold filetypeOfExtension. cbn [existsb].
  destruct (String.eqb_spec fileExtension ".jpg") as [-> | _];
    [cbn; intros H; inversion H; tauto |].
  destruct (String.eqb_spec fileExtension ".jpeg") as [-> | _];
    [cbn; intros H; inversion H; tauto |].
  destruct (String.eqb_spec fileExtension ".png") as [-> | _];
    [cbn; intros H; inversion H; tauto |].
  cbn [orb].
  destruct (String.eqb_spec fileExtension ".mp4") as [-> | _];
    [intros H; inversion H; tauto |].
  destruct (String.eqb_spec fileExtension ".mov") as [-> | _];
    [intros H; inversion H; tauto | discriminate].
Qed.

(** X20.  The file type the URL route gives to a job is decided by the
    extension alone: it is a video type exactly for [.mp4] and [.mov], an
    extension outside the five known ones is refused, and for [.jpg] the type
    is [image/jpg], the one type of the URL route that the file filter of the
    upload route does not accept. *)
Theorem filetype_of_a_url :
  forall (fileExtension : string),
    (filetypeOfExtension fileExtension = None <->
     ~ In fileExtension [".jpg"; ".jpeg"; ".png"; ".mp4"; ".mov"])
    /\ forall filetype,
         filetypeOfExtension fileExtension = Some filetype ->
         (Js.startsWith filetype "video/" = true <->
          fileExtension = ".mp4" \/ fileExtension = ".mov")
         /\ (fileFilter filetype = false <-> fileExtension = ".jpg").
Proof.
  intros fileExtension. split.
  - split.
    + intros Hnone Hin. cbn in Hin.
      destruct Hin as [<- | [<- | [<- | [<- | [<- | []]]]]]; discriminate.
    + intros Hout. destruct (filetypeOfExtension fileExtension) as [filetype |] eqn:Hsome;
        [| reflexivity].
      exfalso. apply Hout. cbn.
      destruct (filetypeOfExtension_cases _ _ Hsome) as [H | [H | [H | [H | H]]]];
        inversion H; tauto.
  - intros filetype Hsome.
    destruct (filetypeOfExtension_cases _ _ Hsome) as [H | [H | [H | [H | H]]]];
      inversion H; subst; cbn; split; split; intros; try discriminate; try reflexivity;
      try tauto;
      match goal with
      | Hor : _ \/ _ |- _ => destruct Hor; discriminate
      end.
Qed.

Lemma filetype_of_a_url_witness :
  filetypeOfExtension ".jpg" = Some "image/jpg" /\ fileFilter "image/jpg" = false.
Proof.
  split; [reflexivity |].
  apply (proj2 (proj2 (filetype_of_a_url ".jpg") "image/jpg" eq_refl)). reflexivity.
Defined.

(** X21.  In the URL route the job is created before [selectedModels] is
    looked at.  When [selectedModels] is a value that counts as true and is
    not an array (a number, a text, an object, [true]), the route answers 500
    after it has created the job: the job stays in the store in status
    [pending], it is never dispatched, and nothing else changes. *)
Theorem analyzeUrl_bad_selection_leaves_pending_job :
  forall (produce : Producer) (c : ascii) (url filename fileExtension filetype : string)
         (v : Js.value) (w : World),
    filetypeOfExtension fileExtension = Some filetype ->
    truthy v = true ->
    (forall ids, v <> Js.Arr ids) ->
    store_ok (storage w) ->
    let outcome := analyzeUrlWith produce (Some (String c url)) true
                                  (Js.Normal (filename, fileExtension)) (Some v) w in
    let id := currentMediaId (storage w) in
    fst outcome = Js.Normal (mkResponse 500 (Message "Failed to analyze URL"))
    /\ getMediaUpload id (storage w) = None
    /\ getMediaUpload id (storage (snd outcome))
       = Some (MediaUpload.mk id filename 0 filetype None (clock w O) "pending")
    /\ analysisResults (storage (snd outcome)) = analysisResults (storage w)
    /\ (forall other, other <> id ->
          getMediaUpload other (storage (snd outcome)) = getMediaUpload other (storage w)).
Proof.
  intros produce c url filename fileExtension filetype v w Htype Htruthy Harray Hok outcome id.
  assert (Hids : urlModelIds (Some v) = Js.Throw Js.TypeError).
  { unfold urlModelIds. rewrite Htruthy. destruct v; try reflexivity.
    exfalso. now apply (Harray items). }
  subst outcome. unfold analyzeUrlWith. cbn [negb]. rewrite Htype.
  unfold bind at 1.
  change (storage_createMediaUpload (InsertMediaUpload.mk filename 0 filetype None) w)
    with (Js.Normal (fst (createMediaUpload (clock w O)
                            (InsertMediaUpload.mk filename 0 filetype None) (storage w))),
          snd (storage_createMediaUpload (InsertMediaUpload.mk filename 0 filetype None) w)).
  cbv iota. rewrite Hids. unfold ret. cbn [fst snd].
  destruct (createMediaUpload_round_trip_facts (clock w O)
              (InsertMediaUpload.mk filename 0 filetype None) (storage w) Hok)
    as (Hunused & Hjob & _).
  split; [reflexivity | split; [exact Hunused | split; [exact Hjob | split]]].
  - reflexivity.
  - intros other Hne. unfold getMediaUpload. cbn. now apply get_set_other.
Qed.

Lemma analyzeUrl_bad_selection_leaves_pending_job_witness :
  let outcome := analyzeUrl (Some "https://example.org/clip.mp4") true
                            (Js.Normal ("clip.mp4", ".mp4")) (Some (Js.Str "1,3"))
                            initialWorld in
  option_map statusCode
    (match fst outcome with Js.Normal r => Some r | Js.Throw _ => None end) = Some 500
  /\ statusOf 1 (storage (snd outcome)) = Some "pending".
Proof.
  intros outcome.
  destruct (analyzeUrl_bad_selection_leaves_pending_job simulatedAnalysis
              "h"%char "ttps://example.org/clip.mp4" "clip.mp4" ".mp4" "video/mp4"
              (Js.Str "1,3") initialWorld eq_refl eq_refl
              ltac:(intros ids; discriminate) newMemStorage_ok)
    as (Hresponse & _ & Hjob & _).
  split.
  - fold analyzeUrl in Hresponse. fold outcome in Hresponse. now rewrite Hresponse.
  - unfold statusOf. fold analyzeUrl in Hjob. fold outcome in Hjob.
    change (currentMediaId (storage initialWorld)) with 1 in Hjob. now rewrite Hjob.
Defined.

(** X22.  In the URL route a request without [selectedModels], or with a
    value that counts as false, or with an empty array, dispatches the job
    with an empty selection, for which [processMedia] takes the active models
    of a compatible type; the route answers 201 with the id of the job, and
    the job ends in [completed]. *)
Theorem analyzeUrl_without_selection_uses_active_models :
  forall (c : ascii) (url filename fileExtension filetype : string)
         (selectedModels : option Js.value) (w : World),
    filetypeOfExtension fileExtension = Some filetype ->
    selectedModels = None
    \/ (exists v, selectedModels = Some v /\ truthy v = false)
    \/ selectedModels = Some (Js.Arr []) ->
    store_ok (storage w) ->
    let outcome := analyzeUrl (Some (String c url)) true
                              (Js.Normal (filename, fileExtension)) selectedModels w in
    let id := currentMediaId (storage w) in
    fst outcome = Js.Normal (mkResponse 201 (Started "URL analysis started" id))
    /\ statusOf id (storage (snd outcome)) = Some "completed"
    /\ resultModelIds id (storage (snd outcome))
       = (resultModelIds id (storage w)
          ++ map DetectionModel.id
               (filter (fun model =>
                          DetectionModel.isActive model
                          && compatible (Js.startsWith filetype "video/") model)
                       (getDetectionModels (storage w))))%list.
Proof.
  intros c url filename fileExtension filetype selectedModels w Htype Hselection Hok outcome id.
  assert (Hids : urlModelIds selectedModels = Js.Normal []).
  { destruct Hselection as [-> | [(v & -> & Hfalsy) | ->]]; [reflexivity | | reflexivity].
    unfold urlModelIds. now rewrite Hfalsy. }
  set (file := InsertMediaUpload.mk filename 0 filetype None).
  set (w1 := snd (storage_createMediaUpload file w)).
  assert (Hout : outcome
                 = (Js.Normal (mkResponse 201 (Started "URL analysis started" id)),
                    run (dispatch id []) w1)).
  { subst outcome. unfold analyzeUrl, analyzeUrlWith. cbn [negb]. rewrite Htype.
    unfold bind at 1. fold file.
    change (storage_createMediaUpload file w)
      with (Js.Normal (fst (createMediaUpload (clock w O) file (storage w))), w1).
    cbv iota. rewrite Hids.
    change (MediaUpload.id (fst (createMediaUpload (clock w O) file (storage w)))) with id.
    pose proof (dispatchWith_returns simulatedAnalysis id [] w1) as Hret.
    unfold bind at 1, run, dispatch.
    destruct (dispatchWith simulatedAnalysis id [] w1) as [[[] | e] w2];
      [reflexivity | discriminate]. }
  rewrite Hout. cbn [fst snd].
  destruct (createMediaUpload_round_trip_facts (clock w O) file (storage w) Hok)
    as (_ & Hjob & _).
  assert (Hok1 : store_ok (storage w1)) by (apply createMediaUpload_ok; exact Hok).
  destruct (processMedia_completes id [] w1 _ Hjob (store_ok_fresh_result_ids _ Hok1))
    as (_ & Hstatus & Hresults).
  split; [reflexivity | split; [exact Hstatus |]].
  rewrite Hresults. reflexivity.
Qed.

Lemma analyzeUrl_without_selection_uses_active_models_witness :
  let ids selectedModels :=
    resultModelIds 1
      (storage (snd (analyzeUrl (Some "https://example.org/clip.mp4") true
                                (Js.Normal ("clip.mp4", ".mp4")) selectedModels initialWorld))) in
  ids None = [1; 2; 3]
  /\ ids (Some (Js.Number 0)) = [1; 2; 3]
  /\ ids (Some Js.Null) = [1; 2; 3]
  /\ ids (Some (Js.Arr [])) = [1; 2; 3].
Proof.
  intros ids.
  assert (Hall : forall selectedModels,
             selectedModels = None
             \/ (exists v, selectedModels = Some v /\ truthy v = false)
             \/ selectedModels = Some (Js.Arr []) ->
             ids selectedModels = [1; 2; 3]).
  { intros selectedModels Hselection.
    destruct (analyzeUrl_without_selection_uses_active_models
                "h"%char "ttps://example.org/clip.mp4" "clip.mp4" ".mp4" "video/mp4"
                selectedModels initialWorld eq_refl Hselection newMemStorage_ok)
      as (_ & _ & Hids).
    refine (eq_trans Hids _). reflexivity. }
  split; [| split; [| split]]; apply Hall.
  - now left.
  - right. left. exists (Js.Number 0). split; reflexivity.
  - right. left. exists Js.Null. split; reflexivity.
  - now right; right.
Defined.

(** ** The simulated processing time *)




(** ** The client *)

(** X24.  For a report of [getCompleteAnalysis] the cards of
    [RecommendedActions] depend on the overall confidence alone: above 60 the
    warning, the advice to verify and the advice to ask an expert; below 40
    the advice to verify and the note that the media appears authentic; from
    40 to 60 the advice to verify only.  The warning and the note are never
    shown together. *)
Theorem recommendedActions_of_a_report :
  forall (mediaId : Z) (st : MemStorage) (report : AnalysisResponse.t),
    getCompleteAnalysis mediaId st = Some report ->
    let confidence := AnalysisResponse.overallConfidence report in
    let cards := recommendedActions (AnalysisResponse.isDeepfake report) confidence in
    cards = (if 60 <? confidence
             then [TreatAsMisleading; VerifyFromSources; RequestExpertAnalysis]
             else if confidence <? 40 then [VerifyFromSources; AppearsAuthentic]
                  else [VerifyFromSources])
    /\ ~ (In TreatAsMisleading cards /\ In AppearsAuthentic cards).
Proof.
  intros mediaId st report Hreport confidence cards.
  destruct (getCompleteAnalysis_some _ _ _ Hreport) as (_ & _ & _ & _ & _ & _ & Hdeep & _).
  assert (Hcards : cards = (if 60 <? confidence
             then [TreatAsMisleading; VerifyFromSources; RequestExpertAnalysis]
             else if confidence <? 40 then [VerifyFromSources; AppearsAuthentic]
                  else [VerifyFromSources])).
  { subst cards. unfold recommendedActions. rewrite Hdeep. fold confidence.
    destruct (Z.ltb_spec 60 confidence) as [Hhigh | Hlow]; cbn.
    - replace (confidence <? 40) with false by (symmetry; apply Z.ltb_ge; lia). reflexivity.
    - destruct (confidence <? 40); reflexivity. }
  split; [exact Hcards |].
  rewrite Hcards. destruct (60 <? confidence); [| destruct (confidence <? 40)]; cbn;
    intros [H1 H2];
    repeat match goal with
           | H : _ \/ _ |- _ => destruct H
           | H : False |- _ => contradiction
           | H : _ = _ |- _ => discriminate H
           end.
Qed.

Lemma recommendedActions_of_a_report_witness :
  exists report,
    getCompleteAnalysis 1 storeModel3First = Some report
    /\ recommendedActions (AnalysisResponse.isDeepfake report)
                          (AnalysisResponse.overallConfidence report)
       = [TreatAsMisleading; VerifyFromSources; RequestExpertAnalysis].
Proof.
  destruct (getCompleteAnalysis 1 storeModel3First) as [report |] eqn:Hreport;
    [| discriminate].
  exists report. split; [reflexivity |].
  rewrite (proj1 (recommendedActions_of_a_report 1 storeModel3First report Hreport)).
  inversion Hreport. reflexivity.
Defined.

Lemma forallb_filter_all {A : Type} (f : A -> bool) (l : list A) :
  forallb f l = true -> filter f l = l.
Proof.
  induction l as [| a rest IH]; cbn; [reflexivity |].
  intros H. apply andb_true_iff in H as [Ha Hrest]. now rewrite Ha, IH.
Qed.

(** X25.  What [ModelSelection] reports to its parent is always the list of
    the models that are selected in its new state, for the initialisation, a
    click on a model and the button for all models.  A second click on the
    same model restores the state.  The button selects every model unless
    every model is selected already, in which case (and for an empty list) it
    deselects them all. *)
Theorem model_selection_reports_its_state :
  forall (models : list ModelInfo.t),
    (forall availableModels state reported,
        initializeModels availableModels = Some (state, reported) ->
        reported = selectedOf state
        /\ map ModelInfo.model state = availableModels
        /\ forall m, In m reported <->
                     In m state /\ (ModelInfo.name m = "FaceForensics++"
                                    \/ ModelInfo.name m = "CNN-LSTM"))
    /\ (forall id,
           snd (handleModelClick id models) = selectedOf (fst (handleModelClick id models))
           /\ fst (handleModelClick id (fst (handleModelClick id models))) = models)
    /\ snd (handleSelectAll models) = selectedOf (fst (handleSelectAll models))
    /\ (forallb ModelInfo.isSelected models = false ->
        snd (handleSelectAll models) = fst (handleSelectAll models)
        /\ map ModelInfo.model (snd (handleSelectAll models)) = map ModelInfo.model models)
    /\ (forallb ModelInfo.isSelected models = true -> snd (handleSelectAll models) = []).
Proof.
  intros models. split; [| split; [| split; [| split]]].
  - intros availableModels state reported. unfold initializeModels.
    destruct (0 <? Z.of_nat (length availableModels)); [| discriminate].
    intros H. inversion H; subst; clear H. split; [reflexivity | split].
    + rewrite map_map. cbn. apply map_id.
    + intros m. rewrite filter_In. split.
      * intros [Hin Hsel]. split; [assumption |].
        apply in_map_iff in Hin as (model & <- & _). cbn in *.
        apply orb_true_iff in Hsel as [Hsel | Hsel]; apply String.eqb_eq in Hsel; tauto.
      * intros [Hin Hname]. split; [assumption |].
        apply in_map_iff in Hin as (model & <- & _). unfold ModelInfo.name in Hname.
        cbn in *. apply orb_true_iff.
        destruct Hname as [-> | ->]; [left | right]; reflexivity.
  - intros id. split; [reflexivity |].
    unfold handleModelClick. cbn [fst]. rewrite map_map.
    rewrite <- (map_id models) at 2. apply map_ext. intros [model selected].
    unfold ModelInfo.id. cbn.
    destruct (DetectionModel.id model =? id) eqn:E; cbn; rewrite ?E; cbn;
      [now rewrite negb_involutive | reflexivity].
  - unfold handleSelectAll, selectedOf. cbn [fst snd].
    destruct (forallb ModelInfo.isSelected models); cbn [negb].
    + induction models as [| m rest IH]; cbn; [reflexivity | exact IH].
    + symmetry. apply forallb_filter_all. rewrite forallb_forall.
      intros m Hin. apply in_map_iff in Hin as (m0 & <- & _). reflexivity.
  - intros Hnot. unfold handleSelectAll. rewrite Hnot. cbn [fst snd negb].
    split; [reflexivity |]. rewrite map_map. reflexivity.
  - intros Hall. unfold handleSelectAll. now rewrite Hall.
Qed.

Lemma model_selection_reports_its_state_witness :
  map ModelInfo.id
      (match initializeModels (getDetectionModels newMemStorage) with
       | Some (_, reported) => reported
       | None => []
       end)
  = [1; 3].
Proof.
  destruct (initializeModels (getDetectionModels newMemStorage))
    as [[state reported] |] eqn:Hinit; [| discriminate].
  destruct (proj1 (model_selection_reports_its_state []) _ state reported Hinit)
    as (-> & _ & _).
  inversion Hinit. reflexivity.
Defined.

(** ** The extraction of the selection, in all cases *)

(** X26.  The extraction of [selectedModels] in the upload route never
    throws and has no effect.  A text that parses to a JSON array gives the
    elements of the array, with every text element read by [parseInt] (the
    empty array gives the empty selection); a text that parses to anything
    else gives the ids 1 and 2, as a text that does not parse does. *)
Theorem extractSelectedModels_cases :
  forall (body_selectedModels : option string) (w : World),
    exists selectedModels,
      extractSelectedModels body_selectedModels w = (Js.Normal selectedModels, w)
      /\ forall c rest,
           body_selectedModels = Some (String c rest) ->
           match JSON.parse (String c rest) with
           | Js.Normal (Js.Arr ids) =>
               selectedModels
               = map (fun id => match id with Js.Str s => Js.parseInt s | _ => id end) ids
           | _ => selectedModels = [Js.of_Z 1; Js.of_Z 2]
           end.
Proof.
  intros body w. unfold extractSelectedModels.
  destruct body as [[| c rest] |].
  - eexists. split; [reflexivity | discriminate].
  - unfold parseSelectedModels.
    destruct (JSON.parse (String c rest)) as [v | e] eqn:Hparse.
    + destruct v; eexists; (split; [reflexivity |]);
        intros c' rest' H; inversion H; subst; rewrite Hparse; reflexivity.
    + eexists. split; [reflexivity |].
      intros c' rest' H; inversion H; subst; rewrite Hparse; reflexivity.
  - eexists. split; [reflexivity | discriminate].
Qed.

Lemma extractSelectedModels_cases_witness :
  fst (extractSelectedModels (Some "{}") initialWorld) = Js.Normal [Js.of_Z 1; Js.of_Z 2]
  /\ fst (extractSelectedModels (Some "[4, 2]") initialWorld)
     = Js.Normal [Js.of_Z 4; Js.of_Z 2].
Proof.
  destruct (extractSelectedModels_cases (Some "{}") initialWorld) as (s1 & H1 & Hcase1).
  destruct (extractSelectedModels_cases (Some "[4, 2]") initialWorld)
    as (s2 & H2 & Hcase2).
  specialize (Hcase1 _ _ eq_refl). specialize (Hcase2 _ _ eq_refl).
  vm_compute in Hcase1, Hcase2.
  rewrite H1, H2. cbn [fst]. now subst.
Defined.

(** ** From the page to the route: the ids of the selected models *)

Lemma string_append_assoc (a b c : string) : (a ++ b) ++ c = a ++ (b ++ c).
Proof. induction a as [| ch a IH]; cbn; [reflexivity | now rewrite IH]. Qed.

Lemma decimalDigits_tail (fuel : nat) :
  forall (n : Z) (tail : string),
    decimalDigits fuel n tail = decimalDigits fuel n EmptyString ++ tail.
Proof.
  induction fuel as [| fuel IH]; intros n tail; cbn [decimalDigits]; [reflexivity |].
  destruct (n <? 10); [reflexivity |].
  rewrite (IH (n / 10) (String (digitChar (n mod 10)) tail)).
  rewrite (IH (n / 10) (String (digitChar (n mod 10)) EmptyString)).
  now rewrite string_append_assoc.
Qed.

(** The decimal text of [n], followed by [tail]. *)
Lemma Number_toString_tail (n : Z) (tail : string) :
  0 <= n ->
  exists fuel,
    (0 < fuel)%nat /\ n < 10 ^ Z.of_nat fuel
    /\ Number_toString n ++ tail = decimalDigits fuel n tail.
Proof.
  intros Hn. unfold Number_toString.
  replace (n <? 0) with false by (symmetry; apply Z.ltb_ge; lia).
  exists (S (Z.to_nat (Z.log2 n))). split; [lia | split].
  - rewrite Nat2Z.inj_succ.
    destruct (Z.eq_dec n 0) as [-> | Hpos]; [cbn; lia |].
    rewrite Z2Nat.id by apply Z.log2_nonneg.
    pose proof (Z.log2_spec n ltac:(lia)) as [_ Hlt].
    eapply Z.lt_le_trans; [exact Hlt |]. apply Z.pow_le_mono_l. lia.
  - symmetry. apply decimalDigits_tail.
Qed.

(** The first digit of a decimal text is not 0, unless the number is 0. *)
Lemma decimalDigits_first (fuel : nat) :
  forall (n : Z) (tail : string),
    (0 < fuel)%nat -> 0 <= n < 10 ^ Z.of_nat fuel ->
    exists d rest,
      decimalDigits fuel n tail = String (digitChar d) rest
      /\ 0 <= d < 10
      /\ (d = 0 -> n = 0 /\ rest = tail).
Proof.
  induction fuel as [| fuel IH]; intros n tail Hfuel Hn; [lia |].
  cbn [decimalDigits]. destruct (Z.ltb_spec n 10) as [Hsmall | Hbig].
  - exists n, tail. split; [reflexivity | split; [lia |]]. intros ->. now split.
  - assert (Hdiv : 0 <= n / 10 < 10 ^ Z.of_nat fuel).
    { rewrite Nat2Z.inj_succ, Z.pow_succ_r in Hn by lia.
      split; [apply Z.div_pos; lia | apply Z.div_lt_upper_bound; lia]. }
    assert (Hone : 1 <= n / 10) by (apply Z.div_le_lower_bound; lia).
    assert (Hfuel' : (0 < fuel)%nat) by (destruct fuel; [cbn in Hdiv; lia | lia]).
    destruct (IH (n / 10) (String (digitChar (n mod 10)) tail) Hfuel' Hdiv)
      as (d & rest & Heq & Hd & Hzero).
    exists d, rest. split; [exact Heq | split; [exact Hd |]].
    intros Hd0. destruct (Hzero Hd0) as [H0 _]. lia.
Qed.

(** A number literal made of decimal digits, in front of a comma or a
    closing bracket. *)
Lemma number_of_digits (c c2 : ascii) (rest r2 : string) (n : Z) (k : nat) :
  Js.digit c <> None ->
  Js.digits 10 0 0 (String c rest) = (n, k, String c2 r2) ->
  c2 = ","%char \/ c2 = "]"%char ->
  (c = "0"%char -> rest = String c2 r2 /\ n = 0) ->
  JSON.number (String c rest) = Some (inject_Z n, String c2 r2).
Proof.
  intros Hdigit Hdigits Hc2 Hzero.
  assert (Hend : forall m, JSON.scale m 0 = inject_Z m).
  { intros m. unfold JSON.scale. cbn. now rewrite Z.mul_1_r. }
  destruct c as [[] [] [] [] [] [] [] []]; cbn in Hdigit; try congruence; clear Hdigit;
    try (destruct (Hzero eq_refl) as [-> ->];
         destruct Hc2 as [-> | ->]; unfold JSON.number; cbn -[JSON.scale];
         now rewrite Hend);
    clear Hzero;
    (unfold JSON.number; cbn -[JSON.scale] in Hdigits |- *;
     match type of Hdigits with
     | Js.digits 10 ?acc 1 rest = _ =>
         pose proof (digits_count 10 rest acc 1) as Hcount
     end;
     rewrite Hdigits in Hcount |- *; cbn in Hcount;
     destruct k as [| k']; [lia |];
     destruct Hc2 as [-> | ->]; cbn -[JSON.scale]; now rewrite Hend).
Qed.

Lemma parse_value_digit (fuel : nat) (c : ascii) (rest : string) :
  Js.digit c <> None ->
  JSON.parse_value (S fuel) (String c rest)
  = match JSON.number (String c rest) with
    | Some (q, after) => Some (Js.Number q, after)
    | None => None
    end.
Proof.
  intros Hdigit.
  destruct c as [[] [] [] [] [] [] [] []]; cbn in Hdigit; try congruence; reflexivity.
Qed.

Lemma parse_value_array_of_digits (fuel : nat) (c : ascii) (rest : string) :
  Js.digit c <> None ->
  JSON.parse_value (S fuel) (String "[" (String c rest))
  = match JSON.parse_elements fuel (String c rest) with
    | Some (items, after) => Some (Js.Arr items, after)
    | None => None
    end.
Proof.
  intros Hdigit.
  destruct c as [[] [] [] [] [] [] [] []]; cbn in Hdigit; try congruence; reflexivity.
Qed.

Lemma parse_elements_step (fuel : nat) (s : string) :
  JSON.parse_elements (S fuel) s
  = match JSON.parse_value fuel s with
    | None => None
    | Some (item, after) =>
        match JSON.skip_ws after with
        | String "]" rest => Some ([item], rest)
        | String "," rest =>
            match JSON.parse_elements fuel rest with
            | Some (items, rest') => Some (item :: items, rest')
            | None => None
            end
        | _ => None
        end
    end.
Proof. reflexivity. Qed.

Lemma digitChar_zero (d : Z) : 0 <= d < 10 -> digitChar d = "0"%char -> d = 0.
Proof.
  intros Hd.
  assert (H : d = 0 \/ d = 1 \/ d = 2 \/ d = 3 \/ d = 4 \/ d = 5 \/ d = 6 \/ d = 7
              \/ d = 8 \/ d = 9) by lia.
  repeat (destruct H as [-> | H]; [intros E; (reflexivity || discriminate E) |]).
  subst. discriminate.
Qed.

(** The text of one id, in front of the rest of the array, is read as that
    number. *)
Lemma parse_value_id (fuel : nat) (n : Z) (c2 : ascii) (r2 : string) :
  0 <= n ->
  c2 = ","%char \/ c2 = "]"%char ->
  JSON.parse_value (S fuel) (Number_toString n ++ String c2 r2)
  = Some (Js.of_Z n, String c2 r2).
Proof.
  intros Hn Hc2.
  destruct (Number_toString_tail n (String c2 r2) Hn) as (digitsFuel & Hfuel & Hbound & ->).
  destruct (decimalDigits_first digitsFuel n (String c2 r2) Hfuel (conj Hn Hbound))
    as (d & rest & Hfirst & Hd & Hzero).
  destruct (digits_decimalDigits digitsFuel n 0 0 Hfuel (conj Hn Hbound)) as (k & Hk & Hread).
  specialize (Hread (String c2 r2)).
  assert (Hstop : Js.digits 10 (0 * 10 ^ Z.of_nat k + n) (0 + k) (String c2 r2)
                  = (n, k, String c2 r2)).
  { replace (0 * 10 ^ Z.of_nat k + n) with n by lia.
    destruct Hc2 as [-> | ->]; reflexivity. }
  rewrite Hstop, Hfirst in Hread.
  assert (Hdigit : Js.digit (digitChar d) <> None)
    by (destruct (digitChar_digit d Hd) as [_ ->]; discriminate).
  rewrite Hfirst, (parse_value_digit fuel _ _ Hdigit).
  rewrite (number_of_digits _ c2 rest r2 n k Hdigit Hread Hc2); [reflexivity |].
  intros Hchar. apply (digitChar_zero d Hd) in Hchar. destruct (Hzero Hchar). now split.
Qed.

Lemma stringify_rest_first (ids : list Z) :
  exists c2 r2,
    stringify_rest ids = String c2 r2 /\ (c2 = ","%char \/ c2 = "]"%char).
Proof.
  destruct ids as [| id rest]; cbn; eexists; eexists; (split; [reflexivity | tauto]).
Qed.

Lemma parse_elements_ids (rest : list Z) :
  forall (n : Z) (fuel : nat),
    Forall (fun id => 0 <= id) (n :: rest) ->
    (length rest < fuel)%nat ->
    JSON.parse_elements (S fuel) (Number_toString n ++ stringify_rest rest)
    = Some (map Js.of_Z (n :: rest), EmptyString).
Proof.
  induction rest as [| m rest IH]; intros n fuel Hids Hfuel;
    inversion Hids as [| ? ? Hn Hrest]; subst;
    (destruct fuel as [| fuel]; [cbn in Hfuel; lia |]);
    rewrite parse_elements_step.
  - cbn [stringify_rest]. rewrite (parse_value_id fuel n "]" EmptyString Hn); [| tauto].
    reflexivity.
  - cbn [stringify_rest].
    change ("," ++ Number_toString m ++ stringify_rest rest)
      with (String "," (Number_toString m ++ stringify_rest rest)).
    rewrite (parse_value_id fuel n "," _ Hn); [| tauto].
    cbn [JSON.skip_ws JSON.is_ws]. cbn -[JSON.parse_elements Number_toString stringify_rest].
    rewrite (IH m fuel Hrest); [reflexivity | cbn in Hfuel; lia].
Qed.

Lemma string_length_append (a b : string) :
  String.length (a ++ b) = (String.length a + String.length b)%nat.
Proof. induction a as [| ch a IH]; cbn; [reflexivity | now rewrite IH]. Qed.

Lemma stringify_rest_length (ids : list Z) :
  (length ids <= String.length (stringify_rest ids))%nat.
Proof.
  induction ids as [| id rest IH]; cbn [stringify_rest length]; [cbn; lia |].
  change ("," ++ Number_toString id ++ stringify_rest rest)
    with (String "," (Number_toString id ++ stringify_rest rest)).
  cbn [String.length]. rewrite string_length_append. lia.
Qed.

Lemma parse_stringified_ids (ids : list Z) :
  Forall (fun id => 0 <= id) ids ->
  JSON.parse (JSON_stringify_ids ids) = Js.Normal (Js.Arr (map Js.of_Z ids)).
Proof.
  intros Hids. destruct ids as [| n rest]; [reflexivity |].
  inversion Hids as [| ? ? Hn Hrest]; subst.
  unfold JSON.parse, JSON_stringify_ids.
  change ("[" ++ Number_toString n ++ stringify_rest rest)
    with (String "[" (Number_toString n ++ stringify_rest rest)).
  set (inner := Number_toString n ++ stringify_rest rest).
  assert (Hlen : (length rest < 2 * String.length (String "[" inner))%nat).
  { cbn [String.length]. subst inner. rewrite string_length_append.
    pose proof (stringify_rest_length rest). lia. }
  replace (2 * String.length (String "[" inner) + 2)%nat
    with (S (S (2 * String.length (String "[" inner)))) by lia.
  destruct (stringify_rest_first rest) as (c2 & r2 & Hrest2 & Hc2).
  destruct (Number_toString_tail n (stringify_rest rest) Hn) as (fuel & Hfuel & Hbound & Htext).
  destruct (decimalDigits_first fuel n (stringify_rest rest) Hfuel (conj Hn Hbound))
    as (d & tail & Hfirst & Hd & _).
  assert (Hdigit : Js.digit (digitChar d) <> None)
    by (destruct (digitChar_digit d Hd) as [_ ->]; discriminate).
  assert (Hinner : inner = String (digitChar d) tail)
    by (subst inner; now rewrite Htext).
  rewrite Hinner, (parse_value_array_of_digits _ _ _ Hdigit), <- Hinner.
  subst inner. rewrite (parse_elements_ids rest n _ Hids Hlen). reflexivity.
Qed.

(** X27.  The ids the page sends reach [processMedia] unchanged: the text
    [JSON.stringify] makes of a list of non-negative ids is read back by the
    upload route as exactly these ids, without effect on the store.  For an
    empty list the text is [[]] and the selection is empty, so that the active
    models are used, not all models as when the field is missing. *)
Theorem selected_ids_reach_the_route :
  forall (ids : list Z) (w : World),
    Forall (fun id => 0 <= id) ids ->
    parseSelectedModels (JSON_stringify_ids ids) = Js.Normal (map Js.of_Z ids)
    /\ extractSelectedModels (Some (JSON_stringify_ids ids)) w
       = (Js.Normal (map Js.of_Z ids), w)
    /\ forall availableModels isVideo model,
         ids <> [] ->
         (In model (modelsToUse availableModels
                      (match fst (extractSelectedModels (Some (JSON_stringify_ids ids)) w) with
                       | Js.Normal selectedModels => selectedModels
                       | Js.Throw _ => []
                       end) isVideo) <->
          In model availableModels
          /\ In (DetectionModel.id model) ids
          /\ compatible isVideo model = true).
Proof.
  intros ids w Hids.
  assert (Hparse : parseSelectedModels (JSON_stringify_ids ids) = Js.Normal (map Js.of_Z ids)).
  { unfold parseSelectedModels. rewrite (parse_stringified_ids ids Hids).
    f_equal. rewrite map_map. apply map_ext. intros id. reflexivity. }
  assert (Hextract : extractSelectedModels (Some (JSON_stringify_ids ids)) w
                     = (Js.Normal (map Js.of_Z ids), w)).
  { unfold extractSelectedModels.
    destruct (JSON_stringify_ids ids) as [| c rest] eqn:Htext.
    - destruct ids; discriminate.
    - now rewrite Hparse. }
  split; [exact Hparse | split; [exact Hextract |]].
  intros availableModels isVideo model Hne. rewrite Hextract. cbn [fst].
  unfold modelsToUse. rewrite length_map.
  replace (0 <? Z.of_nat (length ids)) with true
    by (symmetry; apply Z.ltb_lt; destruct ids; [congruence | cbn; lia]).
  rewrite filter_In, andb_true_iff, Array_includes_ids. tauto.
Qed.

Lemma selected_ids_reach_the_route_witness :
  JSON_stringify_ids [1; 3] = "[1,3]"
  /\ parseSelectedModels "[1,3]" = Js.Normal [Js.of_Z 1; Js.of_Z 3].
Proof.
  split; [reflexivity |].
  assert (Hids : Forall (fun id => 0 <= id) [1; 3]) by (repeat constructor; lia).
  exact (proj1 (selected_ids_reach_the_route [1; 3] initialWorld Hids)).
Defined.
